(** * The QUIC layers of mitmproxy (mitmproxy/proxy/layers/quic.py)

    A shallow embedding of [QuicStream], [QuicStreamLayer], [QuicLayer],
    [ServerQuicLayer] and [ClientQuicLayer], and the properties the
    specification states about them.

    A Python generator that yields commands is a function that returns
    the effects it produces, in order. What the environment does at a
    yield (the addons run by a hook, the reply to a command) is read
    from an oracle. A failed assertion or a [KeyError] is the absence
    of a result. *)

From stdpp Require Import gmap strings list fin_maps.
From Stdlib Require Import ZArith Lia Floats HexString.

Local Open Scope Z_scope.
Local Open Scope string_scope.
Local Open Scope list_scope.

(** ** Data shared by the layers *)

(** Python [bytes]: a sequence of 8-bit characters. *)
Abbreviation bytes := string (only parsing).

(** [connection.Address]: host and port. *)
Abbreviation Address := (string * Z)%type (only parsing).

(** Python truthiness of a [str] and of a [str | None]. *)
Definition truthy (s : string) : bool :=
  match s with EmptyString => false | _ => true end.

Definition truthy_opt (o : option string) : bool :=
  match o with Some s => truthy s | None => false end.

(** The events of [aioquic.quic.events] the layers look at; every other
    event class is [OtherQuicEvent]. *)
Inductive QuicEvent : Type :=
| ConnectionIdIssued (connection_id : bytes)
| ConnectionIdRetired (connection_id : bytes)
| ConnectionTerminated (error_code : Z) (frame_type : option Z) (reason_phrase : string)
| DatagramFrameReceived (data : bytes)
| HandshakeCompleted (alpn_protocol : string) (early_data_accepted session_resumed : bool)
| PingAcknowledged (uid : Z)
| ProtocolNegotiated (alpn_protocol : string)
| StreamDataReceived (data : bytes) (end_stream : bool) (stream_id : Z)
| StreamReset (error_code : Z) (stream_id : Z)
| OtherQuicEvent (tag : nat).

(** [context.client] and [context.server]. *)
Inductive ConnRef : Type := Client | Server.

#[global] Instance ConnRef_eq_dec : EqDecision ConnRef.
Proof. solve_decision. Defined.

(** A [tcp.TCPMessage] or [udp.UDPMessage]. *)
Record Message : Type := mkMessage {
  from_client : bool;
  content : bytes
}.

(** A [tcp.TCPFlow] or [udp.UDPFlow]: the fields the layers read and
    write. [flow_id] stands for the identity of the Python object. *)
Record Flow : Type := mkFlow {
  flow_id : nat;
  messages : list Message;
  error : option string;
  live : bool
}.

Definition set_error (e : string) (f : Flow) : Flow :=
  mkFlow (flow_id f) (messages f) (Some e) (live f).

Definition set_live (b : bool) (f : Flow) : Flow :=
  mkFlow (flow_id f) (messages f) (error f) b.

Definition set_messages (ms : list Message) (f : Flow) : Flow :=
  mkFlow (flow_id f) ms (error f) (live f).

(** [QuicTlsSettings]; certificates and keys are opaque texts. *)
Record QuicTlsSettings : Type := mkQuicTlsSettings {
  certificate : option string;
  certificate_chain : list string;
  certificate_private_key : option string;
  cipher_suites : option (list Z);
  ca_path : option string;
  ca_file : option string;
  verify_mode : option Z
}.

(** [QuicTlsData]: the connection and the settings an addon fills in. *)
Record QuicTlsData : Type := mkQuicTlsData {
  tls_conn : ConnRef;
  settings : option QuicTlsSettings
}.

(** [ClientHelloData], with the two answers an addon gives. *)
Record ClientHelloData : Type := mkClientHelloData {
  sni : option string;
  alpn_protocols : list bytes;
  ignore_connection : bool;
  establish_server_tls_first : bool
}.

(** The text of the log entries, kept symbolic. *)
Inductive LogMsg : Type :=
| LogClosedStreamData (n : nat) (stream_id : Z)
| LogClosedStreamReset (stream_id : Z)
| LogIgnoredEvent (event : QuicEvent)
| LogDestroyed (conn : ConnRef) (reason : string)
| LogEstablished (conn : ConnRef) (early_data_accepted session_resumed : bool)
| LogNoSettings (conn : ConnRef)
| LogCreated (conn : ConnRef)
| LogNoRoute (conn : ConnRef) (addr : Address)
| LogServerFailed (err : string)
| LogCannotParseClientHello (reason : string) (data : bytes)
| LogText (s : string).

(** The commands the layers yield: those of [mitmproxy.proxy.commands]
    and the hooks. A hook carries its data as it is when the hook is
    yielded. [RequestWakeup] objects are dictionary keys compared by
    identity, which is the [id] here. *)
Inductive Command : Type :=
| Log (message : LogMsg) (level : string)
| SendData (connection : ConnRef) (data : bytes)
| OpenConnection (connection : ConnRef)
| CloseConnection (connection : ConnRef)
| RequestWakeup (id : nat) (delay : float)
| QuicTransmit (connection : ConnRef) (quic : nat)
| QuicTlsStartClientHook (data : QuicTlsData)
| QuicTlsStartServerHook (data : QuicTlsData)
| TlsClienthelloHook (data : ClientHelloData)
| TlsEstablishedClientHook (data : QuicTlsData)
| TlsEstablishedServerHook (data : QuicTlsData)
| TlsFailedClientHook (data : QuicTlsData)
| TlsFailedServerHook (data : QuicTlsData)
| TcpStartHook (flow : Flow)
| TcpMessageHook (flow : Flow)
| TcpEndHook (flow : Flow)
| TcpErrorHook (flow : Flow)
| UdpStartHook (flow : Flow)
| UdpMessageHook (flow : Flow)
| UdpEndHook (flow : Flow)
| UdpErrorHook (flow : Flow)
| OtherCommand (tag : nat).

(** The events the layers receive. [QuicStart] carries the identity of
    the engine ([self.quic] of the layer that sends it, which may be
    [None]), [Wakeup] that of its [RequestWakeup] command, and an
    injected message the identity of its flow. *)
Inductive Event : Type :=
| Start
| DataReceived (connection : ConnRef) (data : bytes)
| ConnectionClosed (connection : ConnRef)
| Wakeup (command : nat)
| OpenConnectionCompleted (command : Command) (reply : option string)
| QuicStart (connection : ConnRef) (quic : option nat)
| QuicConnectionEvent (connection : ConnRef) (event : QuicEvent)
| TcpMessageInjected (flow : nat) (message : Message)
| UdpMessageInjected (flow : nat) (message : Message)
| OtherEvent (tag : nat).

(** ** Error codes *)

Section ErrorCodes.

(** The members of aioquic's [QuicErrorCode] and [H3ErrorCode] the
    layers name, and the two enumerations as lookups from a value to the
    member's name. *)
Variable NO_ERROR : Z.
Variable H3_NO_ERROR : Z.
Variable QuicErrorCode_name : Z -> option string.
Variable H3ErrorCode_name : Z -> option string.

Definition error_code_to_str (error_code : Z) : string :=
  match H3ErrorCode_name error_code with
  | Some name => name
  | None =>
      match QuicErrorCode_name error_code with
      | Some name => name
      | None => "unknown error (" ++ HexString.of_Z error_code ++ ")"
      end
  end%string.

Definition is_success_error_code (error_code : Z) : bool :=
  Z.eqb error_code NO_ERROR || Z.eqb error_code H3_NO_ERROR.

End ErrorCodes.

(** ** QuicStream *)

Module Stream.

Section WithAddon.

(** A hook hands a flow to the addons, which may rewrite the payload of
    its messages in place before the layer goes on. [addon tick hook i c]
    is the content the addons leave in message [i] of the flow (whose
    content was [c]) when they handle the [tick]-th hook. *)
Variable addon : nat -> Command -> nat -> bytes -> bytes.

Definition run_hook (tick : nat) (hook : Command) (f : Flow) : Flow :=
  set_messages
    (imap (fun i m => mkMessage (from_client m) (addon tick hook i (content m))) (messages f))
    f.

(** [stream_is_unidirectional] and [stream_is_client_initiated] of
    aioquic, which the constructor calls. *)
Variable stream_is_unidirectional : Z -> bool.
Variable stream_is_client_initiated : Z -> bool.

Record QuicStream : Type := mkQuicStream {
  flow : option Flow;
  stream_id : Z;
  _ended_client : bool;
  _ended_server : bool
}.

(** [QuicStream.__init__]; [fid] is the identity of the flow object it
    creates when the stream is not ignored. *)
Definition init (fid : nat) (sid : Z) (ignore : bool) : QuicStream :=
  let is_unidirectional := stream_is_unidirectional sid in
  let from_client := stream_is_client_initiated sid in
  mkQuicStream
    (if ignore then None else Some (mkFlow fid [] None true))
    sid
    (is_unidirectional && negb from_client)
    (is_unidirectional && from_client).

Definition has_ended (self : QuicStream) (client : bool) : bool :=
  if client then _ended_client self else _ended_server self.

Definition set_ended (client : bool) (self : QuicStream) : QuicStream :=
  if client
  then mkQuicStream (flow self) (stream_id self) true (_ended_server self)
  else mkQuicStream (flow self) (stream_id self) (_ended_client self) true.

Definition set_flow (f : option Flow) (self : QuicStream) : QuicStream :=
  mkQuicStream f (stream_id self) (_ended_client self) (_ended_server self).

(** [QuicStream.mark_ended]. The result is the stream, the hook counter
    and the hooks yielded; [None] is the failed assertion. *)
Definition mark_ended (self : QuicStream) (client : bool) (err : option string) (tick : nat)
  : option (QuicStream * nat * list Command) :=
  (* ensure we actually change the ended state *)
  if has_ended self client then None
  else
    let self := set_ended client self in
    (* we're done if the stream is ignored *)
    match flow self with
    | None => Some (self, tick, [])
    | Some f =>
        (* set and report the first error *)
        let '(f, tick, out1) :=
          match err, error f with
          | Some e, None =>
              let f := set_error e f in
              (run_hook tick (TcpErrorHook f) f, S tick, [TcpErrorHook f])
          | _, _ => (f, tick, [])
          end in
        (* report error-free endings and always clear the live flag *)
        let '(f, tick, out2) :=
          if _ended_client self && _ended_server self then
            let '(f, tick, out) :=
              match error f with
              | None => (run_hook tick (TcpEndHook f) f, S tick, [TcpEndHook f])
              | Some _ => (f, tick, [])
              end in
            (set_live false f, tick, out)
          else (f, tick, []) in
        Some (set_flow (Some f) self, tick, out1 ++ out2)
    end.

End WithAddon.

End Stream.

(** ** QuicStreamLayer *)

Module Relay.

Import Stream.

(** The methods of an aioquic connection the relay calls. *)
Inductive EngineCall : Type :=
| send_datagram_frame (data : bytes)
| send_stream_data (stream_id : Z) (data : bytes) (end_stream : bool)
| reset_stream (stream_id : Z) (error_code : Z)
| close (error_code : Z) (frame_type : option Z) (reason_phrase : string).

(** What the relay does, in order: the commands it yields and the calls
    it makes on an engine ([quic] is the identity of the engine). *)
Inductive Action : Type :=
| Yield (c : Command)
| Call (quic : nat) (m : EngineCall).

(** The three values of [_handle_event]. *)
Inductive Handler : Type := state_start_ | state_ready_ | state_done_.

(** The [_close_event] attribute of an engine. *)
Record CloseEvent : Type := mkCloseEvent {
  error_code : Z;
  frame_type : option Z;
  reason_phrase : string
}.

(** The layer object, and what it reads of its context.

    [streams_by_id] holds the streams in the order they were inserted;
    its keys are their [stream_id]. [streams_by_flow] holds the same
    objects under their flow, so it is read off the same list.
    [_close_event] maps the identity of an engine to its attribute of
    that name, which the QUIC layers write and the relay reads.
    [tick] counts the hooks and replies consumed so far. *)
Record QuicStreamLayer : Type := mkQuicStreamLayer {
  buffer_from_client : list QuicEvent;
  buffer_from_server : list QuicEvent;
  flow : option Flow;
  quic_client : option nat;
  quic_server : option nat;
  streams_by_id : list QuicStream;
  _handle_event : Handler;
  client_connected : bool;
  server_connected : bool;
  server_timestamp_start : option float;
  _close_event : gmap nat CloseEvent;
  tick : nat
}.

Definition set_buffer_from_client (b : list QuicEvent) (s : QuicStreamLayer) :=
  mkQuicStreamLayer b (buffer_from_server s) (flow s) (quic_client s) (quic_server s)
    (streams_by_id s) (_handle_event s) (client_connected s) (server_connected s)
    (server_timestamp_start s) (_close_event s) (tick s).

Definition set_buffer_from_server (b : list QuicEvent) (s : QuicStreamLayer) :=
  mkQuicStreamLayer (buffer_from_client s) b (flow s) (quic_client s) (quic_server s)
    (streams_by_id s) (_handle_event s) (client_connected s) (server_connected s)
    (server_timestamp_start s) (_close_event s) (tick s).

Definition set_flow (f : option Flow) (s : QuicStreamLayer) :=
  mkQuicStreamLayer (buffer_from_client s) (buffer_from_server s) f (quic_client s)
    (quic_server s) (streams_by_id s) (_handle_event s) (client_connected s)
    (server_connected s) (server_timestamp_start s) (_close_event s) (tick s).

Definition set_quic_client (q : option nat) (s : QuicStreamLayer) :=
  mkQuicStreamLayer (buffer_from_client s) (buffer_from_server s) (flow s) q
    (quic_server s) (streams_by_id s) (_handle_event s) (client_connected s)
    (server_connected s) (server_timestamp_start s) (_close_event s) (tick s).

Definition set_quic_server (q : option nat) (s : QuicStreamLayer) :=
  mkQuicStreamLayer (buffer_from_client s) (buffer_from_server s) (flow s) (quic_client s)
    q (streams_by_id s) (_handle_event s) (client_connected s)
    (server_connected s) (server_timestamp_start s) (_close_event s) (tick s).

Definition set_streams (l : list QuicStream) (s : QuicStreamLayer) :=
  mkQuicStreamLayer (buffer_from_client s) (buffer_from_server s) (flow s) (quic_client s)
    (quic_server s) l (_handle_event s) (client_connected s)
    (server_connected s) (server_timestamp_start s) (_close_event s) (tick s).

Definition set_handler (h : Handler) (s : QuicStreamLayer) :=
  mkQuicStreamLayer (buffer_from_client s) (buffer_from_server s) (flow s) (quic_client s)
    (quic_server s) (streams_by_id s) h (client_connected s)
    (server_connected s) (server_timestamp_start s) (_close_event s) (tick s).

Definition set_tick (n : nat) (s : QuicStreamLayer) :=
  mkQuicStreamLayer (buffer_from_client s) (buffer_from_server s) (flow s) (quic_client s)
    (quic_server s) (streams_by_id s) (_handle_event s) (client_connected s)
    (server_connected s) (server_timestamp_start s) (_close_event s) n.

(** [QuicStreamLayer.__init__], for a context whose connections are in
    the given state. *)
Definition init (ignore : bool) (client_up server_up : bool) (started : option float)
  : QuicStreamLayer :=
  mkQuicStreamLayer [] [] (if ignore then None else Some (mkFlow 0 [] None true))
    None None [] state_start_ client_up server_up started ∅ 0.

(** [self.streams_by_id[stream_id]] and [self.streams_by_flow[flow]]:
    the position of the stream in the list, and the stream. *)
Definition lookup_by_id (sid : Z) (l : list QuicStream) : option (nat * QuicStream) :=
  list_find (fun s => stream_id s = sid) l.

Definition lookup_by_flow (fid : nat) (l : list QuicStream) : option (nat * QuicStream) :=
  list_find (fun s => flow_id <$> Stream.flow s = Some fid) l.

(** The content of the message at position [i], the one the layer has
    appended and still holds. *)
Definition content_at (i : nat) (f : Flow) (otherwise : bytes) : bytes :=
  match messages f !! i with
  | Some m => content m
  | None => otherwise
  end.

Definition append_message (m : Message) (f : Flow) : Flow :=
  set_messages (messages f ++ [m]) f.

Section WithEnvironment.

Variable addon : nat -> Command -> nat -> bytes -> bytes.

(** The reply of the runtime to the [tick]-th yield, when that is an
    [OpenConnection]. *)
Variable open_reply : nat -> option string.

Variable stream_is_unidirectional : Z -> bool.
Variable stream_is_client_initiated : Z -> bool.
Variable NO_ERROR : Z.
Variable H3_NO_ERROR : Z.
Variable QuicErrorCode_name : Z -> option string.
Variable H3ErrorCode_name : Z -> option string.

(** [get_or_create_stream]: the position of the stream, the layer and
    what was yielded. The flow of the n-th stream created is the n-th
    flow object. *)
Definition get_or_create_stream (sid : Z) (self : QuicStreamLayer)
  : nat * QuicStreamLayer * list Action :=
  match lookup_by_id sid (streams_by_id self) with
  | Some (i, _) => (i, self, [])
  | None =>
      (* register the stream and start the flow *)
      let i := length (streams_by_id self) in
      let stream :=
        Stream.init stream_is_unidirectional stream_is_client_initiated
          i sid (bool_decide (flow self = None)) in
      match Stream.flow stream with
      | Some f =>
          let hook := TcpStartHook f in
          let stream := Stream.set_flow (Some (run_hook addon (tick self) hook f)) stream in
          (i, set_tick (S (tick self)) (set_streams (streams_by_id self ++ [stream]) self),
           [Yield hook])
      | None => (i, set_streams (streams_by_id self ++ [stream]) self, [])
      end
  end.

(** [handle_quic_event]. *)
Definition handle_quic_event (event : QuicEvent) (from_client : bool) (self : QuicStreamLayer)
  : option (QuicStreamLayer * list Action) :=
  (* buffer events if the peer is not ready yet *)
  match (if from_client then quic_server self else quic_client self) with
  | None =>
      Some (if from_client
            then set_buffer_from_client (buffer_from_client self ++ [event]) self
            else set_buffer_from_server (buffer_from_server self ++ [event]) self,
            [])
  | Some peer_quic =>
      let peer_connection := if from_client then Server else Client in
      match event with
      | DatagramFrameReceived data =>
          (* forward datagrams (that are not stream-bound) *)
          match flow self with
          | Some f =>
              let i := length (messages f) in
              let f := append_message (mkMessage from_client data) f in
              let hook := UdpMessageHook f in
              let f := run_hook addon (tick self) hook f in
              Some (set_tick (S (tick self)) (set_flow (Some f) self),
                    [Yield hook;
                     Call peer_quic (send_datagram_frame (content_at i f data));
                     Yield (QuicTransmit peer_connection peer_quic)])
          | None =>
              Some (self,
                    [Call peer_quic (send_datagram_frame data);
                     Yield (QuicTransmit peer_connection peer_quic)])
          end
      | StreamDataReceived data end_stream sid =>
          (* ignore data received from already ended streams *)
          let '(i, self, out0) := get_or_create_stream sid self in
          stream ← streams_by_id self !! i;
          if has_ended stream from_client then
            Some (self,
                  out0 ++ [Yield (Log (LogClosedStreamData (String.length data) sid) "debug")])
          else
            (* forward the message allowing addons to change it *)
            let '(stream, tick1, data, out1) :=
              match Stream.flow stream with
              | Some f =>
                  let j := length (messages f) in
                  let f := append_message (mkMessage from_client data) f in
                  let hook := TcpMessageHook f in
                  let f := run_hook addon (tick self) hook f in
                  (Stream.set_flow (Some f) stream, S (tick self), content_at j f data,
                   [Yield hook])
              | None => (stream, tick self, data, [])
              end in
            let out2 := [Call peer_quic (send_stream_data (stream_id stream) data end_stream)] in
            (* mark the stream as ended if needed *)
            '(stream, tick2, out3) ←
              (if end_stream then mark_ended addon stream from_client None tick1
               else Some (stream, tick1, []));
            (* transmit data to the peer *)
            Some (set_tick tick2 (set_streams (<[i := stream]> (streams_by_id self)) self),
                  out0 ++ out1 ++ out2 ++ (Yield <$> out3)
                  ++ [Yield (QuicTransmit peer_connection peer_quic)])
      | StreamReset code sid =>
          (* ignore resets from already ended streams *)
          let '(i, self, out0) := get_or_create_stream sid self in
          stream ← streams_by_id self !! i;
          if has_ended stream from_client then
            Some (self, out0 ++ [Yield (Log (LogClosedStreamReset sid) "debug")])
          else
            (* forward resets to peer streams and report them to addons *)
            let out1 := [Call peer_quic (reset_stream (stream_id stream) code)] in
            (* mark the stream as failed *)
            '(stream, tick2, out2) ←
              mark_ended addon stream from_client
                (Some (error_code_to_str QuicErrorCode_name H3ErrorCode_name code))
                (tick self);
            Some (set_tick tick2 (set_streams (<[i := stream]> (streams_by_id self)) self),
                  out0 ++ out1 ++ (Yield <$> out2)
                  ++ [Yield (QuicTransmit peer_connection peer_quic)])
      | _ =>
          (* ignore other QUIC events *)
          Some (self, [Yield (Log (LogIgnoredEvent event) "debug")])
      end
  end.

(** The loop of [state_done] over [self.streams_by_id.values()]. *)
Fixpoint end_streams (from_client : bool) (l : list QuicStream) (tick : nat)
  : option (list QuicStream * nat * list Command) :=
  match l with
  | [] => Some ([], tick, [])
  | stream :: l =>
      '(stream, tick, out1) ←
        (if has_ended stream from_client then Some (stream, tick, [])
         else mark_ended addon stream from_client (Some "Connection closed.") tick);
      '(l, tick, out2) ← end_streams from_client l tick;
      Some (stream :: l, tick, out1 ++ out2)
  end.

(** [state_done]. *)
Definition state_done (event : Event) (self : QuicStreamLayer)
  : option (QuicStreamLayer * list Action) :=
  match event with
  | ConnectionClosed connection =>
      let from_client := bool_decide (connection = Client) in
      (* report the termination as error to all non-ended streams *)
      '(l, tick1, out1) ← end_streams from_client (streams_by_id self) (tick self);
      let self := set_tick tick1 (set_streams l self) in
      (* end the main flow *)
      match flow self with
      | Some f =>
          if negb (client_connected self) && negb (server_connected self) then
            let '(f, tick2, out2) :=
              match error f with
              | None => (run_hook addon tick1 (UdpEndHook f) f, S tick1, [UdpEndHook f])
              | Some _ => (f, tick1, [])
              end in
            Some (set_tick tick2 (set_flow (Some (set_live false f)) self),
                  Yield <$> (out1 ++ out2))
          else Some (self, Yield <$> out1)
      | None => Some (self, Yield <$> out1)
      end
  | QuicStart _ _ | QuicConnectionEvent _ _
  | TcpMessageInjected _ _ | UdpMessageInjected _ _ => Some (self, [])
  | _ => None
  end.

(** The loop of [state_ready] that flushes a buffer to the other side.
    The engine of that side is registered when the loop runs, so
    [handle_quic_event] does not append to the buffer the loop reads.
    (With a [QuicStart] that carries no engine it would, and the loop
    over a buffer that is not empty would not end: [state_ready] has no
    result then.) *)
Fixpoint flush (buffer : list QuicEvent) (from_client : bool) (self : QuicStreamLayer)
  : option (QuicStreamLayer * list Action) :=
  match buffer with
  | [] => Some (self, [])
  | quic_event :: buffer =>
      '(self, out1) ← handle_quic_event quic_event from_client self;
      '(self, out2) ← flush buffer from_client self;
      Some (self, out1 ++ out2)
  end.

(** [state_ready]. *)
Definition state_ready (event : Event) (self : QuicStreamLayer)
  : option (QuicStreamLayer * list Action) :=
  match event with
  | ConnectionClosed connection =>
      (* define helper variables *)
      let from_client := bool_decide (connection = Client) in
      let peer_conn := if from_client then Server else Client in
      let peer_quic := if from_client then quic_server self else quic_client self in
      let closed_quic := if from_client then quic_client self else quic_server self in
      let close_event :=
        match closed_quic with
        | None => None
        | Some q => _close_event self !! q
        end in
      (* close the peer as well (needs to be before hooks) *)
      let out1 :=
        match peer_quic, close_event with
        | Some pq, Some ce =>
            [Call pq (close (error_code ce) (frame_type ce) (reason_phrase ce));
             Yield (QuicTransmit peer_conn pq)]
        | _, _ => [Yield (CloseConnection peer_conn)]
        end in
      (* report errors to the main flow *)
      let '(self, out2) :=
        match flow self, close_event with
        | Some f, Some ce =>
            if negb (is_success_error_code NO_ERROR H3_NO_ERROR (error_code ce)) then
              let f :=
                set_error
                  (if truthy (reason_phrase ce) then reason_phrase ce
                   else error_code_to_str QuicErrorCode_name H3ErrorCode_name (error_code ce))
                  f in
              let hook := UdpErrorHook f in
              (set_tick (S (tick self))
                 (set_flow (Some (run_hook addon (tick self) hook f)) self),
               [Yield hook])
            else (self, [])
        | _, _ => (self, [])
        end in
      (* we're done handling QUIC events, pass on to generic close handling *)
      let self := set_handler state_done_ self in
      '(self, out3) ← state_done event self;
      Some (self, out1 ++ out2 ++ out3)
  | QuicStart connection quic =>
      (* QUIC connection has been established, store it and get the peer's buffer *)
      let from_client := bool_decide (connection = Client) in
      let buffer_from_peer :=
        if from_client then buffer_from_server self else buffer_from_client self in
      self ←
        (if from_client then
           match quic_client self with
           | None => Some (set_quic_client quic self)
           | Some _ => None
           end
         else
           match quic_server self with
           | None => Some (set_quic_server quic self)
           | Some _ => None
           end);
      (* flush the buffer to the other side *)
      '(self, out) ←
        match quic, buffer_from_peer with
        | None, _ :: _ => None
        | _, _ => flush buffer_from_peer (negb from_client) self
        end;
      Some (if from_client then set_buffer_from_server [] self
            else set_buffer_from_client [] self,
            out)
  | TcpMessageInjected fid message =>
      (* translate injected TCP messages into QUIC stream events *)
      '(_, stream) ← lookup_by_flow fid (streams_by_id self);
      handle_quic_event
        (StreamDataReceived (content message) false (stream_id stream))
        (from_client message) self
  | UdpMessageInjected fid message =>
      (* translate injected UDP messages into QUIC datagram events *)
      match flow self with
      | Some f =>
          if bool_decide (flow_id f = fid) then
            handle_quic_event (DatagramFrameReceived (content message))
              (from_client message) self
          else None
      | None => None
      end
  | QuicConnectionEvent connection event =>
      (* handle or buffer QUIC events *)
      handle_quic_event event (bool_decide (connection = Client)) self
  | _ => None
  end.

(** [state_start]. *)
Definition state_start (event : Event) (self : QuicStreamLayer)
  : option (QuicStreamLayer * list Action) :=
  match event with
  | Start =>
      (* mark the main flow as started *)
      let '(self, out1) :=
        match flow self with
        | Some f =>
            let hook := UdpStartHook f in
            (set_tick (S (tick self))
               (set_flow (Some (run_hook addon (tick self) hook f)) self),
             [Yield hook])
        | None => (self, [])
        end in
      (* open the upstream connection if necessary *)
      match server_timestamp_start self with
      | None =>
          let err := open_reply (tick self) in
          let self := set_tick (S (tick self)) self in
          let out2 := [Yield (OpenConnection Server)] in
          if truthy_opt err then
            let '(self, out3) :=
              match flow self with
              | Some f =>
                  let f := set_error (default "" err) f in
                  let hook := UdpErrorHook f in
                  (set_tick (S (tick self))
                     (set_flow (Some (run_hook addon (tick self) hook f)) self),
                   [Yield hook])
              | None => (self, [])
              end in
            Some (set_handler state_done_ self,
                  out1 ++ out2 ++ out3 ++ [Yield (CloseConnection Client)])
          else Some (set_handler state_ready_ self, out1 ++ out2)
      | Some _ => Some (set_handler state_ready_ self, out1)
      end
  | _ => None
  end.

(** The layer handles an event with the current [_handle_event]. *)
Definition handle_event (event : Event) (self : QuicStreamLayer)
  : option (QuicStreamLayer * list Action) :=
  match _handle_event self with
  | state_start_ => state_start event self
  | state_ready_ => state_ready event self
  | state_done_ => state_done event self
  end.

(** The layer handles events one after the other. *)
Fixpoint handle_events (events : list Event) (self : QuicStreamLayer)
  : option (QuicStreamLayer * list Action) :=
  match events with
  | [] => Some (self, [])
  | event :: events =>
      '(self, out1) ← handle_event event self;
      '(self, out2) ← handle_events events self;
      Some (self, out1 ++ out2)
  end.

End WithEnvironment.

End Relay.

(** ** QuicLayer, ServerQuicLayer and ClientQuicLayer *)

Module Layer.

Import Relay(CloseEvent, mkCloseEvent, error_code, frame_type, reason_phrase).

(** *** aioquic *)

(** [QuicConnectionState]. *)
Inductive QuicConnectionState : Type :=
| FIRSTFLIGHT | CONNECTED | CLOSING | DRAINING | TERMINATED.

#[global] Instance QuicConnectionState_eq_dec : EqDecision QuicConnectionState.
Proof. solve_decision. Defined.

(** The fields of a [QuicHeader] the layer reads. *)
Record QuicHeader : Type := mkQuicHeader {
  version : option Z;
  packet_type : option Z;
  destination_cid : bytes;
  source_cid : bytes
}.

(** The arguments [build_configuration] gives to [QuicConfiguration]. *)
Record QuicConfiguration : Type := mkQuicConfiguration {
  alpn_protocols : list string;
  connection_id_length : Z;
  is_client : bool;
  secrets_log_file : bool;
  server_name : option string;
  cafile : option string;
  capath : option string;
  cfg_certificate : option string;
  cfg_certificate_chain : list string;
  cfg_cipher_suites : option (list Z);
  private_key : option string;
  cfg_verify_mode : option Z
}.

(** A Python generator of integers: the items it has not produced yet. *)
Record Generator : Type := mkGenerator { remaining : list Z }.

(** [x in g] on a generator: it is consumed up to and including the
    first item equal to [x], or to its end. *)
Fixpoint generator_contains (x : Z) (g : list Z) : bool * Generator :=
  match g with
  | [] => (false, mkGenerator [])
  | y :: g => if Z.eqb x y then (true, mkGenerator g) else generator_contains x g
  end.

(** The state of an engine: the two attributes the layer reads and
    writes itself, and the rest. *)
Record EngineState (Core : Type) : Type := mkEngineState {
  _close_event : option CloseEvent;
  _state : QuicConnectionState;
  core : Core
}.

Arguments mkEngineState {Core}.
Arguments _close_event {Core}.
Arguments _state {Core}.
Arguments core {Core}.

(** A [QuicConnection] object: its identity and its state. *)
Record QuicConnection (Core : Type) : Type := mkQuicConnection {
  quic_id : nat;
  engine : EngineState Core
}.

Arguments mkQuicConnection {Core}.
Arguments quic_id {Core}.
Arguments engine {Core}.

(** What the layer uses of aioquic: the methods of a connection, as
    functions on its state; the packet functions (both may raise, which
    is [None]); the members of [QuicProtocolVersion] in the order of
    their definition, and the constants the layer names. *)
Record Aioquic (Core : Type) : Type := mkAioquic {
  new_connection : QuicConfiguration -> option bytes -> EngineState Core;
  receive_datagram : bytes -> Address -> float -> EngineState Core -> EngineState Core;
  next_event : EngineState Core -> option QuicEvent * EngineState Core;
  handle_timer : float -> EngineState Core -> EngineState Core;
  close : string -> EngineState Core -> EngineState Core;
  connect : Address -> float -> EngineState Core -> EngineState Core;
  datagrams_to_send : float -> EngineState Core -> list (bytes * Address) * EngineState Core;
  get_timer : EngineState Core -> float;
  host_cid : EngineState Core -> bytes;
  peer_certificates : EngineState Core -> list string;
  cipher_suite_name : EngineState Core -> string;
  pull_quic_header : bytes -> Z -> option QuicHeader;
  encode_quic_version_negotiation : bytes -> bytes -> Generator -> option bytes;
  QuicProtocolVersion : list Z;
  NEGOTIATION : Z;
  PACKET_TYPE_INITIAL : Z;
  NO_ERROR : Z;
  H3_NO_ERROR : Z;
  APPLICATION_ERROR : Z;
  QuicErrorCode_name : Z -> option string;
  H3ErrorCode_name : Z -> option string
}.

Arguments new_connection {Core}.
Arguments receive_datagram {Core}.
Arguments next_event {Core}.
Arguments handle_timer {Core}.
Arguments close {Core}.
Arguments connect {Core}.
Arguments datagrams_to_send {Core}.
Arguments get_timer {Core}.
Arguments host_cid {Core}.
Arguments peer_certificates {Core}.
Arguments cipher_suite_name {Core}.
Arguments pull_quic_header {Core}.
Arguments encode_quic_version_negotiation {Core}.
Arguments QuicProtocolVersion {Core}.
Arguments NEGOTIATION {Core}.
Arguments PACKET_TYPE_INITIAL {Core}.
Arguments NO_ERROR {Core}.
Arguments H3_NO_ERROR {Core}.
Arguments APPLICATION_ERROR {Core}.
Arguments QuicErrorCode_name {Core}.
Arguments H3ErrorCode_name {Core}.

(** *** The environment *)

(** [mitmproxy.tls.ClientHello]: what the layer copies from it. *)
Record ClientHello : Type := mkClientHello {
  hello_sni : option string;
  hello_alpn_protocols : list bytes
}.

(** What the layer reads from outside when it has consumed [tick]
    answers: the clock of the event loop, the reply of the runtime to
    an [OpenConnection], the settings the addons leave in the data of a
    [QuicTlsStart*Hook], their two answers to a [TlsClienthelloHook],
    the commands a [UDPLayer] yields; and, independent of time, the
    result of [quic_parse_client_hello] (the ClientHello, or the
    message of the [ValueError]), whether a secrets logger is
    configured, and the child layer: the commands its [handle_event]
    yields for an event, and its next state. *)
Record Environment (Child : Type) : Type := mkEnvironment {
  loop_time : nat -> float;
  open_connection_reply : nat -> option string;
  quic_tls_start : nat -> QuicTlsData -> option QuicTlsSettings;
  tls_clienthello : nat -> ClientHelloData -> bool * bool;
  udp_layer_handle_event : nat -> Event -> list Command;
  quic_parse_client_hello : bytes -> string + ClientHello;
  log_master_secret : bool;
  child_handle_event : Child -> Event -> list Command * Child
}.

Arguments loop_time {Child}.
Arguments open_connection_reply {Child}.
Arguments quic_tls_start {Child}.
Arguments tls_clienthello {Child}.
Arguments udp_layer_handle_event {Child}.
Arguments quic_parse_client_hello {Child}.
Arguments log_master_secret {Child}.
Arguments child_handle_event {Child}.

(** *** The layer object *)

(** A [connection.Connection]: the attributes the layer uses. *)
Record Connection : Type := mkConnection {
  peername : Address;
  sockname : Address;
  connected : bool;
  conn_error : option string;
  conn_tls : bool;
  timestamp_tls_setup : option float;
  certificate_list : list string;
  alpn : option bytes;
  alpn_offers : list bytes;
  cipher : option string;
  tls_version : option string;
  conn_sni : option string
}.

(** [Connection.tls_established]: the TLS setup has a timestamp. *)
Definition tls_established (c : Connection) : bool :=
  match timestamp_tls_setup c with Some _ => true | None => false end.

Definition set_peername (x : _) (s : Connection) : Connection :=
  mkConnection x (sockname s) (connected s) (conn_error s) (conn_tls s)
    (timestamp_tls_setup s) (certificate_list s) (alpn s) (alpn_offers s) (cipher s)
    (tls_version s) (conn_sni s).

Definition set_conn_error (x : _) (s : Connection) : Connection :=
  mkConnection (peername s) (sockname s) (connected s) x (conn_tls s)
    (timestamp_tls_setup s) (certificate_list s) (alpn s) (alpn_offers s) (cipher s)
    (tls_version s) (conn_sni s).

Definition set_conn_tls (x : _) (s : Connection) : Connection :=
  mkConnection (peername s) (sockname s) (connected s) (conn_error s) x
    (timestamp_tls_setup s) (certificate_list s) (alpn s) (alpn_offers s) (cipher s)
    (tls_version s) (conn_sni s).

Definition set_timestamp_tls_setup (x : _) (s : Connection) : Connection :=
  mkConnection (peername s) (sockname s) (connected s) (conn_error s) (conn_tls s) x
    (certificate_list s) (alpn s) (alpn_offers s) (cipher s) (tls_version s) (conn_sni
    s).

Definition set_certificate_list (x : _) (s : Connection) : Connection :=
  mkConnection (peername s) (sockname s) (connected s) (conn_error s) (conn_tls s)
    (timestamp_tls_setup s) x (alpn s) (alpn_offers s) (cipher s) (tls_version s)
    (conn_sni s).

Definition set_alpn (x : _) (s : Connection) : Connection :=
  mkConnection (peername s) (sockname s) (connected s) (conn_error s) (conn_tls s)
    (timestamp_tls_setup s) (certificate_list s) x (alpn_offers s) (cipher s)
    (tls_version s) (conn_sni s).

Definition set_alpn_offers (x : _) (s : Connection) : Connection :=
  mkConnection (peername s) (sockname s) (connected s) (conn_error s) (conn_tls s)
    (timestamp_tls_setup s) (certificate_list s) (alpn s) x (cipher s) (tls_version s)
    (conn_sni s).

Definition set_cipher (x : _) (s : Connection) : Connection :=
  mkConnection (peername s) (sockname s) (connected s) (conn_error s) (conn_tls s)
    (timestamp_tls_setup s) (certificate_list s) (alpn s) (alpn_offers s) x (tls_version
    s) (conn_sni s).

Definition set_tls_version (x : _) (s : Connection) : Connection :=
  mkConnection (peername s) (sockname s) (connected s) (conn_error s) (conn_tls s)
    (timestamp_tls_setup s) (certificate_list s) (alpn s) (alpn_offers s) (cipher s) x
    (conn_sni s).

Definition set_conn_sni (x : _) (s : Connection) : Connection :=
  mkConnection (peername s) (sockname s) (connected s) (conn_error s) (conn_tls s)
    (timestamp_tls_setup s) (certificate_list s) (alpn s) (alpn_offers s) (cipher s)
    (tls_version s) x.

(** The class of the object: method calls on [self] go to its methods. *)
Inductive LayerClass : Type := QuicLayer_ | ServerQuicLayer_ | ClientQuicLayer_.

(** The layer that has taken over [handle_event] after [replace_layer]:
    a [QuicRoamingLayer] for a target layer, relaying or closed, or a
    [UDPLayer]. *)
Inductive Replacement : Type :=
| RoamingRelay (target_layer : nat)
| RoamingClosed (target_layer : nat)
| IgnoredUDP.

(** The calls on an engine, with the result of [next_event]. *)
Inductive EngineCall : Type :=
| New (configuration : QuicConfiguration) (original_destination_connection_id : option bytes)
| ReceiveDatagram (data : bytes) (addr : Address) (now : float)
| NextEvent (result : option QuicEvent)
| SetStateTerminated
| HandleTimer (now : float)
| Close (reason_phrase : string)
| Connect (addr : Address) (now : float)
| DatagramsToSend (now : float).

(** What a layer does, in order: the commands it yields to the runtime,
    the events it hands to its child layer, its calls on the engine and
    on the packet encoder, what it writes to the transport of another
    handler, and what it does to other layers. *)
Inductive Action : Type :=
| Yield (c : Command)
| ToChild (e : Event)
| Engine (quic : nat) (call : EngineCall)
| EncodeVersionNegotiation (source_cid destination_cid : bytes)
    (supported_versions : Generator)
| Write (handler : nat) (data : bytes)
| Replace (layer : nat) (replacement : Replacement)
| AddRoute (target_layer : nat) (peername : Address) (handler : option nat)
| RemoveRoute (target_layer : nat) (peername : Address)
| ServerEvent (target_layer : nat) (peername : Address) (event : Event).

Section WithEngine.

Context {Core : Type} {Child : Type}.
Variable aioquic : Aioquic Core.
Variable env : Environment Child.

(** The object, with what it reads of its context ([client], [server],
    [handler], the option), the class variable [connections], and the
    counters of the objects it has created ([next_id]) and of the
    answers it has read from the environment ([tick]). [layer_id] is
    the identity of the object, [_server_layer] that of the
    [ServerQuicLayer] above a [ClientQuicLayer]. *)
Record QuicLayer : Type := mkQuicLayer {
  class : LayerClass;
  layer_id : nat;
  child_layer : Child;
  conn : ConnRef;
  quic : option (QuicConnection Core);
  tls : option QuicTlsSettings;
  _wakeup_commands : gmap nat float;
  _routes : gmap Address (option nat);
  _open_command : option Command;
  _can_roam : bool;
  _server_layer : option nat;
  replaced_by : option Replacement;
  client : Connection;
  server : Connection;
  handler : option nat;
  quic_connection_id_length : Z;
  connections : gmap (Address * bytes) nat;
  next_id : nat;
  tick : nat
}.

Definition set_child_layer (x : _) (s : QuicLayer) : QuicLayer :=
  mkQuicLayer (class s) (layer_id s) x (conn s) (quic s) (tls s) (_wakeup_commands s)
    (_routes s) (_open_command s) (_can_roam s) (_server_layer s) (replaced_by s)
    (client s) (server s) (handler s) (quic_connection_id_length s) (connections s)
    (next_id s) (tick s).

Definition set_quic (x : _) (s : QuicLayer) : QuicLayer :=
  mkQuicLayer (class s) (layer_id s) (child_layer s) (conn s) x (tls s)
    (_wakeup_commands s) (_routes s) (_open_command s) (_can_roam s) (_server_layer s)
    (replaced_by s) (client s) (server s) (handler s) (quic_connection_id_length s)
    (connections s) (next_id s) (tick s).

Definition set_tls (x : _) (s : QuicLayer) : QuicLayer :=
  mkQuicLayer (class s) (layer_id s) (child_layer s) (conn s) (quic s) x
    (_wakeup_commands s) (_routes s) (_open_command s) (_can_roam s) (_server_layer s)
    (replaced_by s) (client s) (server s) (handler s) (quic_connection_id_length s)
    (connections s) (next_id s) (tick s).

Definition set_wakeup_commands (x : _) (s : QuicLayer) : QuicLayer :=
  mkQuicLayer (class s) (layer_id s) (child_layer s) (conn s) (quic s) (tls s) x
    (_routes s) (_open_command s) (_can_roam s) (_server_layer s) (replaced_by s)
    (client s) (server s) (handler s) (quic_connection_id_length s) (connections s)
    (next_id s) (tick s).

Definition set_routes (x : _) (s : QuicLayer) : QuicLayer :=
  mkQuicLayer (class s) (layer_id s) (child_layer s) (conn s) (quic s) (tls s)
    (_wakeup_commands s) x (_open_command s) (_can_roam s) (_server_layer s)
    (replaced_by s) (client s) (server s) (handler s) (quic_connection_id_length s)
    (connections s) (next_id s) (tick s).

Definition set_open_command (x : _) (s : QuicLayer) : QuicLayer :=
  mkQuicLayer (class s) (layer_id s) (child_layer s) (conn s) (quic s) (tls s)
    (_wakeup_commands s) (_routes s) x (_can_roam s) (_server_layer s) (replaced_by s)
    (client s) (server s) (handler s) (quic_connection_id_length s) (connections s)
    (next_id s) (tick s).

Definition set_replaced_by (x : _) (s : QuicLayer) : QuicLayer :=
  mkQuicLayer (class s) (layer_id s) (child_layer s) (conn s) (quic s) (tls s)
    (_wakeup_commands s) (_routes s) (_open_command s) (_can_roam s) (_server_layer s) x
    (client s) (server s) (handler s) (quic_connection_id_length s) (connections s)
    (next_id s) (tick s).

Definition set_client (x : _) (s : QuicLayer) : QuicLayer :=
  mkQuicLayer (class s) (layer_id s) (child_layer s) (conn s) (quic s) (tls s)
    (_wakeup_commands s) (_routes s) (_open_command s) (_can_roam s) (_server_layer s)
    (replaced_by s) x (server s) (handler s) (quic_connection_id_length s) (connections
    s) (next_id s) (tick s).

Definition set_server (x : _) (s : QuicLayer) : QuicLayer :=
  mkQuicLayer (class s) (layer_id s) (child_layer s) (conn s) (quic s) (tls s)
    (_wakeup_commands s) (_routes s) (_open_command s) (_can_roam s) (_server_layer s)
    (replaced_by s) (client s) x (handler s) (quic_connection_id_length s) (connections
    s) (next_id s) (tick s).

Definition set_connections (x : _) (s : QuicLayer) : QuicLayer :=
  mkQuicLayer (class s) (layer_id s) (child_layer s) (conn s) (quic s) (tls s)
    (_wakeup_commands s) (_routes s) (_open_command s) (_can_roam s) (_server_layer s)
    (replaced_by s) (client s) (server s) (handler s) (quic_connection_id_length s) x
    (next_id s) (tick s).

Definition set_next_id (x : _) (s : QuicLayer) : QuicLayer :=
  mkQuicLayer (class s) (layer_id s) (child_layer s) (conn s) (quic s) (tls s)
    (_wakeup_commands s) (_routes s) (_open_command s) (_can_roam s) (_server_layer s)
    (replaced_by s) (client s) (server s) (handler s) (quic_connection_id_length s)
    (connections s) x (tick s).

Definition set_tick (x : _) (s : QuicLayer) : QuicLayer :=
  mkQuicLayer (class s) (layer_id s) (child_layer s) (conn s) (quic s) (tls s)
    (_wakeup_commands s) (_routes s) (_open_command s) (_can_roam s) (_server_layer s)
    (replaced_by s) (client s) (server s) (handler s) (quic_connection_id_length s)
    (connections s) (next_id s) x.

(** [self.conn]. *)
Definition the_conn (s : QuicLayer) : Connection :=
  match conn s with Client => client s | Server => server s end.

Definition set_the_conn (f : Connection -> Connection) (s : QuicLayer) : QuicLayer :=
  match conn s with
  | Client => set_client (f (client s)) s
  | Server => set_server (f (server s)) s
  end.

Definition set_engine (e : EngineState Core) (s : QuicLayer) : QuicLayer :=
  set_quic (option_map (fun q => mkQuicConnection (quic_id q) e) (quic s)) s.

(** *** Generators

    The result of running a generator to its end: its value, the layer
    and the actions; or the actions up to an exception; or nothing,
    when the bound on nested calls is reached. *)
Inductive Result (A : Type) : Type :=
| Ok (a : A) (self : QuicLayer) (out : list Action)
| Raise (out : list Action)
| OutOfFuel.

Arguments Ok {A}.
Arguments Raise {A}.
Arguments OutOfFuel {A}.

Definition M (A : Type) : Type := QuicLayer -> Result A.

Definition ret {A} (a : A) : M A := fun s => Ok a s [].

Definition bind {A B} (m : M A) (k : A -> M B) : M B :=
  fun s =>
    match m s with
    | Ok a s out1 =>
        match k a s with
        | Ok b s out2 => Ok b s (out1 ++ out2)
        | Raise out2 => Raise (out1 ++ out2)
        | OutOfFuel => OutOfFuel
        end
    | Raise out => Raise out
    | OutOfFuel => OutOfFuel
    end.

#[global] Instance M_ret : MRet M := @ret.
#[global] Instance M_bind : MBind M := fun A B k m => bind m k.

Definition get : M QuicLayer := fun s => Ok s s [].
Definition modify (f : QuicLayer -> QuicLayer) : M unit := fun s => Ok tt (f s) [].
Definition emit (a : Action) : M unit := fun s => Ok tt s [a].
Definition yield (c : Command) : M unit := emit (Yield c).
Definition raise {A} : M A := fun _ => Raise [].
Definition out_of_fuel {A} : M A := fun _ => OutOfFuel.

(** [assert b]. *)
Definition check (b : bool) : M unit := if b then ret tt else raise.

(** [for x in l: f(x)]. *)
Fixpoint for_each {X} (l : list X) (f : X -> M unit) : M unit :=
  match l with
  | [] => ret tt
  | x :: l => f x ;; for_each l f
  end.

(** The next answer of the environment. *)
Definition answer {A} (f : nat -> A) : M A :=
  s ← get; modify (set_tick (S (tick s))) ;; ret (f (tick s)).

(** [self._loop.time()]. *)
Definition time : M float := answer (loop_time env).

(** [self.quic], which has to be there: an assertion, or the attribute
    error of a call on [None]. *)
Definition the_quic : M (QuicConnection Core) :=
  s ← get; match quic s with Some q => ret q | None => raise end.

Definition the_tls : M QuicTlsSettings :=
  s ← get; match tls s with Some t => ret t | None => raise end.

(** A call on the engine that changes its state. *)
Definition engine_call (call : EngineCall) (f : EngineState Core -> EngineState Core)
  : M unit :=
  q ← the_quic;
  emit (Engine (quic_id q) call) ;;
  modify (set_engine (f (engine q))).

(** *** QuicLayer *)

(** [QuicLayer.__init__] sets [conn.tls]; the layer of class [class] for
    the given context. *)
Definition init (class : LayerClass) (layer_id : nat) (child : Child) (conn : ConnRef)
    (client server : Connection) (handler : option nat) (cid_length : Z)
    (connections : gmap (Address * bytes) nat) : QuicLayer :=
  set_the_conn (set_conn_tls true)
    (mkQuicLayer class layer_id child conn None None ∅ ∅ None false None None
       client server handler cid_length connections 0 0).

(** [ServerQuicLayer.__init__] and [ClientQuicLayer.__init__]: the
    latter resets what an outer TLS layer has set on the client
    connection, and records whether the layer above it is a
    [ServerQuicLayer]. *)
Definition ServerQuicLayer_init (layer_id : nat) (child : Child)
    (client server : Connection) (handler : option nat) (cid_length : Z)
    (connections : gmap (Address * bytes) nat) : QuicLayer :=
  init ServerQuicLayer_ layer_id child Server client server handler cid_length connections.

Definition ClientQuicLayer_init (layer_id : nat) (child : Child)
    (client server : Connection) (handler : option nat) (cid_length : Z)
    (connections : gmap (Address * bytes) nat)
    (can_roam : bool) (server_layer : option nat) : QuicLayer :=
  let client :=
    if conn_tls client then
      mkConnection (peername client) (sockname client) (connected client)
        (conn_error client) (conn_tls client) None [] None [] None None None
    else client in
  set_the_conn (set_conn_tls true)
    (mkQuicLayer ClientQuicLayer_ layer_id child Client None None ∅ ∅ None
       can_roam server_layer None client server handler cid_length connections 0 0).

(** [add_route] and [remove_route], with the peer address and the
    handler of the roamed context. *)
Definition add_route (peer : Address) (h : option nat) (s : QuicLayer) : option QuicLayer :=
  match _routes s !! peer with
  | Some _ => None
  | None => Some (set_routes (<[peer := h]> (_routes s)) s)
  end.

Definition remove_route (peer : Address) (h : option nat) (s : QuicLayer)
  : option QuicLayer :=
  match _routes s !! peer with
  | Some h' => if decide (h' = h) then Some (set_routes (delete peer (_routes s)) s) else None
  | None => None
  end.

(** [build_configuration]. *)
Definition build_configuration (t : QuicTlsSettings) (s : QuicLayer) : QuicConfiguration :=
  mkQuicConfiguration
    (alpn_offers (the_conn s))
    (quic_connection_id_length s)
    (bool_decide (conn s = Server))
    (log_master_secret env)
    (conn_sni (the_conn s))
    (ca_file t) (ca_path t) (certificate t) (certificate_chain t) (cipher_suites t)
    (certificate_private_key t) (verify_mode t).

(** [handle_connection_id_issued]: nothing in the base class; the
    registration in [ClientQuicLayer]. *)
Definition handle_connection_id_issued (connection_id : bytes) : M unit :=
  s ← get;
  match class s with
  | ClientQuicLayer_ =>
      let key := (sockname (client s), connection_id) in
      check (bool_decide (connections s !! key = None)) ;;
      modify (set_connections (<[key := layer_id s]> (connections s)))
  | _ => ret tt
  end.

(** [handle_connection_id_retired]: a missing key is a [KeyError]. *)
Definition handle_connection_id_retired (connection_id : bytes) : M unit :=
  s ← get;
  match class s with
  | ClientQuicLayer_ =>
      let key := (sockname (client s), connection_id) in
      match connections s !! key with
      | Some owner =>
          check (bool_decide (owner = layer_id s)) ;;
          modify (set_connections (delete key (connections s)))
      | None => raise
      end
  | _ => ret tt
  end.

(** [handle_connection_terminated]. *)
Definition handle_connection_terminated (event : CloseEvent) : M unit :=
  (* ensure QUIC has been properly shut down *)
  q ← the_quic;
  t ← the_tls;
  check (bool_decide (_state (engine q) = TERMINATED)) ;;
  (* report as TLS failure if the termination happened before the handshake *)
  let reason :=
    if truthy (reason_phrase event) then reason_phrase event
    else error_code_to_str (QuicErrorCode_name aioquic) (H3ErrorCode_name aioquic)
           (error_code event) in
  s ← get;
  (if negb (tls_established (the_conn s)) then
     modify (set_the_conn (set_conn_error (Some reason))) ;;
     let tls_data := mkQuicTlsData (conn s) (Some t) in
     yield (match conn s with
            | Client => TlsFailedClientHook tls_data
            | Server => TlsFailedServerHook tls_data
            end)
   else ret tt) ;;
  (* clear only quic, tls will indicate we already did `start_tls` *)
  modify (set_quic None) ;;
  (* record an entry in the log *)
  yield (Log (LogDestroyed (conn s) reason)
           (if is_success_error_code (NO_ERROR aioquic) (H3_NO_ERROR aioquic)
                 (error_code event)
            then "debug" else "info")).

(** [QuicLayer.handle_handshake_completed]. *)
Definition QuicLayer_handle_handshake_completed
    (alpn_protocol : string) (early_data_accepted session_resumed : bool) : M unit :=
  (* must only be called if QUIC is initialized and not established *)
  q ← the_quic;
  t ← the_tls;
  s ← get;
  check (negb (tls_established (the_conn s))) ;;
  (* concatenate all peer certificates *)
  let all_certs := peer_certificates aioquic (engine q) in
  (* set the connection's TLS properties *)
  now ← time;
  modify (set_the_conn (fun c =>
    set_tls_version (Some "QUIC")
      (set_cipher (Some (cipher_suite_name aioquic (engine q)))
         (set_alpn (Some alpn_protocol)
            (set_certificate_list all_certs
               (set_timestamp_tls_setup (Some now) c)))))) ;;
  (* report the success to addons *)
  let tls_data := mkQuicTlsData (conn s) (Some t) in
  yield (match conn s with
         | Client => TlsEstablishedClientHook tls_data
         | Server => TlsEstablishedServerHook tls_data
         end) ;;
  (* record an entry in the log *)
  yield (Log (LogEstablished (conn s) early_data_accepted session_resumed) "debug").

(** [any(existing <= timer for existing in self._wakeup_commands.values())]. *)
Definition any_earlier (timer : float) (m : gmap nat float) : bool :=
  existsb (fun kv => PrimFloat.leb (snd kv) timer) (map_to_list m).

(** [transmit]. *)
Definition transmit : M unit :=
  (* send all queued datagrams *)
  q ← the_quic;
  now ← time;
  emit (Engine (quic_id q) (DatagramsToSend now)) ;;
  let '(datagrams, e) := datagrams_to_send aioquic now (engine q) in
  modify (set_engine e) ;;
  for_each datagrams (fun '(data, addr) =>
    s ← get;
    if decide (addr = peername (the_conn s)) then yield (SendData (conn s) data)
    else
      match default None (_routes s !! addr) with
      | None => yield (Log (LogNoRoute (conn s) addr) "info")
      | Some h => emit (Write h data)
      end) ;;
  (* request a new wakeup if all pending requests trigger at a later time *)
  q ← the_quic;
  let timer := get_timer aioquic (engine q) in
  s ← get;
  if any_earlier timer (_wakeup_commands s) then ret tt
  else
    now ← time;
    let command := RequestWakeup (next_id s) (PrimFloat.sub timer now) in
    modify (fun s =>
      set_next_id (S (next_id s))
        (set_wakeup_commands (<[next_id s := timer]> (_wakeup_commands s)) s)) ;;
    yield command.

(** [start_tls]. *)
Definition start_tls (original_destination_connection_id : option bytes) : M bool :=
  (* must only be called if QUIC is uninitialized *)
  s ← get;
  check (bool_decide (quic s = None)) ;;
  check (bool_decide (tls s = None)) ;;
  (* query addons to provide the necessary TLS settings *)
  let tls_data := mkQuicTlsData (conn s) None in
  yield (match conn s with
         | Client => QuicTlsStartClientHook tls_data
         | Server => QuicTlsStartServerHook tls_data
         end) ;;
  settings ← answer (fun n => quic_tls_start env n tls_data);
  match settings with
  | None => yield (Log (LogNoSettings (conn s)) "error") ;; ret false
  | Some t =>
      (* create the aioquic connection *)
      modify (set_tls (Some t)) ;;
      s ← get;
      let configuration := build_configuration t s in
      emit (Engine (next_id s) (New configuration original_destination_connection_id)) ;;
      modify (fun s =>
        set_next_id (S (next_id s))
          (set_quic
             (Some (mkQuicConnection (next_id s)
                      (new_connection aioquic configuration
                         original_destination_connection_id)))
             s)) ;;
      (* issue the host connection ID right away: the call only creates
         a generator, which is dropped without being run *)
      (* record an entry in the log *)
      yield (Log (LogCreated (conn s)) "debug") ;;
      ret true
  end.

(** The methods that call each other through [self], for a bounded
    depth of calls. [direct] tells whether a value sent to the generator
    reaches a [yield] of this call: it does through [yield from], it
    does not through the [for] loop of [ServerQuicLayer.event_to_child]
    over the generator of the base class. *)
Record Methods : Type := mkMethods {
  process_events_ : bool -> M unit;
  event_to_child_ : bool -> Event -> M unit
}.

(** [handle_handshake_completed], of the class of the object. *)
Definition handle_handshake_completed (self : Methods) (direct : bool)
    (alpn_protocol : string) (early_data_accepted session_resumed : bool) : M unit :=
  QuicLayer_handle_handshake_completed alpn_protocol early_data_accepted session_resumed ;;
  s ← get;
  match class s with
  | ServerQuicLayer_ =>
      (* notify the child layer that the connection is now open *)
      match _open_command s with
      | Some command =>
          modify (set_open_command None) ;;
          event_to_child_ self direct (OpenConnectionCompleted command None)
      | None => ret tt
      end
  | _ => ret tt
  end.

(** [process_events]: one turn of its loop, then the loop again. *)
Definition process_events_body (self : Methods) (direct : bool) : M unit :=
  (* handle all buffered aioquic connection events *)
  q ← the_quic;
  let '(event, e) := next_event aioquic (engine q) in
  emit (Engine (quic_id q) (NextEvent event)) ;;
  modify (set_engine e) ;;
  match event with
  | None =>
      (* transmit buffered data and re-arm timer *)
      transmit
  | Some (ConnectionIdIssued connection_id) =>
      handle_connection_id_issued connection_id ;;
      process_events_ self direct
  | Some (ConnectionIdRetired connection_id) =>
      handle_connection_id_retired connection_id ;;
      process_events_ self direct
  | Some (ConnectionTerminated code ft reason) =>
      handle_connection_terminated (mkCloseEvent code ft reason) ;;
      s ← get;
      (if connected (the_conn s) then yield (CloseConnection (conn s)) else ret tt)
      (* we don't handle any further events, nor do/can we transmit data, so exit *)
  | Some (HandshakeCompleted alpn_protocol early_data_accepted session_resumed) =>
      handle_handshake_completed self direct
        alpn_protocol early_data_accepted session_resumed ;;
      s ← get;
      event_to_child_ self direct (QuicStart (conn s) (quic_id <$> quic s)) ;;
      process_events_ self direct
  | Some (PingAcknowledged _) => process_events_ self direct
  | Some (ProtocolNegotiated _) => process_events_ self direct
  | Some ((DatagramFrameReceived _ | StreamDataReceived _ _ _ | StreamReset _ _) as event) =>
      s ← get;
      check (tls_established (the_conn s)) ;;
      event_to_child_ self direct (QuicConnectionEvent (conn s) event) ;;
      process_events_ self direct
  | Some (OtherQuicEvent _) => raise
  end.

(** What [ServerQuicLayer.event_to_child] does with an [OpenConnection]
    for its connection that the child yields while there are no TLS
    settings. Inside the generator of the base class ([direct] is
    false) the [OpenConnection] this code yields is seen by the loop of
    the call around it, whose assertion on [_open_command] then fails. *)
Definition open_server_connection (self : Methods) (direct : bool) (command : Command)
  : M unit :=
  (* store the command *)
  s ← get;
  check (bool_decide (_open_command s = None)) ;;
  modify (set_open_command (Some command)) ;;
  if negb direct then raise
  else
    (* try to connect with upstream *)
    yield (OpenConnection (conn s)) ;;
    err ← answer (open_connection_reply env);
    if truthy_opt err then
      (* notify the child layer immediately about the error *)
      modify (set_open_command None) ;;
      event_to_child_ self direct (OpenConnectionCompleted command err)
    else
      ok ← start_tls None;
      if negb ok then
        (* TLS failed, close the connection (notify the child layer once its closed) *)
        yield (CloseConnection (conn s))
      else
        (* connect to server (notify the child layer after handshake) *)
        s ← get;
        now ← time;
        engine_call (Connect (peername (the_conn s)) now)
          (connect aioquic (peername (the_conn s)) now) ;;
        process_events_ self direct.

(** A command of the child that [QuicLayer.event_to_child] yields on:
    the loop of [ServerQuicLayer.event_to_child] looks at it. *)
Definition pass_command (self : Methods) (direct : bool) (command : Command) : M unit :=
  s ← get;
  match class s, command with
  | ServerQuicLayer_, OpenConnection c =>
      if decide (c = conn s) then
        match tls s with
        | None => open_server_connection self direct command
        | Some _ => yield command
        end
      else yield command
  | _, _ => yield command
  end.

(** [event_to_child] of the class of the object. The child is taken to
    produce the commands for an event at once. They are filtered as in
    [QuicLayer.event_to_child]; in a
    [ServerQuicLayer] that code runs inside the [for] loop of the
    override, which only acts on an [OpenConnection] that the child
    yields: what [transmit] and [process_events] yield there is no
    [OpenConnection] for [self.conn] seen without TLS settings, except
    the one of [open_server_connection]. *)
Definition event_to_child_body (self : Methods) (direct : bool) (event : Event) : M unit :=
  s ← get;
  emit (ToChild event) ;;
  let '(commands, child) := child_handle_event env (child_layer s) event in
  modify (set_child_layer child) ;;
  (* filter commands coming from the child layer *)
  for_each commands (fun command =>
    s ← get;
    match command with
    | QuicTransmit c q =>
        if decide (c = conn s) then
          (* transmit buffered data and re-arm timer *)
          if decide (Some q = quic_id <$> quic s) then transmit else ret tt
        else pass_command self direct command
    | CloseConnection c =>
        if decide (c = conn s) then
          (* without QUIC simply close the connection, otherwise close QUIC first *)
          match quic s with
          | None => yield command
          | Some _ =>
              engine_call (Close "CloseConnection command received.")
                (close aioquic "CloseConnection command received.") ;;
              process_events_ self
                (match class s with ServerQuicLayer_ => false | _ => direct end)
          end
        else pass_command self direct command
    | _ => pass_command self direct command
    end).

(** The methods, for calls nested at most [fuel] deep. *)
Fixpoint methods (fuel : nat) : Methods :=
  match fuel with
  | O => mkMethods (fun _ => out_of_fuel) (fun _ _ => out_of_fuel)
  | S fuel =>
      mkMethods (process_events_body (methods fuel)) (event_to_child_body (methods fuel))
  end.

Definition process_events (fuel : nat) : M unit := process_events_ (methods fuel) true.

Definition event_to_child (fuel : nat) (event : Event) : M unit :=
  event_to_child_ (methods fuel) true event.

(** [max(timer, now)]. *)
Definition py_max (a b : float) : float := if PrimFloat.ltb a b then b else a.

(** [QuicLayer._handle_event]. *)
Definition QuicLayer_handle_event (fuel : nat) (event : Event) : M unit :=
  s ← get;
  match event, quic s with
  | DataReceived c data, Some q =>
      if decide (c = conn s) then
        (* forward incoming data to aioquic *)
        now ← time;
        engine_call (ReceiveDatagram data (peername (the_conn s)) now)
          (receive_datagram aioquic data (peername (the_conn s)) now) ;;
        process_events fuel
      else event_to_child fuel event
  | ConnectionClosed c, Some q =>
      if decide (c = conn s) then
        (* there is no point in calling quic.close, as it cannot send packets anymore
           just set the new connection state and ensure there exists a close event *)
        emit (Engine (quic_id q) SetStateTerminated) ;;
        let close_event :=
          match _close_event (engine q) with
          | Some close_event => close_event
          | None =>
              mkCloseEvent (APPLICATION_ERROR aioquic) None
                "UDP connection closed or timed out."
          end in
        modify (set_engine
                  (mkEngineState (Some close_event) TERMINATED (core (engine q)))) ;;
        (* simulate the termination event and forward close to the child *)
        handle_connection_terminated close_event ;;
        event_to_child fuel event
      else event_to_child fuel event
  | Wakeup command, _ =>
      match _wakeup_commands s !! command with
      | Some timer =>
          (* remove the command and handle the timer if we have QUIC *)
          modify (set_wakeup_commands (delete command (_wakeup_commands s))) ;;
          match quic s with
          | Some _ =>
              now ← time;
              engine_call (HandleTimer (py_max timer now))
                (handle_timer aioquic (py_max timer now)) ;;
              process_events fuel
          | None => ret tt
          end
      | None => event_to_child fuel event
      end
  | _, _ =>
      (* forward other events to the child layer *)
      event_to_child fuel event
  end.

(** *** ServerQuicLayer *)

(** [ServerQuicLayer._handle_event]. *)
Definition ServerQuicLayer_handle_event (fuel : nat) (event : Event) : M unit :=
  s ← get;
  match event, _open_command s with
  | ConnectionClosed c, Some command =>
      if decide (c = conn s) then
        let response :=
          OpenConnectionCompleted command
            (Some (match tls s with
                   | None => "TLS initialization failed"
                   | Some _ => "Connection closed before connect"
                   end)) in
        modify (set_open_command None) ;;
        event_to_child fuel response
      else QuicLayer_handle_event fuel event
  | _, _ => QuicLayer_handle_event fuel event
  end.

(** *** QuicRoamingLayer and UDPLayer, as replacements *)

(** [handle_event] of the layer that has replaced this one. What a
    [QuicRoamingLayer] does to its target layer and to the handler of
    that layer are actions of their own. *)
Definition replacement_handle_event (r : Replacement) (event : Event) : M unit :=
  s ← get;
  match r with
  | RoamingRelay target =>
      match event with
      | TcpMessageInjected _ _ | UdpMessageInjected _ _ =>
          (* ensure the flow matches the target and forward the event *)
          emit (ServerEvent target (peername (client s)) event)
      | ConnectionClosed c =>
          (* remove the registration and stop relaying *)
          check (bool_decide (c = Client)) ;;
          emit (RemoveRoute target (peername (client s))) ;;
          modify (set_replaced_by (Some (RoamingClosed target)))
      | DataReceived c data =>
          (* update target's peername and forward the event *)
          check (bool_decide (c = Client)) ;;
          emit (ServerEvent target (peername (client s)) (DataReceived Client data))
      | _ => raise
      end
  | RoamingClosed _ => raise
  | IgnoredUDP =>
      commands ← answer (fun n => udp_layer_handle_event env n event);
      for_each commands yield
  end.

(** [QuicRoamingLayer.state_start], on the [Start] event that
    [replace_layer] sends. *)
Definition replacement_start (r : Replacement) : M unit :=
  s ← get;
  match r with
  | RoamingRelay target =>
      (* register with the target and start relaying *)
      emit (AddRoute target (peername (client s)) (handler s))
  | RoamingClosed _ => raise
  | IgnoredUDP =>
      commands ← answer (fun n => udp_layer_handle_event env n Start);
      for_each commands yield
  end.

(** *** ClientQuicLayer *)

(** [replace_layer]. *)
Definition replace_layer (replacement_layer : Replacement) (first_data_event : Event)
  : M (option LogMsg) :=
  (* we need to replace the server layer as well, if there is one *)
  s ← get;
  (match _server_layer s with
   | None => modify (set_replaced_by (Some replacement_layer))
   | Some server_layer => emit (Replace server_layer replacement_layer)
   end) ;;
  replacement_start replacement_layer ;;
  replacement_handle_event replacement_layer first_data_event ;;
  ret None.

(** [start_client_tls]. *)
Definition start_client_tls (event : Event) (data : bytes) (header : QuicHeader)
  : M (option LogMsg) :=
  (* ensure it's (likely) a client handshake packet *)
  if (String.length data <? 1200)%nat
     || negb (bool_decide (packet_type header = Some (PACKET_TYPE_INITIAL aioquic)))
  then ret (Some (LogText "Invalid handshake received."))
  else
    (* extract the client hello *)
    match quic_parse_client_hello env data with
    | inl e => ret (Some (LogCannotParseClientHello e data))
    | inr client_hello =>
        (* copy the client hello information *)
        modify (fun s =>
          set_client
            (set_alpn_offers (hello_alpn_protocols client_hello)
               (set_conn_sni (hello_sni client_hello) (client s)))
            s) ;;
        (* check with addons what we shall do *)
        let hook_data :=
          mkClientHelloData (hello_sni client_hello) (hello_alpn_protocols client_hello)
            false false in
        yield (TlsClienthelloHook hook_data) ;;
        '(ignore_connection, establish_server_tls_first) ←
          answer (fun n => tls_clienthello env n hook_data);
        (* replace the QUIC layer with an UDP layer if requested *)
        if ignore_connection : bool then replace_layer IgnoredUDP event
        else
          (* start the server QUIC connection if demanded and available *)
          s ← get;
          (if establish_server_tls_first && negb (tls_established (server s)) then
             err ←
               match _server_layer s with
               | Some _ =>
                   yield (OpenConnection Server) ;; answer (open_connection_reply env)
               | None => ret (Some "No server QUIC available.")
               end;
             if truthy_opt err then yield (Log (LogServerFailed (default "" err)) "info")
             else ret tt
           else ret tt) ;;
          (* start the client QUIC connection *)
          ok ← start_tls (Some (destination_cid header));
          if negb ok then ret (Some (LogText "TLS initialization failed."))
          else
            (* success *)
            ret None
    end.

(** The generator [supported_versions] when it is created. *)
Definition supported_versions : list Z :=
  filter (fun v => v <> NEGOTIATION aioquic) (QuicProtocolVersion aioquic).

(** [datagram_received]. *)
Definition datagram_received (connection : ConnRef) (data : bytes) : M (option LogMsg) :=
  let event := DataReceived connection data in
  s ← get;
  (* fail if the received data is not a QUIC packet *)
  match pull_quic_header aioquic data (quic_connection_id_length s) with
  | None => ret (Some (LogText "Invalid QUIC datagram received."))
  | Some header =>
      (* negotiate version, support all versions known to aioquic *)
      let '(unsupported, generator) :=
        match version header with
        | None => (false, mkGenerator supported_versions)
        | Some v =>
            let '(found, generator) := generator_contains v supported_versions in
            (negb found, generator)
        end in
      if unsupported : bool then
        emit (EncodeVersionNegotiation (destination_cid header) (source_cid header)
                generator) ;;
        match encode_quic_version_negotiation aioquic
                (destination_cid header) (source_cid header) generator with
        | None => raise
        | Some packet => yield (SendData connection packet) ;; ret None
        end
      else
        (* check if this is a new connection *)
        match connections s !! (sockname (client s), destination_cid header) with
        | None =>
            (* try to start QUIC *)
            start_client_tls event data header
        | Some target_layer =>
            (* ensure that the layer can roam (usually not supported when nested) *)
            if negb (_can_roam s) then ret (Some (LogText "Connection cannot roam."))
            else
              (* replace the layer with a roaming layer *)
              replace_layer (RoamingRelay target_layer) event
        end
  end.

(** [ClientQuicLayer._handle_event]. *)
Definition ClientQuicLayer_handle_event (fuel : nat) (event : Event) : M unit :=
  s ← get;
  (* try to initialize TLS *)
  match event, tls s with
  | DataReceived c data, None =>
      if decide (c = conn s) then
        err ← datagram_received c data;
        match err with
        | Some err => yield (Log err "info")
        | None => QuicLayer_handle_event fuel event
        end
      else QuicLayer_handle_event fuel event
  | _, _ => QuicLayer_handle_event fuel event
  end.

(** [_handle_event] of the class of the object. *)
Definition _handle_event (fuel : nat) (event : Event) : M unit :=
  s ← get;
  match class s with
  | QuicLayer_ => QuicLayer_handle_event fuel event
  | ServerQuicLayer_ => ServerQuicLayer_handle_event fuel event
  | ClientQuicLayer_ => ClientQuicLayer_handle_event fuel event
  end.

(** [handle_event]: of the object, or of the layer that replaced it. *)
Definition handle_event (fuel : nat) (event : Event) : M unit :=
  s ← get;
  match replaced_by s with
  | Some r => replacement_handle_event r event
  | None => _handle_event fuel event
  end.

End WithEngine.

Arguments Ok {Core Child A}.
Arguments Raise {Core Child A}.
Arguments OutOfFuel {Core Child A}.
Arguments QuicLayer : clear implicits.
Arguments Result : clear implicits.
Arguments M : clear implicits.
Arguments Methods : clear implicits.

End Layer.

(** * Properties *)

(** ** Recognisers used in the statements *)

Definition is_tcp_error_hook (c : Command) : bool :=
  match c with TcpErrorHook _ => true | _ => false end.

Definition is_tcp_end_hook (c : Command) : bool :=
  match c with TcpEndHook _ => true | _ => false end.

Definition is_udp_error_hook (c : Command) : bool :=
  match c with UdpErrorHook _ => true | _ => false end.

(** aioquic's [stream_is_unidirectional] and [stream_is_client_initiated]
    (bit 1 and bit 0 of the stream id), for the examples. *)
Definition aioquic_stream_is_unidirectional (sid : Z) : bool := Z.testbit sid 1.
Definition aioquic_stream_is_client_initiated (sid : Z) : bool := negb (Z.testbit sid 0).

(** An addon that leaves every message as it is, and one that replaces
    every payload. *)
Definition addon_id : nat -> Command -> nat -> bytes -> bytes := fun _ _ _ c => c.
Definition addon_const (b : bytes) : nat -> Command -> nat -> bytes -> bytes :=
  fun _ _ _ _ => b.

(** ** QuicStream *)

Module StreamProps.

Import Stream.

Definition both_ended (s : QuicStream) : bool := _ended_client s && _ended_server s.

Section Props.

Variable addon : nat -> Command -> nat -> bytes -> bytes.
Variable stream_is_unidirectional : Z -> bool.
Variable stream_is_client_initiated : Z -> bool.

Local Abbreviation init := (Stream.init stream_is_unidirectional stream_is_client_initiated).
Local Abbreviation mark_ended := (Stream.mark_ended addon).

Lemma init_flags fid sid ignore :
  _ended_client (init fid sid ignore)
  = stream_is_unidirectional sid && negb (stream_is_client_initiated sid)
  /\ _ended_server (init fid sid ignore)
     = stream_is_unidirectional sid && stream_is_client_initiated sid.
Proof. split; reflexivity. Qed.

Lemma init_bidirectional fid sid ignore :
  stream_is_unidirectional sid = false ->
  _ended_client (init fid sid ignore) = false /\ _ended_server (init fid sid ignore) = false.
Proof. intros H. cbn. rewrite H. split; reflexivity. Qed.

Lemma init_unidirectional fid sid ignore :
  stream_is_unidirectional sid = true ->
  has_ended (init fid sid ignore) (stream_is_client_initiated sid) = false
  /\ has_ended (init fid sid ignore) (negb (stream_is_client_initiated sid)) = true.
Proof.
  intros H. unfold has_ended. cbn. rewrite H.
  destruct (stream_is_client_initiated sid); split; reflexivity.
Qed.

Lemma init_flow fid sid ignore :
  flow (init fid sid ignore) = if ignore then None else Some (mkFlow fid [] None true).
Proof. reflexivity. Qed.

Lemma mark_ended_None s c err t :
  mark_ended s c err t = None <-> has_ended s c = true.
Proof.
  unfold Stream.mark_ended. destruct (has_ended s c) eqn:E.
  - split; reflexivity.
  - split; [|discriminate]. intros H. exfalso.
    destruct (flow (set_ended c s)) as [f|]; [|discriminate].
    repeat case_match; discriminate.
Qed.

Lemma has_ended_set_ended c c' s :
  has_ended (set_ended c s) c' = if Bool.eqb c c' then true else has_ended s c'.
Proof. destruct c, c'; reflexivity. Qed.

Lemma run_hook_error t h f : error (run_hook addon t h f) = error f.
Proof. reflexivity. Qed.

Lemma run_hook_live t h f : live (run_hook addon t h f) = live f.
Proof. reflexivity. Qed.

Lemma run_hook_flow_id t h f : flow_id (run_hook addon t h f) = flow_id f.
Proof. reflexivity. Qed.

Lemma run_hook_length t h f : length (messages (run_hook addon t h f)) = length (messages f).
Proof. cbn. apply length_imap. Qed.

(** The ended flags after a call that succeeds: the side is now ended,
    the other side is as before. *)
Lemma mark_ended_flags s c err t s' t' out :
  mark_ended s c err t = Some (s', t', out) ->
  has_ended s c = false
  /\ has_ended s' c = true
  /\ has_ended s' (negb c) = has_ended s (negb c)
  /\ stream_id s' = stream_id s.
Proof.
  unfold Stream.mark_ended. destruct (has_ended s c) eqn:E; [discriminate|].
  intros H. split; [reflexivity|].
  assert (Hs : exists f', s' = set_flow f' (set_ended c s)).
  { destruct (flow (set_ended c s)) as [f|] eqn:Ef.
    - repeat case_match; simplify_eq; eexists; reflexivity.
    - simplify_eq. exists None. destruct s, c; cbn in *; subst; reflexivity. }
  destruct Hs as [f' ->].
  destruct s as [fl sid ec es], c; cbn in *; auto.
Qed.

(** An ignored stream yields nothing. *)
Lemma mark_ended_ignored s c err t s' t' out :
  flow s = None ->
  mark_ended s c err t = Some (s', t', out) ->
  flow s' = None /\ out = [] /\ t' = t.
Proof.
  unfold Stream.mark_ended. intros Hf. destruct (has_ended s c); [discriminate|].
  replace (flow (set_ended c s)) with (@None Flow) by (destruct s, c; cbn in *; congruence).
  intros H. simplify_eq. destruct s, c; cbn in *; auto.
Qed.

(** What a call does to the flow of a stream that has one. *)
Lemma mark_ended_flow s c err t s' t' out f :
  flow s = Some f ->
  mark_ended s c err t = Some (s', t', out) ->
  exists f',
    flow s' = Some f'
    /\ flow_id f' = flow_id f
    /\ error f' = match error f with Some e => Some e | None => err end
    /\ (existsb is_tcp_error_hook out = true <-> is_Some err /\ error f = None)
    /\ (existsb is_tcp_end_hook out = true <-> both_ended s' = true /\ error f' = None)
    /\ live f' = (if both_ended s' then false else live f)
    /\ (length (filter (fun c => is_tcp_error_hook c = true) out) <= 1)%nat
    /\ (length (filter (fun c => is_tcp_end_hook c = true) out) <= 1)%nat.
Proof.
  destruct s as [fl sid ec es], f as [fid ms er lv]. cbn. intros ->.
  unfold Stream.mark_ended.
  destruct c, ec, es, err as [e|], er as [e0|]; cbn; intros H; simplify_eq;
    eexists; (split; [reflexivity|]); cbn.
  all: repeat split; try reflexivity; try lia; try (intros; discriminate).
  all: try (intros [? ?]; discriminate); try (intros [[? ?] ?]; discriminate).
  all: eauto.
Qed.

(** Once both sides have ended, no call succeeds. *)
Lemma mark_ended_after_both s c err t :
  both_ended s = true -> mark_ended s c err t = None.
Proof.
  intros H. apply mark_ended_None. unfold both_ended in H.
  apply andb_prop in H as [H1 H2]. destruct c; assumption.
Qed.

(** The streams a sequence of calls goes through, when all succeed. *)
Fixpoint mark_ended_run (calls : list (bool * option string)) (s : QuicStream) (t : nat)
  : option (list QuicStream) :=
  match calls with
  | [] => Some []
  | (c, err) :: calls =>
      '(s', t', _) ← mark_ended s c err t;
      l ← mark_ended_run calls s' t';
      Some (s' :: l)
  end.

(** Along a sequence of calls on a live stream, the flow is live exactly
    as long as one side has not ended, and the stream on which both
    sides have ended is the last one: no later call succeeds. *)
Lemma mark_ended_run_live calls : forall s t l f,
  flow s = Some f -> live f = true -> both_ended s = false ->
  mark_ended_run calls s t = Some l ->
  forall i s', l !! i = Some s' ->
    exists f', flow s' = Some f'
      /\ live f' = negb (both_ended s')
      /\ (both_ended s' = true -> S i = length l).
Proof.
  induction calls as [|[c err] calls IH]; intros s t l f Hf Hl Hb Hrun i s' Hi.
  - cbn in Hrun. injection Hrun as <-. rewrite lookup_nil in Hi. discriminate.
  - cbn in Hrun.
    destruct (mark_ended s c err t) as [[[s1 t1] out]|] eqn:E1; [|discriminate].
    cbn in Hrun.
    destruct (mark_ended_run calls s1 t1) as [l1|] eqn:E2; [|discriminate].
    cbn in Hrun. simplify_eq.
    destruct (mark_ended_flow _ _ _ _ _ _ _ _ Hf E1)
      as (f1 & Hf1 & _ & _ & _ & _ & Hl1 & _).
    rewrite Hl in Hl1.
    destruct (both_ended s1) eqn:Eb1.
    + destruct calls as [|[c2 err2] calls].
      * cbn in E2. simplify_eq. destruct i as [|i]; [|cbn in Hi; discriminate].
        cbn in Hi. simplify_eq. exists f1. rewrite Eb1. auto.
      * cbn in E2. rewrite (mark_ended_after_both _ _ _ _ Eb1) in E2. discriminate.
    + destruct i as [|i].
      * cbn in Hi. simplify_eq. exists f1. rewrite Eb1. repeat split; auto. discriminate.
      * cbn in Hi. destruct (IH _ _ _ _ Hf1 Hl1 Eb1 E2 i s' Hi) as (f' & ? & ? & Hlast).
        exists f'. repeat split; auto. intros Hb'. cbn. rewrite (Hlast Hb'). reflexivity.
Qed.

(** C4, as amended. For every QuicStream: at construction exactly the
    non-sender side of a unidirectional stream starts ended, and no side
    of a bidirectional one; [mark_ended] fails its assertion exactly when
    the side has already ended, and otherwise sets that side's flag and
    leaves the other, so the flags never go back; on a stream created
    with [ignore] (no flow) it yields nothing; on a stream that has a
    flow it sets the flow's error and yields [TcpErrorHook] exactly when
    an error is supplied and none was recorded, keeps a recorded error,
    yields [TcpEndHook] exactly when both sides have now ended and no
    error is recorded, and clears the live flag exactly when both sides
    have now ended; after that no call succeeds, so along any sequence
    of calls the flow is made non-live once, by the call that ends the
    second side. *)
Theorem quic_stream_lifecycle :
  (forall fid sid ignore,
      (stream_is_unidirectional sid = false ->
       _ended_client (init fid sid ignore) = false
       /\ _ended_server (init fid sid ignore) = false)
      /\ (stream_is_unidirectional sid = true ->
          has_ended (init fid sid ignore) (stream_is_client_initiated sid) = false
          /\ has_ended (init fid sid ignore) (negb (stream_is_client_initiated sid)) = true)
      /\ flow (init fid sid ignore) = (if ignore then None else Some (mkFlow fid [] None true)))
  /\ (forall s c err t, mark_ended s c err t = None <-> has_ended s c = true)
  /\ (forall s c err t s' t' out,
        mark_ended s c err t = Some (s', t', out) ->
        has_ended s' c = true
        /\ has_ended s' (negb c) = has_ended s (negb c)
        /\ match flow s with
           | None => flow s' = None /\ out = []
           | Some f =>
               exists f',
                 flow s' = Some f'
                 /\ error f' = match error f with Some e => Some e | None => err end
                 /\ (existsb is_tcp_error_hook out = true <-> is_Some err /\ error f = None)
                 /\ (existsb is_tcp_end_hook out = true
                     <-> both_ended s' = true /\ error f' = None)
                 /\ live f' = (if both_ended s' then false else live f)
           end)
  /\ (forall s c err t, both_ended s = true -> mark_ended s c err t = None)
  /\ (forall calls fid sid t l i s',
        mark_ended_run calls (init fid sid false) t = Some l ->
        l !! i = Some s' ->
        exists f', flow s' = Some f'
          /\ live f' = negb (both_ended s')
          /\ (both_ended s' = true -> S i = length l)).
Proof.
  split; [|split; [|split; [|split]]].
  - intros fid sid ignore. split; [apply init_bidirectional|].
    split; [apply init_unidirectional|reflexivity].
  - apply mark_ended_None.
  - intros s c err t s' t' out H.
    destruct (mark_ended_flags _ _ _ _ _ _ _ H) as (_ & H1 & H2 & _).
    split; [exact H1|]. split; [exact H2|].
    destruct (flow s) as [f|] eqn:Ef.
    + destruct (mark_ended_flow _ _ _ _ _ _ _ _ Ef H)
        as (f' & ? & ? & ? & ? & ? & ? & _).
      exists f'. auto.
    + destruct (mark_ended_ignored _ _ _ _ _ _ _ Ef H) as (? & ? & _). auto.
  - apply mark_ended_after_both.
  - intros calls fid sid t l i s' Hrun Hi.
    eapply mark_ended_run_live; eauto; try reflexivity.
    unfold both_ended. cbn.
    destruct (stream_is_unidirectional sid), (stream_is_client_initiated sid); reflexivity.
Qed.

End Props.

End StreamProps.

(** A bidirectional stream ended first by the client, then by the server
    with an error: the second call records the error, yields
    [TcpErrorHook] and no [TcpEndHook], and clears the live flag. *)
Lemma quic_stream_lifecycle_witness :
  let s1 := Stream.mkQuicStream (Some (mkFlow 7 [] None true)) 0 true false in
  let f2 := mkFlow 7 [] (Some "H3_REQUEST_CANCELLED") false in
  let s2 := Stream.mkQuicStream (Some f2) 0 true true in
  let out := [TcpErrorHook (mkFlow 7 [] (Some "H3_REQUEST_CANCELLED") true)] in
  Stream.mark_ended addon_id s1 false (Some "H3_REQUEST_CANCELLED") 0 = Some (s2, 1%nat, out)
  /\ Stream.has_ended s2 false = true
  /\ Stream.has_ended s2 true = Stream.has_ended s1 true
  /\ exists f',
       Stream.flow s2 = Some f'
       /\ error f' = Some "H3_REQUEST_CANCELLED"
       /\ (existsb is_tcp_error_hook out = true
           <-> is_Some (Some "H3_REQUEST_CANCELLED") /\ @None string = None)
       /\ (existsb is_tcp_end_hook out = true
           <-> StreamProps.both_ended s2 = true /\ error f' = None)
       /\ live f' = false.
Proof.
  intros s1 f2 s2 out. split; [reflexivity|].
  exact (proj1 (proj2 (proj2 (StreamProps.quic_stream_lifecycle addon_id
           aioquic_stream_is_unidirectional aioquic_stream_is_client_initiated)))
         s1 false (Some "H3_REQUEST_CANCELLED") 0%nat s2 1%nat out eq_refl).
Defined.

(** C4 as stated fails on a stream created with [ignore]: when its
    second side ends, with no error recorded, no [TcpEndHook] is yielded
    (and there is no flow whose live flag could be cleared). *)
Lemma ignored_stream_yields_no_end_hook :
  let s0 :=
    Stream.init aioquic_stream_is_unidirectional aioquic_stream_is_client_initiated 7 0 true in
  let s1 := Stream.set_ended true s0 in
  exists s2,
    Stream.mark_ended addon_id s1 false None 0 = Some (s2, 0%nat, [])
    /\ StreamProps.both_ended s2 = true
    /\ Stream.flow s2 = None.
Proof. vm_compute. eexists. repeat split; reflexivity. Qed.

(** ** QuicStreamLayer *)

Module RelayProps.

Import Stream Relay.

(** The side an event comes from, its peer, and the fields of the layer
    that belong to a side. *)
Definition side (from_client : bool) : ConnRef := if from_client then Client else Server.
Definition peer (from_client : bool) : ConnRef := if from_client then Server else Client.

Definition peer_quic (from_client : bool) (self : QuicStreamLayer) : option nat :=
  if from_client then quic_server self else quic_client self.

Definition set_peer_quic (from_client : bool) (q : option nat) (self : QuicStreamLayer) :=
  if from_client then set_quic_server q self else set_quic_client q self.

Definition buffer_from (from_client : bool) (self : QuicStreamLayer) : list QuicEvent :=
  if from_client then buffer_from_client self else buffer_from_server self.

Definition set_buffer_from (from_client : bool) (b : list QuicEvent) (self : QuicStreamLayer) :=
  if from_client then set_buffer_from_client b self else set_buffer_from_server b self.

(** The calls on engines among the actions, and the commands yielded. *)
Definition calls (out : list Action) : list (nat * EngineCall) :=
  omap (fun a => match a with Call q m => Some (q, m) | Yield _ => None end) out.

Definition yields (out : list Action) : list Command :=
  omap (fun a => match a with Yield c => Some c | Call _ _ => None end) out.

Section Props.

Variable addon : nat -> Command -> nat -> bytes -> bytes.
Variable open_reply : nat -> option string.
Variable stream_is_unidirectional : Z -> bool.
Variable stream_is_client_initiated : Z -> bool.
Variable NO_ERROR : Z.
Variable H3_NO_ERROR : Z.
Variable QuicErrorCode_name : Z -> option string.
Variable H3ErrorCode_name : Z -> option string.

Local Abbreviation get_or_create_stream :=
  (Relay.get_or_create_stream addon stream_is_unidirectional stream_is_client_initiated).
Local Abbreviation handle_quic_event :=
  (Relay.handle_quic_event addon stream_is_unidirectional stream_is_client_initiated
     QuicErrorCode_name H3ErrorCode_name).
Local Abbreviation flush :=
  (Relay.flush addon stream_is_unidirectional stream_is_client_initiated
     QuicErrorCode_name H3ErrorCode_name).
Local Abbreviation state_done := (Relay.state_done addon).
Local Abbreviation state_ready :=
  (Relay.state_ready addon stream_is_unidirectional stream_is_client_initiated
     NO_ERROR H3_NO_ERROR QuicErrorCode_name H3ErrorCode_name).
Local Abbreviation handle_event :=
  (Relay.handle_event addon open_reply stream_is_unidirectional stream_is_client_initiated
     NO_ERROR H3_NO_ERROR QuicErrorCode_name H3ErrorCode_name).
Local Abbreviation handle_events :=
  (Relay.handle_events addon open_reply stream_is_unidirectional stream_is_client_initiated
     NO_ERROR H3_NO_ERROR QuicErrorCode_name H3ErrorCode_name).

(** *** Buffering until the peer is ready *)

Lemma handle_quic_event_buffers event from_client self :
  peer_quic from_client self = None ->
  handle_quic_event event from_client self
  = Some (set_buffer_from from_client (buffer_from from_client self ++ [event]) self, []).
Proof.
  unfold Relay.handle_quic_event, peer_quic, set_buffer_from, buffer_from.
  intros ->. destruct from_client; reflexivity.
Qed.

Lemma side_is_client from_client : bool_decide (side from_client = Client) = from_client.
Proof. destruct from_client; reflexivity. Qed.

Lemma peer_is_client from_client : bool_decide (peer from_client = Client) = negb from_client.
Proof. destruct from_client; reflexivity. Qed.

(** Events that arrive before the peer is ready only grow the buffer. *)
Lemma handle_events_buffer evs : forall from_client self rest,
  _handle_event self = state_ready_ ->
  peer_quic from_client self = None ->
  handle_events (map (QuicConnectionEvent (side from_client)) evs ++ rest) self
  = handle_events rest
      (set_buffer_from from_client (buffer_from from_client self ++ evs) self).
Proof.
  induction evs as [|ev evs IH]; intros from_client self rest Hh Hp.
  - cbn. rewrite app_nil_r. destruct self, from_client; reflexivity.
  - cbn [map app Relay.handle_events].
    unfold Relay.handle_event at 1. rewrite Hh. cbn [Relay.state_ready].
    rewrite side_is_client, (handle_quic_event_buffers _ _ _ Hp). cbn.
    rewrite IH.
    + replace (buffer_from from_client
                 (set_buffer_from from_client (buffer_from from_client self ++ [ev]) self)
               ++ evs)
        with (buffer_from from_client self ++ ev :: evs)
        by (rewrite (cons_middle ev), app_assoc; destruct self, from_client; reflexivity).
      replace (set_buffer_from from_client (buffer_from from_client self ++ ev :: evs)
                 (set_buffer_from from_client (buffer_from from_client self ++ [ev]) self))
        with (set_buffer_from from_client (buffer_from from_client self ++ ev :: evs) self)
        by (destruct self, from_client; reflexivity).
      destruct (handle_events rest _) as [[s o]|]; reflexivity.
    + destruct self, from_client; cbn in *; assumption.
    + destruct self, from_client; cbn in *; assumption.
Qed.

(** [QuicStart] of the peer registers the engine, replays the buffer in
    order and clears it. *)
Lemma state_ready_QuicStart from_client q self :
  peer_quic from_client self = None ->
  state_ready (QuicStart (peer from_client) (Some q)) self
  = '(self', out) ← flush (buffer_from from_client self) from_client
                       (set_peer_quic from_client (Some q) self);
    Some (set_buffer_from from_client [] self', out).
Proof.
  unfold peer_quic. intros Hp. cbn [Relay.state_ready]. rewrite peer_is_client.
  destruct from_client; cbn in *; rewrite Hp; cbn; reflexivity.
Qed.

(** *** What an event leaves untouched *)

(** [modifies self self']: the layer differs at most in its flows, its
    streams and the hook counter. *)
Definition modifies (self self' : QuicStreamLayer) : Prop :=
  exists f l t, self' = set_tick t (set_streams l (set_flow f self)).

Lemma modifies_refl self : modifies self self.
Proof. exists (flow self), (streams_by_id self), (tick self). destruct self; reflexivity. Qed.

Lemma modifies_trans s1 s2 s3 : modifies s1 s2 -> modifies s2 s3 -> modifies s1 s3.
Proof.
  intros (f & l & t & ->) (f' & l' & t' & ->). exists f', l', t'.
  destruct s1; reflexivity.
Qed.

Lemma modifies_set_tick t self : modifies self (set_tick t self).
Proof. exists (flow self), (streams_by_id self), t. destruct self; reflexivity. Qed.

Lemma modifies_set_streams l self : modifies self (set_streams l self).
Proof. exists (flow self), l, (tick self). destruct self; reflexivity. Qed.

Lemma modifies_set_flow f self : modifies self (set_flow f self).
Proof. exists f, (streams_by_id self), (tick self). destruct self; reflexivity. Qed.

Lemma modifies_fields self self' :
  modifies self self' ->
  _handle_event self' = _handle_event self
  /\ quic_client self' = quic_client self
  /\ quic_server self' = quic_server self
  /\ buffer_from_client self' = buffer_from_client self
  /\ buffer_from_server self' = buffer_from_server self
  /\ _close_event self' = _close_event self
  /\ client_connected self' = client_connected self
  /\ server_connected self' = server_connected self.
Proof. intros (f & l & t & ->). destruct self; cbn; auto 10. Qed.

Lemma get_or_create_stream_modifies sid self i self' out :
  get_or_create_stream sid self = (i, self', out) ->
  modifies self self' /\ flow self' = flow self.
Proof.
  unfold Relay.get_or_create_stream. intros H.
  destruct (lookup_by_id sid (streams_by_id self)) as [[j s]|].
  - simplify_eq. split; [apply modifies_refl|reflexivity].
  - destruct (flow self) as [f|] eqn:Ef; cbn in H; simplify_eq.
    + split; [|destruct self; cbn in *; assumption].
      eapply modifies_trans; [apply modifies_set_streams|apply modifies_set_tick].
    + split; [apply modifies_set_streams|destruct self; cbn in *; assumption].
Qed.

Lemma handle_quic_event_modifies event from_client self self' out :
  is_Some (peer_quic from_client self) ->
  handle_quic_event event from_client self = Some (self', out) ->
  modifies self self'.
Proof.
  unfold Relay.handle_quic_event, peer_quic. intros [pq Hp].
  rewrite Hp. clear Hp.
  destruct event as [| | |data| | | |data end_stream sid|code sid|];
    intros H; simplify_eq; try apply modifies_refl.
  - destruct (flow self) as [f|]; simplify_eq; [|apply modifies_refl].
    eapply modifies_trans; [apply modifies_set_flow|apply modifies_set_tick].
  - destruct (get_or_create_stream sid self) as [[i self1] out0] eqn:Eg.
    apply get_or_create_stream_modifies in Eg as [Hm _].
    eapply modifies_trans; [exact Hm|].
    destruct (streams_by_id self1 !! i) as [stream|]; [|discriminate]. cbn in H.
    destruct (has_ended stream from_client); simplify_eq; [apply modifies_refl|].
    repeat case_match; simplify_option_eq; repeat case_match; simplify_eq;
      (eapply modifies_trans; [apply modifies_set_streams|apply modifies_set_tick]).
  - destruct (get_or_create_stream sid self) as [[i self1] out0] eqn:Eg.
    apply get_or_create_stream_modifies in Eg as [Hm _].
    eapply modifies_trans; [exact Hm|].
    destruct (streams_by_id self1 !! i) as [stream|]; [|discriminate]. cbn in H.
    destruct (has_ended stream from_client); simplify_eq; [apply modifies_refl|].
    repeat case_match; simplify_option_eq; repeat case_match; simplify_eq;
      (eapply modifies_trans; [apply modifies_set_streams|apply modifies_set_tick]).
Qed.

(** Replaying a buffer is handling its events one after the other. *)
Lemma flush_handle_events buffer : forall from_client self,
  _handle_event self = state_ready_ ->
  is_Some (peer_quic from_client self) ->
  flush buffer from_client self
  = handle_events (map (QuicConnectionEvent (side from_client)) buffer) self.
Proof.
  induction buffer as [|ev buffer IH]; intros from_client self Hh Hp; [reflexivity|].
  cbn [map Relay.flush Relay.handle_events].
  unfold Relay.handle_event at 1. rewrite Hh. cbn [Relay.state_ready].
  rewrite side_is_client.
  destruct (handle_quic_event ev from_client self) as [[self1 out1]|] eqn:E; [|reflexivity].
  cbn. rewrite IH; [reflexivity| |].
  - apply handle_quic_event_modifies in E; [|exact Hp].
    apply modifies_fields in E as (-> & _). exact Hh.
  - apply handle_quic_event_modifies in E; [|exact Hp].
    apply modifies_fields in E as (_ & Hc & Hs & _).
    unfold peer_quic in *. destruct from_client; congruence.
Qed.

(** *** Handling an event for a ready peer always gives a result *)

Lemma get_or_create_stream_lookup sid self i self' out :
  get_or_create_stream sid self = (i, self', out) ->
  exists stream, streams_by_id self' !! i = Some stream /\ stream_id stream = sid.
Proof.
  unfold Relay.get_or_create_stream, lookup_by_id. intros H.
  destruct (list_find _ (streams_by_id self)) as [[j s]|] eqn:El.
  - simplify_eq. apply list_find_Some in El as (? & ? & _). eauto.
  - destruct self as [bc bs fl qc qs l h cc sc ts ce t]; cbn in *.
    destruct fl as [f|]; cbn in H; simplify_eq; cbn;
      rewrite lookup_app_r, Nat.sub_diag by lia; cbn; eauto.
Qed.

Lemma mark_ended_Some stream c err t :
  has_ended stream c = false -> is_Some (mark_ended addon stream c err t).
Proof.
  intros H. destruct (mark_ended addon stream c err t) eqn:E; [eauto|].
  apply StreamProps.mark_ended_None in E. congruence.
Qed.

Lemma handle_quic_event_Some event from_client self :
  is_Some (handle_quic_event event from_client self).
Proof.
  unfold Relay.handle_quic_event.
  destruct (if from_client then quic_server self else quic_client self) as [pq|]; [|eauto].
  destruct event as [| | |data| | | |data end_stream sid|code sid|]; eauto.
  - destruct (flow self); eauto.
  - destruct (get_or_create_stream sid self) as [[i self1] out0] eqn:Eg.
    apply get_or_create_stream_lookup in Eg as (stream & -> & _). cbn.
    destruct (has_ended stream from_client) eqn:Ee; [eauto|].
    destruct (Stream.flow stream) as [f|] eqn:Ef, end_stream; cbn; eauto.
    + edestruct (mark_ended_Some (Stream.set_flow (Some (run_hook addon (tick self1)
          (TcpMessageHook (append_message (mkMessage from_client data) f))
          (append_message (mkMessage from_client data) f))) stream) from_client None)
        as [[[s1 t1] o1] ->]; [destruct stream, from_client; exact Ee|]. cbn. eauto.
    + edestruct (mark_ended_Some stream from_client None) as [[[s1 t1] o1] ->];
        [exact Ee|]. cbn. eauto.
  - destruct (get_or_create_stream sid self) as [[i self1] out0] eqn:Eg.
    apply get_or_create_stream_lookup in Eg as (stream & -> & _). cbn.
    destruct (has_ended stream from_client) eqn:Ee; [eauto|].
    edestruct (mark_ended_Some stream from_client
                 (Some (error_code_to_str QuicErrorCode_name H3ErrorCode_name code)))
      as [[[s1 t1] o1] ->]; [exact Ee|]. cbn. eauto.
Qed.

Lemma flush_Some buffer : forall from_client self,
  is_Some (flush buffer from_client self).
Proof.
  induction buffer as [|ev buffer IH]; intros from_client self; cbn; [eauto|].
  destruct (handle_quic_event_Some ev from_client self) as [[self1 out1] ->]. cbn.
  destruct (IH from_client self1) as [[self2 out2] ->]. cbn. eauto.
Qed.

Lemma flush_modifies buffer : forall from_client self self' out,
  is_Some (peer_quic from_client self) ->
  flush buffer from_client self = Some (self', out) ->
  modifies self self'.
Proof.
  induction buffer as [|ev buffer IH]; intros from_client self self' out Hp H; cbn in H.
  - simplify_eq. apply modifies_refl.
  - destruct (handle_quic_event ev from_client self) as [[self1 out1]|] eqn:E1; [|discriminate].
    cbn in H.
    destruct (flush buffer from_client self1) as [[self2 out2]|] eqn:E2; [|discriminate].
    cbn in H. simplify_eq.
    pose proof (handle_quic_event_modifies _ _ _ _ _ Hp E1) as Hm.
    eapply modifies_trans; [exact Hm|]. eapply IH; [|exact E2].
    apply modifies_fields in Hm as (_ & Hc & Hs & _).
    unfold peer_quic in *. destruct from_client; congruence.
Qed.

(** C6. While the engine of the peer is not registered, handling an
    engine event appends it to the buffer of its side and does nothing
    else; so a run of such events only grows the buffer, in arrival
    order. On [QuicStart] of the peer the engine is registered, the
    buffered events are passed to [handle_quic_event] in that order,
    which is to handle them as if they arrived now, and the buffer is
    then empty. The whole run gives a result. *)
Theorem buffered_events_replayed_in_order evs from_client q self :
  _handle_event self = state_ready_ ->
  peer_quic from_client self = None ->
  let buffered := buffer_from from_client self ++ evs in
  let waiting := set_buffer_from from_client buffered self in
  let ready := set_peer_quic from_client (Some q) waiting in
  (forall ev,
      handle_quic_event ev from_client self
      = Some (set_buffer_from from_client (buffer_from from_client self ++ [ev]) self, []))
  /\ handle_events (map (QuicConnectionEvent (side from_client)) evs) self
     = Some (waiting, [])
  /\ state_ready (QuicStart (peer from_client) (Some q)) waiting
     = ('(self', out) ← flush buffered from_client ready;
        Some (set_buffer_from from_client [] self', out))
  /\ flush buffered from_client ready
     = handle_events (map (QuicConnectionEvent (side from_client)) buffered) ready
  /\ exists self' out,
       handle_events
         (map (QuicConnectionEvent (side from_client)) evs ++ [QuicStart (peer from_client) (Some q)])
         self
       = Some (set_buffer_from from_client [] self', out)
       /\ flush buffered from_client ready = Some (self', out)
       /\ buffer_from from_client (set_buffer_from from_client [] self') = []
       /\ peer_quic from_client (set_buffer_from from_client [] self') = Some q.
Proof.
  intros Hh Hp buffered waiting ready.
  assert (Hw : peer_quic from_client waiting = None)
    by (destruct self, from_client; cbn in *; assumption).
  assert (Hb : buffer_from from_client waiting = buffered)
    by (destruct self, from_client; reflexivity).
  assert (Hr : is_Some (peer_quic from_client ready))
    by (destruct self, from_client; cbn; eauto).
  assert (Hhr : _handle_event ready = state_ready_)
    by (destruct self, from_client; cbn in *; assumption).
  split; [intros ev; apply handle_quic_event_buffers; exact Hp|].
  split.
  { pose proof (handle_events_buffer evs from_client self [] Hh Hp) as H.
    rewrite app_nil_r in H. exact H. }
  split.
  { rewrite (state_ready_QuicStart _ _ _ Hw), Hb. reflexivity. }
  split; [apply flush_handle_events; assumption|].
  destruct (flush_Some buffered from_client ready) as [[self' out] Hf].
  exists self', out.
  split.
  { rewrite (handle_events_buffer evs from_client self _ Hh Hp).
    fold buffered. fold waiting. cbn [Relay.handle_events].
    unfold Relay.handle_event.
    replace (_handle_event waiting) with state_ready_
      by (destruct self, from_client; cbn in *; congruence).
    rewrite (state_ready_QuicStart _ _ _ Hw), Hb. fold ready. rewrite Hf. cbn.
    rewrite app_nil_r. reflexivity. }
  split; [exact Hf|].
  split; [destruct self', from_client; reflexivity|].
  apply flush_modifies in Hf; [|exact Hr].
  apply modifies_fields in Hf as (_ & Hc & Hs & _).
  destruct self', from_client; cbn in *; rewrite ?Hc, ?Hs;
    destruct self; reflexivity.
Qed.

(** *** Injected TCP messages *)

Definition ended_flags (s : QuicStream) : bool * bool := (_ended_client s, _ended_server s).

Lemma get_or_create_stream_streams sid self i self' out :
  get_or_create_stream sid self = (i, self', out) ->
  (streams_by_id self' = streams_by_id self
   /\ is_Some (lookup_by_id sid (streams_by_id self)) /\ out = [])
  \/ (exists stream,
        streams_by_id self' = streams_by_id self ++ [stream]
        /\ lookup_by_id sid (streams_by_id self) = None
        /\ i = length (streams_by_id self)
        /\ (Stream.flow stream = None <-> flow self = None)
        /\ out = match Stream.flow stream with
                 | Some f => [Yield (TcpStartHook (mkFlow (flow_id f) [] None true))]
                 | None => []
                 end).
Proof.
  unfold Relay.get_or_create_stream. intros H.
  destruct (lookup_by_id sid (streams_by_id self)) as [[j s]|] eqn:El.
  - simplify_eq. left. eauto.
  - right. destruct self as [bc bs fl qc qs l h cc sc ts ce t]; cbn in *.
    destruct fl as [f|]; cbn in H; simplify_eq; cbn; eexists; repeat split; try done.
Qed.

Lemma mark_ended_yields stream c err t s' t' out :
  mark_ended addon stream c err t = Some (s', t', out) ->
  Forall (fun c => is_tcp_error_hook c || is_tcp_end_hook c = true) out.
Proof.
  unfold Stream.mark_ended. intros H.
  repeat case_match; simplify_eq; repeat constructor.
Qed.

(** Stream data that does not end the stream leaves the ended flags of
    every stream as they are and yields neither [TcpEndHook] nor
    [TcpErrorHook]: [mark_ended] is not called. *)
Lemma stream_data_not_ending data sid from_client self self' out :
  handle_quic_event (StreamDataReceived data false sid) from_client self = Some (self', out) ->
  (forall i s, streams_by_id self !! i = Some s ->
     exists s', streams_by_id self' !! i = Some s' /\ ended_flags s' = ended_flags s)
  /\ existsb is_tcp_end_hook (yields out) = false
  /\ existsb is_tcp_error_hook (yields out) = false
  /\ (is_Some (lookup_by_id sid (streams_by_id self)) ->
      ended_flags <$> streams_by_id self' = ended_flags <$> streams_by_id self).
Proof.
  unfold Relay.handle_quic_event.
  destruct (if from_client then quic_server self else quic_client self) as [pq|].
  2:{ intros H. simplify_eq. repeat split; try reflexivity.
      - intros i s Hi. exists s. destruct self, from_client; cbn in *; auto.
      - intros _. destruct self, from_client; reflexivity. }
  destruct (get_or_create_stream sid self) as [[i self1] out0] eqn:Eg.
  pose proof (get_or_create_stream_lookup _ _ _ _ _ Eg) as (stream & Hi & Hsid).
  apply get_or_create_stream_streams in Eg.
  rewrite Hi. cbn.
  assert (Hpre : forall k s, streams_by_id self !! k = Some s ->
                   streams_by_id self1 !! k = Some s).
  { destruct Eg as [(-> & _)|(st & -> & _)]; [auto|].
    intros k s Hk. apply lookup_app_l_Some. exact Hk. }
  assert (Hout0 : existsb is_tcp_end_hook (yields out0) = false
                  /\ existsb is_tcp_error_hook (yields out0) = false).
  { destruct Eg as [(_ & _ & ->)|(st & _ & _ & _ & _ & ->)]; [split; reflexivity|].
    destruct (Stream.flow st); split; reflexivity. }
  assert (Hsame : is_Some (lookup_by_id sid (streams_by_id self)) ->
                  streams_by_id self1 = streams_by_id self).
  { destruct Eg as [(-> & _)|(st & _ & -> & _)]; [auto|]. intros [? ?]. discriminate. }
  destruct Hout0 as [Ho1 Ho2].
  destruct (has_ended stream from_client).
  - intros H. simplify_eq. unfold yields in *. rewrite omap_app, !existsb_app, Ho1, Ho2.
    repeat split; try reflexivity.
    + intros k s Hk. exists s. auto.
    + intros Hl. rewrite (Hsame Hl). reflexivity.
  - destruct (Stream.flow stream) as [f|] eqn:Ef; cbn; intros H; simplify_eq;
      unfold yields in *; rewrite omap_app, !existsb_app, Ho1, Ho2; cbn;
      (split; [|split; [reflexivity|split; [reflexivity|]]]).
    + intros k s Hk. destruct (decide (k = i)) as [->|Hne].
      * eexists. rewrite list_lookup_insert_eq by (eapply lookup_lt_Some; exact Hi).
        split; [reflexivity|]. rewrite (Hpre _ _ Hk) in Hi. simplify_eq.
        destruct stream; reflexivity.
      * exists s. rewrite list_lookup_insert_ne by congruence. auto.
    + intros Hl. rewrite <- (Hsame Hl). destruct self1; cbn in *.
      rewrite list_fmap_insert. apply list_insert_id.
      rewrite list_lookup_fmap, Hi. destruct stream; reflexivity.
    + intros k s Hk. destruct (decide (k = i)) as [->|Hne].
      * eexists. rewrite list_lookup_insert_eq by (eapply lookup_lt_Some; exact Hi).
        split; [reflexivity|]. rewrite (Hpre _ _ Hk) in Hi. simplify_eq. reflexivity.
      * exists s. rewrite list_lookup_insert_ne by congruence. auto.
    + intros Hl. rewrite <- (Hsame Hl). destruct self1; cbn in *.
      rewrite list_fmap_insert. apply list_insert_id.
      rewrite list_lookup_fmap, Hi. reflexivity.
Qed.

Lemma lookup_by_flow_by_id fid l i stream :
  lookup_by_flow fid l = Some (i, stream) ->
  is_Some (lookup_by_id (stream_id stream) l).
Proof.
  unfold lookup_by_flow, lookup_by_id. intros H.
  apply list_find_Some in H as (Hi & _ & _).
  destruct (list_find (fun s => stream_id s = stream_id stream) l) eqn:E; [eauto|].
  apply list_find_None in E. rewrite Forall_forall in E.
  exfalso. eapply E; [|reflexivity]. apply list_elem_of_lookup. eauto.
Qed.

(** C10. An injected TCP message is handled as a [StreamDataReceived]
    for the stream of its flow whose [end_stream] is [False]; handling
    such an event, now or when it is replayed from a buffer, changes no
    ended flag and yields no [TcpEndHook] or [TcpErrorHook], so
    [mark_ended] is never run for it. *)
Theorem injected_tcp_message_never_ends_stream fid message self :
  state_ready (TcpMessageInjected fid message) self
  = ('(_, stream) ← lookup_by_flow fid (streams_by_id self);
     handle_quic_event
       (StreamDataReceived (content message) false (stream_id stream))
       (from_client message) self)
  /\ (forall self' out,
        state_ready (TcpMessageInjected fid message) self = Some (self', out) ->
        ended_flags <$> streams_by_id self' = ended_flags <$> streams_by_id self
        /\ existsb is_tcp_end_hook (yields out) = false
        /\ existsb is_tcp_error_hook (yields out) = false)
  /\ (forall data sid from_client self0 self' out,
        handle_quic_event (StreamDataReceived data false sid) from_client self0
        = Some (self', out) ->
        (forall i s, streams_by_id self0 !! i = Some s ->
           exists s', streams_by_id self' !! i = Some s' /\ ended_flags s' = ended_flags s)
        /\ existsb is_tcp_end_hook (yields out) = false
        /\ existsb is_tcp_error_hook (yields out) = false).
Proof.
  split; [reflexivity|]. split.
  - cbn [Relay.state_ready]. intros self' out H.
    destruct (lookup_by_flow fid (streams_by_id self)) as [[i stream]|] eqn:El;
      [|discriminate].
    cbn in H. apply stream_data_not_ending in H as (_ & H1 & H2 & H3).
    split; [|auto]. apply H3. eapply lookup_by_flow_by_id. exact El.
  - intros data sid from_client self0 self' out H.
    apply stream_data_not_ending in H as (H0 & H1 & H2 & _). auto.
Qed.

(** *** What reaches the peer engine *)

Lemma content_at_run_hook t hook f m otherwise :
  content_at (length (messages f)) (run_hook addon t hook (append_message m f)) otherwise
  = addon t hook (length (messages f)) (content m)
  /\ messages (run_hook addon t hook (append_message m f)) !! length (messages f)
     = Some (mkMessage (from_client m)
               (addon t hook (length (messages f)) (content m))).
Proof.
  unfold content_at, run_hook, append_message. cbn.
  rewrite list_lookup_imap, lookup_app_r, Nat.sub_diag by lia. cbn. auto.
Qed.

(** A datagram, when the relay has its UDP flow. *)
Lemma datagram_relayed data from_client self pq uf :
  peer_quic from_client self = Some pq ->
  flow self = Some uf ->
  let g := append_message (mkMessage from_client data) uf in
  let hook := UdpMessageHook g in
  let g' := run_hook addon (tick self) hook g in
  let j := length (messages uf) in
  exists self',
    handle_quic_event (DatagramFrameReceived data) from_client self
    = Some (self',
            [Yield hook;
             Call pq (send_datagram_frame (content_at j g' data));
             Yield (QuicTransmit (peer from_client) pq)])
    /\ flow self' = Some g'
    /\ messages g !! j = Some (mkMessage from_client data)
    /\ messages g' !! j = Some (mkMessage from_client (content_at j g' data))
    /\ content_at j g' data = addon (tick self) hook j data.
Proof.
  intros Hp Hf g hook g' j. unfold peer_quic in Hp. unfold Relay.handle_quic_event.
  rewrite Hp, Hf. eexists. split; [reflexivity|].
  destruct (content_at_run_hook (tick self) hook uf (mkMessage from_client data) data)
    as [Hc Hm].
  split; [destruct self; reflexivity|].
  split; [unfold g, append_message; cbn;
          rewrite lookup_app_r, Nat.sub_diag by lia; reflexivity|].
  unfold j, g', g. rewrite Hc. auto.
Qed.

(** Stream data, for a stream that has its TCP flow. *)
Lemma stream_data_relayed data end_stream sid from_client self pq :
  peer_quic from_client self = Some pq ->
  is_Some (flow self) ->
  Forall (fun s => is_Some (Stream.flow s)) (streams_by_id self) ->
  exists self' out,
    handle_quic_event (StreamDataReceived data end_stream sid) from_client self
    = Some (self', out)
    /\ (calls out = []
        \/ exists tf t,
             let g := append_message (mkMessage from_client data) tf in
             let hook := TcpMessageHook g in
             let g' := run_hook addon t hook g in
             let j := length (messages tf) in
             Yield hook ∈ out
             /\ messages g !! j = Some (mkMessage from_client data)
             /\ messages g' !! j = Some (mkMessage from_client (content_at j g' data))
             /\ content_at j g' data = addon t hook j data
             /\ calls out = [(pq, send_stream_data sid (content_at j g' data) end_stream)]).
Proof.
  unfold peer_quic. intros Hp Hfl Hall.
  destruct (handle_quic_event_Some (StreamDataReceived data end_stream sid) from_client self)
    as [[self' out] H].
  exists self', out. split; [exact H|].
  unfold Relay.handle_quic_event in H. rewrite Hp in H.
  destruct (get_or_create_stream sid self) as [[i self1] out0] eqn:Eg.
  pose proof (get_or_create_stream_lookup _ _ _ _ _ Eg) as (stream & Hi & Hsid).
  apply get_or_create_stream_streams in Eg.
  rewrite Hi in H. cbn in H.
  assert (Hc0 : calls out0 = []).
  { destruct Eg as [(_ & _ & ->)|(st & _ & _ & _ & Hst & ->)]; [reflexivity|].
    destruct (Stream.flow st); reflexivity. }
  assert (Hsf : is_Some (Stream.flow stream)).
  { destruct Eg as [(Hs & _ & _)|(st & Hs & _ & -> & Hst & _)].
    - rewrite Hs in Hi. rewrite Forall_forall in Hall. apply Hall.
      apply list_elem_of_lookup. eauto.
    - rewrite Hs, lookup_app_r, Nat.sub_diag in Hi by lia. cbn in Hi. simplify_eq.
      destruct (Stream.flow stream); [eauto|].
      destruct Hfl as [? Hfl]. rewrite (proj1 Hst eq_refl) in Hfl. discriminate. }
  destruct Hsf as [tf Htf].
  destruct (has_ended stream from_client).
  { simplify_eq. left. unfold calls in *. rewrite omap_app, Hc0. reflexivity. }
  right. rewrite Htf in H. cbn in H.
  exists tf, (tick self1).
  destruct (content_at_run_hook (tick self1)
              (TcpMessageHook (append_message (mkMessage from_client data) tf))
              tf (mkMessage from_client data) data) as [Hc Hm].
  cbn zeta.
  assert (Hcalls : forall l : list Command, calls (Yield <$> l) = []).
  { induction l; [reflexivity|]. cbn. exact IHl. }
  destruct end_stream.
  - destruct (mark_ended addon _ from_client None (S (tick self1)))
      as [[[s2 t2] o3]|] eqn:Em; [|discriminate].
    cbn in H. simplify_eq.
    split; [rewrite !elem_of_app; right; left; apply list_elem_of_here|].
    split; [unfold append_message; cbn;
            rewrite lookup_app_r, Nat.sub_diag by lia; reflexivity|].
    split; [rewrite Hc; exact Hm|]. split; [exact Hc|].
    unfold calls in *. rewrite omap_app, Hc0. cbn. rewrite omap_app, Hcalls.
    destruct stream; reflexivity.
  - cbn in H. simplify_eq.
    split; [rewrite !elem_of_app; right; left; apply list_elem_of_here|].
    split; [unfold append_message; cbn;
            rewrite lookup_app_r, Nat.sub_diag by lia; reflexivity|].
    split; [rewrite Hc; exact Hm|]. split; [exact Hc|].
    unfold calls in *. rewrite omap_app, Hc0. cbn.
    destruct stream; reflexivity.
Qed.

(** Whether the side [from_client] of the stream [sid] has ended: on
    the stream the relay has for the id, or on the one
    [get_or_create_stream] creates for it. *)
Definition ended_on (sid : Z) (from_client : bool) (self : QuicStreamLayer) : bool :=
  match lookup_by_id sid (streams_by_id self) with
  | Some (_, stream) => has_ended stream from_client
  | None =>
      has_ended
        (Stream.init stream_is_unidirectional stream_is_client_initiated
           (length (streams_by_id self)) sid (bool_decide (flow self = None)))
        from_client
  end.

Lemma get_or_create_stream_ended sid from_client self i self' out stream :
  get_or_create_stream sid self = (i, self', out) ->
  streams_by_id self' !! i = Some stream ->
  has_ended stream from_client = ended_on sid from_client self.
Proof.
  unfold Relay.get_or_create_stream, ended_on. intros H Hi.
  destruct (lookup_by_id sid (streams_by_id self)) as [[j s]|] eqn:El.
  - simplify_eq. unfold lookup_by_id in El. apply list_find_Some in El as (Hj & _).
    congruence.
  - destruct self as [bc bs fl qc qs l h cc sc ts ce t]; cbn in *.
    destruct fl as [f|]; cbn in H; simplify_eq; cbn in Hi;
      rewrite lookup_app_r, Nat.sub_diag in Hi by lia; cbn in Hi; simplify_eq;
      destruct from_client; reflexivity.
Qed.

(** Stream data is forwarded exactly when the side it comes from has
    not ended on the stream. *)
Lemma stream_data_forwarded data end_stream sid from_client self pq :
  peer_quic from_client self = Some pq ->
  is_Some (flow self) ->
  Forall (fun s => is_Some (Stream.flow s)) (streams_by_id self) ->
  exists self' out,
    handle_quic_event (StreamDataReceived data end_stream sid) from_client self
    = Some (self', out)
    /\ if ended_on sid from_client self then calls out = []
       else exists tf t,
              let g := append_message (mkMessage from_client data) tf in
              let hook := TcpMessageHook g in
              let j := length (messages tf) in
              Yield hook ∈ out
              /\ calls out = [(pq, send_stream_data sid (addon t hook j data) end_stream)].
Proof.
  unfold peer_quic. intros Hp Hfl Hall.
  destruct (handle_quic_event_Some (StreamDataReceived data end_stream sid) from_client self)
    as [[self' out] H].
  exists self', out. split; [exact H|].
  unfold Relay.handle_quic_event in H. rewrite Hp in H.
  destruct (get_or_create_stream sid self) as [[i self1] out0] eqn:Eg.
  pose proof (get_or_create_stream_lookup _ _ _ _ _ Eg) as (stream & Hi & Hsid).
  rewrite <- (get_or_create_stream_ended _ from_client _ _ _ _ _ Eg Hi).
  apply get_or_create_stream_streams in Eg.
  rewrite Hi in H. cbn in H.
  assert (Hc0 : calls out0 = []).
  { destruct Eg as [(_ & _ & ->)|(st & _ & _ & _ & Hst & ->)]; [reflexivity|].
    destruct (Stream.flow st); reflexivity. }
  assert (Hsf : is_Some (Stream.flow stream)).
  { destruct Eg as [(Hs & _ & _)|(st & Hs & _ & -> & Hst & _)].
    - rewrite Hs in Hi. rewrite Forall_forall in Hall. apply Hall.
      apply list_elem_of_lookup. eauto.
    - rewrite Hs, lookup_app_r, Nat.sub_diag in Hi by lia. cbn in Hi. simplify_eq.
      destruct (Stream.flow stream); [eauto|].
      destruct Hfl as [? Hfl]. rewrite (proj1 Hst eq_refl) in Hfl. discriminate. }
  destruct Hsf as [tf Htf].
  destruct (has_ended stream from_client).
  { simplify_eq. unfold calls in *. rewrite omap_app, Hc0. reflexivity. }
  rewrite Htf in H. cbn in H.
  exists tf, (tick self1).
  destruct (content_at_run_hook (tick self1)
              (TcpMessageHook (append_message (mkMessage from_client data) tf))
              tf (mkMessage from_client data) data) as [Hc Hm].
  cbn in Hc. cbn zeta.
  assert (Hcalls : forall l : list Command, calls (Yield <$> l) = []).
  { induction l; [reflexivity|]. cbn. exact IHl. }
  destruct end_stream.
  - destruct (mark_ended addon _ from_client None (S (tick self1)))
      as [[[s2 t2] o3]|] eqn:Em; [|discriminate].
    cbn in H. simplify_eq.
    split; [rewrite !elem_of_app; right; left; apply list_elem_of_here|].
    unfold calls in *. rewrite omap_app, Hc0. cbn. rewrite omap_app, Hcalls.
    rewrite <- Hc. destruct stream; reflexivity.
  - cbn in H. simplify_eq.
    split; [rewrite !elem_of_app; right; left; apply list_elem_of_here|].
    unfold calls in *. rewrite omap_app, Hc0. cbn.
    rewrite <- Hc. destruct stream; reflexivity.
Qed.

(** The payload of the two events that carry one, the hook that reports
    the message and the call that forwards it. *)
Definition payload (event : QuicEvent) : option bytes :=
  match event with
  | DatagramFrameReceived data => Some data
  | StreamDataReceived data _ _ => Some data
  | _ => None
  end.

Definition message_hook (event : QuicEvent) (f : Flow) : Command :=
  match event with
  | DatagramFrameReceived _ => UdpMessageHook f
  | _ => TcpMessageHook f
  end.

Definition forward (event : QuicEvent) (data : bytes) : EngineCall :=
  match event with
  | StreamDataReceived _ end_stream sid => send_stream_data sid data end_stream
  | _ => send_datagram_frame data
  end.

(** C3. With both engines registered and flows not ignored, handling a
    [DatagramFrameReceived] or [StreamDataReceived] gives a result in
    which every call on an engine is a call on the peer engine, and it
    is the one call [send_datagram_frame] / [send_stream_data] whose
    bytes are the content of the message the relay appended to the flow,
    as that message reads after the message hook, with the stream id and
    the [end_stream] flag of the event; when the addons leave the
    content alone these are the bytes of the event. A datagram is always
    forwarded. Stream data is forwarded, by that one call, exactly when
    the side it comes from has not ended on the stream; when it has,
    no call is made. *)
Theorem relayed_bytes_are_message_content event data (from_client : bool) self qc qs :
  payload event = Some data ->
  quic_client self = Some qc ->
  quic_server self = Some qs ->
  is_Some (flow self) ->
  Forall (fun s => is_Some (Stream.flow s)) (streams_by_id self) ->
  let pq := if from_client then qs else qc in
  exists self' out,
    handle_quic_event event from_client self = Some (self', out)
    /\ (forall q m, (q, m) ∈ calls out ->
          q = pq
          /\ calls out = [(q, m)]
          /\ exists f t,
               let g := append_message (mkMessage from_client data) f in
               let hook := message_hook event g in
               let g' := run_hook addon t hook g in
               let j := length (messages f) in
               Yield hook ∈ out
               /\ messages g !! j = Some (mkMessage from_client data)
               /\ messages g' !! j = Some (mkMessage from_client (content_at j g' data))
               /\ m = forward event (content_at j g' data)
               /\ (addon t hook j data = data -> m = forward event data))
    /\ (forall d, event = DatagramFrameReceived d -> exists m, calls out = [(pq, m)])
    /\ (forall d end_stream sid,
          event = StreamDataReceived d end_stream sid ->
          if ended_on sid from_client self then calls out = []
          else exists f t,
                 let g := append_message (mkMessage from_client data) f in
                 let hook := message_hook event g in
                 let j := length (messages f) in
                 Yield hook ∈ out
                 /\ calls out
                    = [(pq, send_stream_data sid (addon t hook j data) end_stream)]
                 /\ (addon t hook j data = data ->
                     calls out = [(pq, send_stream_data sid data end_stream)])).
Proof.
  intros Hpay Hqc Hqs Hfl Hall pq.
  assert (Hp : peer_quic from_client self = Some pq)
    by (unfold peer_quic, pq; destruct from_client; assumption).
  destruct event as [| | |d| | | |d end_stream sid| |]; try discriminate;
    cbn in Hpay; simplify_eq.
  - destruct Hfl as [uf Huf].
    destruct (datagram_relayed data from_client self pq uf Hp Huf)
      as (self' & H & _ & Hg & Hg' & Hc).
    exists self'. eexists. split; [exact H|]. split.
    + intros q m Hin. cbn in Hin. apply list_elem_of_singleton in Hin. simplify_eq.
      split; [reflexivity|]. split; [reflexivity|].
      exists uf, (tick self). cbn zeta.
      split; [apply list_elem_of_here|]. split; [exact Hg|]. split; [exact Hg'|].
      split; [reflexivity|]. intros Ha. cbn in Ha, Hc |- *. rewrite Hc, Ha. reflexivity.
    + split; [intros d _; eexists; reflexivity|]. intros d es sid Hd. discriminate.
  - destruct (stream_data_relayed data end_stream sid from_client self pq Hp Hfl Hall)
      as (self' & out & H & Hcalls).
    exists self', out. split; [exact H|]. split; [|split; [intros d Hd; discriminate|]].
    2:{ intros d es sid' Hd. symmetry in Hd. simplify_eq.
        destruct (stream_data_forwarded data end_stream sid from_client self pq Hp Hfl Hall)
          as (self2 & out2 & H2 & Hfwd).
        rewrite H in H2. simplify_eq.
        destruct (ended_on sid from_client self); [exact Hfwd|].
        destruct Hfwd as (f & t & Hy & Hc). exists f, t. cbn zeta.
        split; [exact Hy|]. split; [exact Hc|].
        intros Ha. rewrite Hc. cbn in Ha |- *. rewrite Ha. reflexivity. }
    intros q m Hin.
    destruct Hcalls as [Hnil|(tf & t & Hy & Hg & Hg' & Hc & Hcalls)].
    { rewrite Hnil in Hin. apply elem_of_nil in Hin. contradiction. }
    rewrite Hcalls in Hin. apply list_elem_of_singleton in Hin. simplify_eq.
    split; [reflexivity|]. split; [exact Hcalls|].
    exists tf, t. cbn zeta.
    split; [exact Hy|]. split; [exact Hg|]. split; [exact Hg'|].
    split; [reflexivity|]. intros Ha. cbn in Ha, Hc |- *. rewrite Hc, Ha. reflexivity.
Qed.

(** *** Closing *)

Definition is_hook (c : Command) : bool :=
  match c with
  | TcpErrorHook _ | TcpEndHook _ | UdpEndHook _ | UdpErrorHook _ => true
  | _ => false
  end.

Lemma end_streams_Some from_client l : forall t,
  exists l' t' out,
    Relay.end_streams addon from_client l t = Some (l', t', out)
    /\ Forall (fun c => is_tcp_error_hook c || is_tcp_end_hook c = true) out.
Proof.
  induction l as [|stream l IH]; intros t; cbn.
  - eexists _, _, _. split; [reflexivity|constructor].
  - destruct (has_ended stream from_client) eqn:Ee; cbn.
    + destruct (IH t) as (l' & t' & out & -> & Hall). cbn.
      eexists _, _, _. split; [reflexivity|exact Hall].
    + destruct (mark_ended_Some stream from_client (Some "Connection closed.") t Ee)
        as [[[s1 t1] o1] Em].
      rewrite Em. cbn.
      destruct (IH t1) as (l' & t' & out & -> & Hall). cbn.
      eexists _, _, _. split; [reflexivity|].
      apply Forall_app. split; [|exact Hall]. eapply mark_ended_yields. exact Em.
Qed.

Lemma yields_Yield (l : list Command) : yields (Yield <$> l) = l.
Proof. induction l; [reflexivity|]. cbn. f_equal. exact IHl. Qed.

Lemma calls_Yield (l : list Command) : calls (Yield <$> l) = [].
Proof. induction l; [reflexivity|]. cbn. exact IHl. Qed.

(** [state_done] on a closed connection: it yields only hooks that end
    flows, and leaves the error of the UDP flow as it is. *)
Lemma state_done_closed connection self :
  exists self' out,
    state_done (ConnectionClosed connection) self = Some (self', Yield <$> out)
    /\ Forall (fun c => is_hook c = true /\ is_udp_error_hook c = false) out
    /\ _handle_event self' = _handle_event self
    /\ error <$> flow self' = error <$> flow self.
Proof.
  cbn [Relay.state_done].
  destruct (end_streams_Some (bool_decide (connection = Client)) (streams_by_id self)
              (tick self)) as (l' & t' & out & -> & Hall).
  cbn.
  assert (Hall' : Forall (fun c => is_hook c = true /\ is_udp_error_hook c = false) out).
  { eapply Forall_impl; [exact Hall|]. intros [] Hc; cbn in *; try discriminate; auto. }
  destruct self as [bc bs fl qc qs l h cc sc ts ce t]; cbn in *.
  destruct fl as [[fid ms er lv]|]; cbn.
  - destruct (negb cc && negb sc); cbn.
    + destruct er; cbn; eexists _, _; (split; [reflexivity|]).
      * rewrite app_nil_r. auto.
      * split; [apply Forall_app; split; [exact Hall'|repeat constructor]|]. auto.
    + eexists _, _. split; [reflexivity|]. auto.
  - eexists _, _. split; [reflexivity|]. auto.
Qed.

(** The close event of the side that closed, as [state_ready] reads it. *)
Definition close_event_of (from_client : bool) (self : QuicStreamLayer) : option CloseEvent :=
  match (if from_client then quic_client self else quic_server self) with
  | None => None
  | Some q => _close_event self !! q
  end.

Definition is_close_connection (c : Command) : bool :=
  match c with CloseConnection _ => true | _ => false end.

Lemma is_success_error_code_iff c :
  is_success_error_code NO_ERROR H3_NO_ERROR c = true <-> c = NO_ERROR \/ c = H3_NO_ERROR.
Proof. unfold is_success_error_code. rewrite orb_true_iff, !Z.eqb_eq. reflexivity. Qed.

(** C5, as amended. In the Ready state a [ConnectionClosed] always gives
    a result and moves the relay to Done. If the peer engine is
    registered and the engine of the closed side has a close event, the
    peer engine is closed with that event's error code, frame type and
    reason phrase and a [QuicTransmit] for it is yielded, and no
    [CloseConnection]; otherwise one [CloseConnection] for the peer
    connection is yielded and no engine is called. [UdpErrorHook] is
    yielded, with the error recorded on the UDP flow, exactly when the
    relay has a UDP flow (it was not created with [ignore]) and there is
    a close event whose error code is not a success code; the recorded
    error is the reason phrase or, if that is empty, the name of the
    code. The success codes are exactly [NO_ERROR] and [H3_NO_ERROR]. *)
Theorem connection_closed_propagated connection self :
  let from_client := bool_decide (connection = Client) in
  let close_event := close_event_of from_client self in
  exists self' out,
    state_ready (ConnectionClosed connection) self = Some (self', out)
    /\ _handle_event self' = state_done_
    /\ match peer_quic from_client self, close_event with
       | Some pq, Some ce =>
           exists rest,
             out = Call pq (close (error_code ce) (frame_type ce) (reason_phrase ce))
                   :: Yield (QuicTransmit (peer from_client) pq) :: rest
             /\ calls rest = []
             /\ existsb is_close_connection (yields rest) = false
       | _, _ =>
           exists rest,
             out = Yield (CloseConnection (peer from_client)) :: rest
             /\ calls rest = []
             /\ existsb is_close_connection (yields rest) = false
       end
    /\ (existsb is_udp_error_hook (yields out) = true
        <-> is_Some (flow self)
            /\ exists ce, close_event = Some ce
                 /\ is_success_error_code NO_ERROR H3_NO_ERROR (error_code ce) = false)
    /\ (error <$> flow self'
        = match flow self, close_event with
          | Some f, Some ce =>
              if is_success_error_code NO_ERROR H3_NO_ERROR (error_code ce)
              then Some (error f)
              else Some (Some (if truthy (reason_phrase ce) then reason_phrase ce
                               else error_code_to_str QuicErrorCode_name H3ErrorCode_name
                                      (error_code ce)))
          | f, _ => error <$> f
          end)
    /\ (forall c, is_success_error_code NO_ERROR H3_NO_ERROR c = true
                  <-> c = NO_ERROR \/ c = H3_NO_ERROR).
Proof.
  intros from_client close_event.
  cbn [Relay.state_ready]. fold from_client.
  change (match (if from_client then quic_client self else quic_server self) with
          | Some q => _close_event self !! q
          | None => None
          end) with close_event.
  change (if from_client then quic_server self else quic_client self)
    with (peer_quic from_client self).
  change (if from_client then Server else Client) with (peer from_client).
  set (out1 := match peer_quic from_client self, close_event with
               | Some pq, Some ce => _
               | _, _ => _
               end).
  set (r2 := match flow self, close_event with
             | Some f, Some ce => _
             | _, _ => _
             end).
  destruct r2 as [self2 out2] eqn:E2.
  destruct (state_done_closed connection (set_handler state_done_ self2))
    as (self' & out3 & -> & Hall & Hh & He).
  cbn. exists self'. eexists. split; [reflexivity|].
  split; [rewrite Hh; destruct self2; reflexivity|].
  assert (Hc3 : existsb is_close_connection (yields (Yield <$> out3)) = false).
  { rewrite yields_Yield. clear -Hall. induction Hall as [|c l [Hc _] _ IH]; [reflexivity|].
    cbn. rewrite IH. destruct c; cbn in *; try discriminate; reflexivity. }
  assert (Hu3 : existsb is_udp_error_hook (yields (Yield <$> out3)) = false).
  { rewrite yields_Yield. clear -Hall. induction Hall as [|c l [_ Hc] _ IH]; [reflexivity|].
    cbn. rewrite IH, Hc. reflexivity. }
  assert (H2 : calls out2 = [] /\ existsb is_close_connection (yields out2) = false
               /\ (existsb is_udp_error_hook (yields out2) = true
                   <-> is_Some (flow self)
                       /\ exists ce, close_event = Some ce
                            /\ is_success_error_code NO_ERROR H3_NO_ERROR (error_code ce)
                               = false)
               /\ error <$> flow (set_handler state_done_ self2)
                  = match flow self, close_event with
                    | Some f, Some ce =>
                        if is_success_error_code NO_ERROR H3_NO_ERROR (error_code ce)
                        then Some (error f)
                        else Some (Some (if truthy (reason_phrase ce) then reason_phrase ce
                                         else error_code_to_str QuicErrorCode_name
                                                H3ErrorCode_name (error_code ce)))
                    | f, _ => error <$> f
                    end).
  { subst r2. destruct (flow self) as [f|] eqn:Ef, close_event as [ce|].
    - destruct (is_success_error_code NO_ERROR H3_NO_ERROR (error_code ce)) eqn:Es;
        cbn in E2; injection E2 as <- <-; cbn.
      + repeat split; try reflexivity; try discriminate.
        * intros (_ & ce' & ? & ?). simplify_eq. congruence.
        * destruct self; cbn in *. rewrite Ef. reflexivity.
      + repeat split; try reflexivity; eauto.
    - injection E2 as <- <-. repeat split; try reflexivity; try discriminate.
      + intros (_ & ce' & ? & _). discriminate.
      + destruct self; cbn in *. rewrite Ef. reflexivity.
    - injection E2 as <- <-. repeat split; try reflexivity; try discriminate.
      + intros ([? ?] & _). discriminate.
      + destruct self; cbn in *. rewrite Ef. reflexivity.
    - injection E2 as <- <-. repeat split; try reflexivity; try discriminate.
      + intros ([? ?] & _). discriminate.
      + destruct self; cbn in *. rewrite Ef. reflexivity. }
  destruct H2 as (Hc2 & Hk2 & Hu2 & He2).
  assert (Hrest : calls (out2 ++ (Yield <$> out3)) = []
                  /\ existsb is_close_connection (yields (out2 ++ (Yield <$> out3))) = false).
  { unfold calls, yields in *. rewrite !omap_app, existsb_app, Hc2, Hk2, Hc3.
    fold (calls (Yield <$> out3)). rewrite calls_Yield. auto. }
  split.
  { subst out1. destruct (peer_quic from_client self) as [pq|], close_event as [ce|];
      eexists; (split; [reflexivity|exact Hrest]). }
  split.
  { rewrite <- Hu2. unfold yields in *. rewrite !omap_app, !existsb_app, Hu3, orb_false_r.
    subst out1. destruct (peer_quic from_client self) as [pq|], close_event as [ce|];
      reflexivity. }
  split; [rewrite He; exact He2|].
  apply is_success_error_code_iff.
Qed.

End Props.

End RelayProps.

(** *** Examples for the relay *)

(** Some members of aioquic's [QuicErrorCode] and [H3ErrorCode]. *)
Definition aioquic_NO_ERROR : Z := 0.
Definition aioquic_H3_NO_ERROR : Z := 256.

Definition aioquic_QuicErrorCode_name (c : Z) : option string :=
  if Z.eqb c 0 then Some "NO_ERROR"
  else if Z.eqb c 1 then Some "INTERNAL_ERROR"
  else if Z.eqb c 10 then Some "PROTOCOL_VIOLATION"
  else if Z.eqb c 12 then Some "APPLICATION_ERROR"
  else None.

Definition aioquic_H3ErrorCode_name (c : Z) : option string :=
  if Z.eqb c 256 then Some "H3_NO_ERROR"
  else if Z.eqb c 257 then Some "H3_GENERAL_PROTOCOL_ERROR"
  else if Z.eqb c 268 then Some "H3_REQUEST_CANCELLED"
  else None.

Definition no_reply : nat -> option string := fun _ => None.

(** A relay in the Ready state whose two engines (1 for the client, 2
    for the server) are registered, with its UDP flow or ignored, and
    one whose server engine is not there yet. *)
Definition relay_ready (ignore : bool) : Relay.QuicStreamLayer :=
  Relay.mkQuicStreamLayer [] [] (if ignore then None else Some (mkFlow 0 [] None true))
    (Some 1%nat) (Some 2%nat) [] Relay.state_ready_ true true (Some 0%float) ∅ 1.

Definition relay_waiting : Relay.QuicStreamLayer :=
  Relay.mkQuicStreamLayer [] [] (Some (mkFlow 0 [] None true))
    (Some 1%nat) None [] Relay.state_ready_ true true (Some 0%float) ∅ 1.

(** The relay of [relay_ready false] is what the layer is after [Start]
    on an open server connection and the two [QuicStart] events. *)
Example relay_ready_reached :
  Relay.handle_events addon_id no_reply
    aioquic_stream_is_unidirectional aioquic_stream_is_client_initiated
    aioquic_NO_ERROR aioquic_H3_NO_ERROR aioquic_QuicErrorCode_name aioquic_H3ErrorCode_name
    [Start; QuicStart Client (Some 1%nat); QuicStart Server (Some 2%nat)]
    (Relay.init false true true (Some 0%float))
  = Some (relay_ready false, [Relay.Yield (UdpStartHook (mkFlow 0 [] None true))]).
Proof. reflexivity. Qed.

(** Stream data "ABC" from the client on stream 0, with an addon that
    rewrites every payload to "ab": the server engine is sent "ab". *)
Lemma relayed_bytes_witness :
  let event := StreamDataReceived "ABC" false 0 in
  let self := relay_ready false in
  (RelayProps.payload event = Some "ABC"
   /\ Relay.quic_client self = Some 1%nat
   /\ Relay.quic_server self = Some 2%nat
   /\ is_Some (Relay.flow self)
   /\ Forall (fun s => is_Some (Stream.flow s)) (Relay.streams_by_id self))
  /\ exists self' out,
       Relay.handle_quic_event (addon_const "ab")
         aioquic_stream_is_unidirectional aioquic_stream_is_client_initiated
         aioquic_QuicErrorCode_name aioquic_H3ErrorCode_name event true self
       = Some (self', out)
       /\ RelayProps.ended_on aioquic_stream_is_unidirectional
            aioquic_stream_is_client_initiated 0 true self = false
       /\ RelayProps.calls out = [(2%nat, Relay.send_stream_data 0 "ab" false)]
       /\ (forall q m, (q, m) ∈ RelayProps.calls out ->
             q = 2%nat
             /\ RelayProps.calls out = [(q, m)]
             /\ exists f t,
                  let g := Relay.append_message (mkMessage true "ABC") f in
                  let hook := RelayProps.message_hook event g in
                  let g' := Stream.run_hook (addon_const "ab") t hook g in
                  let j := length (messages f) in
                  Relay.Yield hook ∈ out
                  /\ messages g !! j = Some (mkMessage true "ABC")
                  /\ messages g' !! j
                     = Some (mkMessage true (Relay.content_at j g' "ABC"))
                  /\ m = RelayProps.forward event (Relay.content_at j g' "ABC")
                  /\ (addon_const "ab" t hook j "ABC" = "ABC"
                      -> m = RelayProps.forward event "ABC"))
       /\ (forall d, event = DatagramFrameReceived d ->
             exists m, RelayProps.calls out = [(2%nat, m)]).
Proof.
  intros event self.
  assert (H1 : RelayProps.payload event = Some "ABC") by reflexivity.
  assert (H2 : Relay.quic_client self = Some 1%nat) by reflexivity.
  assert (H3 : Relay.quic_server self = Some 2%nat) by reflexivity.
  assert (H4 : is_Some (Relay.flow self)) by (eexists; reflexivity).
  assert (H5 : Forall (fun s => is_Some (Stream.flow s)) (Relay.streams_by_id self))
    by constructor.
  assert (He : RelayProps.ended_on aioquic_stream_is_unidirectional
                 aioquic_stream_is_client_initiated 0 true self = false) by reflexivity.
  split; [auto|].
  destruct (RelayProps.relayed_bytes_are_message_content (addon_const "ab")
              aioquic_stream_is_unidirectional aioquic_stream_is_client_initiated
              aioquic_QuicErrorCode_name aioquic_H3ErrorCode_name
              event "ABC" true self 1%nat 2%nat H1 H2 H3 H4 H5)
    as (self' & out & H & Hcalls & Hdatagram & Hstream).
  exists self', out. split; [exact H|]. split; [exact He|].
  split; [|split; [exact Hcalls|exact Hdatagram]].
  specialize (Hstream "ABC" false 0 eq_refl). rewrite He in Hstream.
  destruct Hstream as (f & t & _ & Hc & _). exact Hc.
Defined.

(** What that run does: the start and message hooks, the call on the
    server engine with the rewritten bytes, and the transmit command. *)
Example relayed_bytes_run :
  snd <$> Relay.handle_quic_event (addon_const "ab")
    aioquic_stream_is_unidirectional aioquic_stream_is_client_initiated
    aioquic_QuicErrorCode_name aioquic_H3ErrorCode_name
    (StreamDataReceived "ABC" false 0) true (relay_ready false)
  = Some [Relay.Yield (TcpStartHook (mkFlow 0 [] None true));
          Relay.Yield (TcpMessageHook (mkFlow 0 [mkMessage true "ABC"] None true));
          Relay.Call 2 (Relay.send_stream_data 0 "ab" false);
          Relay.Yield (QuicTransmit Server 2)].
Proof. reflexivity. Qed.

(** Two events from the client buffered until the server is ready. *)
Lemma buffered_events_witness :
  let evs := [StreamDataReceived "ABC" true 0; DatagramFrameReceived "dg"] in
  (Relay._handle_event relay_waiting = Relay.state_ready_
   /\ RelayProps.peer_quic true relay_waiting = None)
  /\ exists self' out,
       Relay.handle_events addon_id no_reply
         aioquic_stream_is_unidirectional aioquic_stream_is_client_initiated
         aioquic_NO_ERROR aioquic_H3_NO_ERROR
         aioquic_QuicErrorCode_name aioquic_H3ErrorCode_name
         (map (QuicConnectionEvent Client) evs ++ [QuicStart Server (Some 2%nat)]) relay_waiting
       = Some (RelayProps.set_buffer_from true [] self', out)
       /\ Relay.flush addon_id
            aioquic_stream_is_unidirectional aioquic_stream_is_client_initiated
            aioquic_QuicErrorCode_name aioquic_H3ErrorCode_name
            (RelayProps.buffer_from true relay_waiting ++ evs) true
            (RelayProps.set_peer_quic true (Some 2%nat)
               (RelayProps.set_buffer_from true
                  (RelayProps.buffer_from true relay_waiting ++ evs) relay_waiting))
          = Some (self', out)
       /\ RelayProps.buffer_from true (RelayProps.set_buffer_from true [] self') = []
       /\ RelayProps.peer_quic true (RelayProps.set_buffer_from true [] self') = Some 2%nat.
Proof.
  intros evs.
  assert (H1 : Relay._handle_event relay_waiting = Relay.state_ready_) by reflexivity.
  assert (H2 : RelayProps.peer_quic true relay_waiting = None) by reflexivity.
  split; [auto|].
  exact (proj2 (proj2 (proj2 (proj2
           (RelayProps.buffered_events_replayed_in_order addon_id no_reply
              aioquic_stream_is_unidirectional aioquic_stream_is_client_initiated
              aioquic_NO_ERROR aioquic_H3_NO_ERROR
              aioquic_QuicErrorCode_name aioquic_H3ErrorCode_name
              evs true 2%nat relay_waiting H1 H2))))).
Defined.

(** What that run does: the events are handled in the order they came. *)
Example buffered_events_run :
  snd <$> Relay.handle_events addon_id no_reply
    aioquic_stream_is_unidirectional aioquic_stream_is_client_initiated
    aioquic_NO_ERROR aioquic_H3_NO_ERROR aioquic_QuicErrorCode_name aioquic_H3ErrorCode_name
    [QuicConnectionEvent Client (StreamDataReceived "ABC" true 0);
     QuicConnectionEvent Client (DatagramFrameReceived "dg");
     QuicStart Server (Some 2%nat)]
    relay_waiting
  = Some [Relay.Yield (TcpStartHook (mkFlow 0 [] None true));
          Relay.Yield (TcpMessageHook (mkFlow 0 [mkMessage true "ABC"] None true));
          Relay.Call 2 (Relay.send_stream_data 0 "ABC" true);
          Relay.Yield (QuicTransmit Server 2);
          Relay.Yield (UdpMessageHook (mkFlow 0 [mkMessage true "dg"] None true));
          Relay.Call 2 (Relay.send_datagram_frame "dg");
          Relay.Yield (QuicTransmit Server 2)].
Proof. reflexivity. Qed.

(** C5 as stated fails on a relay created with [ignore]: the client
    side closes with the close event (1, "bad cert"), whose code is not
    a success code; the server engine is closed with it, but there is no
    UDP flow, no error is recorded and no [UdpErrorHook] is yielded. *)
Lemma ignored_relay_reports_no_error :
  let ce := Relay.mkCloseEvent 1 None "bad cert" in
  let self :=
    Relay.mkQuicStreamLayer [] [] None (Some 1%nat) (Some 2%nat) [] Relay.state_ready_
      false true (Some 0%float) {[ 1%nat := ce ]} 0 in
  exists self',
    Relay.state_ready addon_id
      aioquic_stream_is_unidirectional aioquic_stream_is_client_initiated
      aioquic_NO_ERROR aioquic_H3_NO_ERROR aioquic_QuicErrorCode_name aioquic_H3ErrorCode_name
      (ConnectionClosed Client) self
    = Some (self', [Relay.Call 2 (Relay.close 1 None "bad cert");
                    Relay.Yield (QuicTransmit Server 2)])
    /\ Relay.flow self' = None
    /\ RelayProps.close_event_of true self = Some ce
    /\ is_success_error_code aioquic_NO_ERROR aioquic_H3_NO_ERROR (Relay.error_code ce) = false.
Proof. eexists. vm_compute. repeat split; reflexivity. Qed.

(** The same close on a relay that has its UDP flow: the error is
    recorded and reported. *)
Example relay_reports_error :
  let ce := Relay.mkCloseEvent 1 None "bad cert" in
  let self :=
    Relay.mkQuicStreamLayer [] [] (Some (mkFlow 0 [] None true)) (Some 1%nat) (Some 2%nat) []
      Relay.state_ready_ false true (Some 0%float) {[ 1%nat := ce ]} 0 in
  snd <$> Relay.state_ready addon_id
    aioquic_stream_is_unidirectional aioquic_stream_is_client_initiated
    aioquic_NO_ERROR aioquic_H3_NO_ERROR aioquic_QuicErrorCode_name aioquic_H3ErrorCode_name
    (ConnectionClosed Client) self
  = Some [Relay.Call 2 (Relay.close 1 None "bad cert");
          Relay.Yield (QuicTransmit Server 2);
          Relay.Yield (UdpErrorHook (mkFlow 0 [] (Some "bad cert") true))].
Proof. vm_compute. reflexivity. Qed.

(** An injected message on the flow of stream 0 is forwarded without
    ending the stream. *)
Lemma injected_tcp_message_witness :
  let stream := Stream.mkQuicStream (Some (mkFlow 0 [] None true)) 0 false false in
  let self := Relay.set_streams [stream] (relay_ready false) in
  let message := mkMessage true "injected" in
  exists self' out,
    Relay.state_ready addon_id
      aioquic_stream_is_unidirectional aioquic_stream_is_client_initiated
      aioquic_NO_ERROR aioquic_H3_NO_ERROR aioquic_QuicErrorCode_name aioquic_H3ErrorCode_name
      (TcpMessageInjected 0 message) self
    = Some (self', out)
    /\ RelayProps.calls out = [(2%nat, Relay.send_stream_data 0 "injected" false)]
    /\ RelayProps.ended_flags <$> Relay.streams_by_id self'
       = RelayProps.ended_flags <$> Relay.streams_by_id self
    /\ existsb is_tcp_end_hook (RelayProps.yields out) = false
    /\ existsb is_tcp_error_hook (RelayProps.yields out) = false.
Proof.
  intros stream self message.
  eexists _, _.
  split; [vm_compute; reflexivity|]. split; [reflexivity|].
  eapply (proj1 (proj2 (RelayProps.injected_tcp_message_never_ends_stream addon_id
            aioquic_stream_is_unidirectional aioquic_stream_is_client_initiated
            aioquic_NO_ERROR aioquic_H3_NO_ERROR
            aioquic_QuicErrorCode_name aioquic_H3ErrorCode_name 0%nat message self))).
  vm_compute. reflexivity.
Defined.

(** ** More on QuicStreamLayer *)

Module RelayMore.

Import Stream Relay RelayProps.

(** The hooks that report a flow to the addons. *)
Definition is_flow_hook (c : Command) : bool :=
  match c with
  | TcpStartHook _ | TcpMessageHook _ | TcpEndHook _ | TcpErrorHook _
  | UdpStartHook _ | UdpMessageHook _ | UdpEndHook _ | UdpErrorHook _ => true
  | _ => false
  end.

(** The flow of a stream on which both sides have ended is not live. *)
Definition settled (s : QuicStream) : Prop :=
  forall f, Stream.flow s = Some f -> StreamProps.both_ended s = true -> live f = false.

Section Props.

Variable addon : nat -> Command -> nat -> bytes -> bytes.
Variable open_reply : nat -> option string.
Variable stream_is_unidirectional : Z -> bool.
Variable stream_is_client_initiated : Z -> bool.
Variable NO_ERROR : Z.
Variable H3_NO_ERROR : Z.
Variable QuicErrorCode_name : Z -> option string.
Variable H3ErrorCode_name : Z -> option string.

Local Abbreviation get_or_create_stream :=
  (Relay.get_or_create_stream addon stream_is_unidirectional stream_is_client_initiated).
Local Abbreviation handle_quic_event :=
  (Relay.handle_quic_event addon stream_is_unidirectional stream_is_client_initiated
     QuicErrorCode_name H3ErrorCode_name).
Local Abbreviation flush :=
  (Relay.flush addon stream_is_unidirectional stream_is_client_initiated
     QuicErrorCode_name H3ErrorCode_name).
Local Abbreviation state_done := (Relay.state_done addon).
Local Abbreviation state_start := (Relay.state_start addon open_reply).
Local Abbreviation state_ready :=
  (Relay.state_ready addon stream_is_unidirectional stream_is_client_initiated
     NO_ERROR H3_NO_ERROR QuicErrorCode_name H3ErrorCode_name).
Local Abbreviation handle_event :=
  (Relay.handle_event addon open_reply stream_is_unidirectional stream_is_client_initiated
     NO_ERROR H3_NO_ERROR QuicErrorCode_name H3ErrorCode_name).
Local Abbreviation handle_events :=
  (Relay.handle_events addon open_reply stream_is_unidirectional stream_is_client_initiated
     NO_ERROR H3_NO_ERROR QuicErrorCode_name H3ErrorCode_name).

(** *** Streams are created once *)

Lemma lookup_by_id_snoc sid l stream :
  lookup_by_id sid l = None -> stream_id stream = sid ->
  lookup_by_id sid (l ++ [stream]) = Some (length l, stream).
Proof.
  unfold lookup_by_id. intros Hl Hs. apply list_find_Some. split; [|split].
  - rewrite lookup_app_r, Nat.sub_diag by lia. reflexivity.
  - exact Hs.
  - intros j y Hj Hlt. apply list_find_None in Hl. rewrite Forall_forall in Hl.
    apply Hl. apply list_elem_of_lookup. exists j.
    rewrite lookup_app_l in Hj by exact Hlt. exact Hj.
Qed.

(** X1. [get_or_create_stream] registers a stream id once: a call for
    an id gives the stream of that id, and a second call for the same
    id gives the same stream, yields nothing and leaves the layer as it
    is. [TcpStartHook] is yielded exactly by the call that creates the
    stream, when the relay has its UDP flow (was not created with
    [ignore]). *)
Theorem get_or_create_stream_registers_once sid self i self' out :
  get_or_create_stream sid self = (i, self', out) ->
  get_or_create_stream sid self' = (i, self', [])
  /\ (exists stream, streams_by_id self' !! i = Some stream /\ stream_id stream = sid)
  /\ ((exists f, out = [Yield (TcpStartHook f)])
      <-> lookup_by_id sid (streams_by_id self) = None /\ is_Some (flow self))
  /\ (out = [] <-> ~ (lookup_by_id sid (streams_by_id self) = None /\ is_Some (flow self))).
Proof.
  intros H.
  pose proof H as Hl. apply get_or_create_stream_lookup in Hl.
  split; [|split; [exact Hl|]].
  - unfold Relay.get_or_create_stream in H |- *.
    destruct (lookup_by_id sid (streams_by_id self)) as [[j s]|] eqn:El.
    + simplify_eq. rewrite El. reflexivity.
    + destruct Hl as (stream & Hi & Hsid).
      assert (Hs : streams_by_id self' = streams_by_id self ++ [stream]
                   /\ i = length (streams_by_id self)).
      { destruct self as [bc bs fl qc qs l h cc sc ts ce t]; cbn in *.
        destruct fl as [f|]; cbn in H; simplify_eq; cbn in *;
          rewrite lookup_app_r, Nat.sub_diag in Hi by lia; cbn in Hi; simplify_eq;
          (split; [rewrite Hi|]; reflexivity). }
      destruct Hs as [Hs ->]. rewrite Hs.
      rewrite (lookup_by_id_snoc _ _ _ El Hsid). reflexivity.
  - unfold Relay.get_or_create_stream in H.
    destruct (lookup_by_id sid (streams_by_id self)) as [[j s]|] eqn:El.
    + simplify_eq. split; split.
      * intros [f Hf]. discriminate.
      * intros [Hn _]. discriminate.
      * intros _ [Hn _]. discriminate.
      * reflexivity.
    + destruct self as [bc bs fl qc qs l h cc sc ts ce t]; cbn in *.
      destruct fl as [f|]; cbn in H; simplify_eq; split; split.
      * auto.
      * eauto.
      * discriminate.
      * intros Hn. exfalso. apply Hn. eauto.
      * intros [f Hf]. discriminate.
      * intros [_ [? ?]]. discriminate.
      * intros _ [_ [? ?]]. discriminate.
      * reflexivity.
Qed.

(** *** Closing *)

Definition is_udp_end_hook (c : Command) : bool :=
  match c with UdpEndHook _ => true | _ => false end.

(** What the loop of [state_done] does to a stream. *)
Definition ended_by (from_client : bool) (s s' : QuicStream) : Prop :=
  stream_id s' = stream_id s
  /\ has_ended s' from_client = true
  /\ has_ended s' (negb from_client) = has_ended s (negb from_client)
  /\ (has_ended s from_client = true -> s' = s).

Lemma end_streams_ended from_client l : forall t l' t' out,
  Relay.end_streams addon from_client l t = Some (l', t', out) ->
  Forall2 (ended_by from_client) l l'.
Proof.
  induction l as [|s l IH]; intros t l' t' out H; cbn in H.
  - simplify_eq. constructor.
  - destruct (has_ended s from_client) eqn:E; cbn in H.
    + destruct (Relay.end_streams addon from_client l t) as [[[l1 t1] o1]|] eqn:E2;
        [|discriminate].
      cbn in H. simplify_eq. constructor; [|eapply IH; exact E2].
      repeat split; auto.
    + destruct (mark_ended addon s from_client (Some "Connection closed.") t)
        as [[[s1 t1] o1]|] eqn:Em; [|discriminate].
      cbn in H.
      destruct (Relay.end_streams addon from_client l t1) as [[[l2 t2] o2]|] eqn:E2;
        [|discriminate].
      cbn in H. simplify_eq. constructor; [|eapply IH; exact E2].
      apply StreamProps.mark_ended_flags in Em as (_ & H1 & H2 & H3).
      repeat split; auto. congruence.
Qed.

Lemma existsb_udp_end_tcp (out : list Command) :
  Forall (fun c => is_tcp_error_hook c || is_tcp_end_hook c = true) out ->
  existsb is_udp_end_hook out = false.
Proof.
  induction 1 as [|c l Hc _ IH]; [reflexivity|].
  cbn. rewrite IH. destruct c; cbn in *; try discriminate; reflexivity.
Qed.

(** X2. [state_done] on a [ConnectionClosed] always gives a result.
    After it every stream has ended on the side that closed; a stream
    that had ended on that side before is as it was, and the other side
    of every stream is as it was. It yields only hooks that end or fail
    a flow, and makes no call on an engine. The UDP flow is made
    non-live exactly when the relay has one and neither connection is
    connected, and [UdpEndHook] is yielded exactly when, in addition,
    the flow has no error. *)
Theorem state_done_ends_every_stream connection self :
  let from_client := bool_decide (connection = Client) in
  let both_down := negb (client_connected self) && negb (server_connected self) in
  exists self' out,
    state_done (ConnectionClosed connection) self = Some (self', Yield <$> out)
    /\ Forall2 (ended_by from_client) (streams_by_id self) (streams_by_id self')
    /\ Forall (fun c => is_hook c = true) out
    /\ (existsb is_udp_end_hook out = true
        <-> exists f, flow self = Some f /\ both_down = true /\ error f = None)
    /\ live <$> flow self'
       = (fun f => if both_down then false else live f) <$> flow self.
Proof.
  intros from_client both_down. subst both_down. cbn [Relay.state_done]. fold from_client.
  destruct (end_streams_Some addon from_client (streams_by_id self) (tick self))
    as (l' & t' & out1 & E & Hall).
  rewrite E. cbn.
  apply end_streams_ended in E.
  assert (Hh : Forall (fun c => is_hook c = true) out1).
  { eapply Forall_impl; [exact Hall|]. intros [] Hc; cbn in *; try discriminate; auto. }
  pose proof (existsb_udp_end_tcp _ Hall) as Hu.
  destruct self as [bc bs fl qc qs l h cc sc ts ce t]; cbn in *.
  destruct fl as [[fid ms er lv]|]; cbn.
  - destruct (negb cc && negb sc) eqn:Eb; cbn.
    + destruct er as [e|]; cbn; eexists _, _; (split; [reflexivity|]); cbn;
        (split; [exact E|]).
      * rewrite app_nil_r. split; [exact Hh|]. split; [|reflexivity].
        rewrite Hu. split; [discriminate|].
        intros (f & Hf & _ & He). simplify_eq.
      * split; [apply Forall_app; split; [exact Hh|repeat constructor]|].
        split; [|reflexivity].
        rewrite existsb_app, Hu. split; [eauto|reflexivity].
    + eexists _, _. split; [reflexivity|]. cbn. split; [exact E|].
      split; [exact Hh|]. split; [|reflexivity].
      rewrite Hu. split; [discriminate|].
      intros (f & _ & Hb & _). discriminate.
  - eexists _, _. split; [reflexivity|]. cbn. split; [exact E|].
    split; [exact Hh|]. split; [|reflexivity].
    rewrite Hu. split; [discriminate|].
    intros (f & Hf & _). discriminate.
Qed.

(** *** A flow whose stream has ended on both sides is not live *)

Lemma mark_ended_settled s c err t s' t' out :
  mark_ended addon s c err t = Some (s', t', out) -> settled s'.
Proof.
  intros H f Hf Hb.
  destruct (Stream.flow s) as [f0|] eqn:E0.
  - destruct (StreamProps.mark_ended_flow _ _ _ _ _ _ _ _ _ E0 H)
      as (f' & Hf' & _ & _ & _ & _ & Hl & _).
    rewrite Hf' in Hf. simplify_eq. rewrite Hl, Hb. reflexivity.
  - destruct (StreamProps.mark_ended_ignored _ _ _ _ _ _ _ _ E0 H) as (Hn & _).
    congruence.
Qed.

Lemma settled_not_ended s : StreamProps.both_ended s = false -> settled s.
Proof. intros H f _ Hb. congruence. Qed.

Lemma init_not_both_ended fid sid ignore f :
  StreamProps.both_ended
    (Stream.set_flow f
       (Stream.init stream_is_unidirectional stream_is_client_initiated fid sid ignore))
  = false.
Proof.
  unfold StreamProps.both_ended. cbn.
  destruct (stream_is_unidirectional sid), (stream_is_client_initiated sid); reflexivity.
Qed.

Lemma settled_set_flow s f f' :
  settled s -> Stream.flow s = Some f -> live f' = live f ->
  settled (Stream.set_flow (Some f') s).
Proof.
  intros Hs Hf Hl g Hg Hb. cbn in Hg. simplify_eq. rewrite Hl.
  apply Hs; [exact Hf|]. destruct s; exact Hb.
Qed.

Lemma get_or_create_stream_settled sid self i self' out :
  get_or_create_stream sid self = (i, self', out) ->
  Forall settled (streams_by_id self) -> Forall settled (streams_by_id self').
Proof.
  unfold Relay.get_or_create_stream. intros H Hall.
  destruct (lookup_by_id sid (streams_by_id self)) as [[j s]|].
  - simplify_eq. exact Hall.
  - destruct self as [bc bs fl qc qs l h cc sc ts ce t]; cbn in *.
    destruct fl as [f|]; cbn in H; simplify_eq; cbn;
      (apply Forall_app; split; [exact Hall|]); constructor; [|constructor| |constructor].
    + apply settled_not_ended. apply init_not_both_ended.
    + apply settled_not_ended.
      apply (init_not_both_ended (length l) sid true None).
Qed.

Lemma handle_quic_event_settled event from_client self self' out :
  handle_quic_event event from_client self = Some (self', out) ->
  Forall settled (streams_by_id self) -> Forall settled (streams_by_id self').
Proof.
  unfold Relay.handle_quic_event. intros H Hall.
  destruct (if from_client then quic_server self else quic_client self) as [pq|].
  2:{ simplify_eq. destruct self, from_client; exact Hall. }
  destruct event as [| | |data| | | |data end_stream sid|code sid|]; simplify_eq; auto.
  - destruct (flow self); simplify_eq; [destruct self; exact Hall|exact Hall].
  - destruct (get_or_create_stream sid self) as [[i self1] out0] eqn:Eg.
    apply get_or_create_stream_settled in Eg; [|exact Hall].
    destruct (streams_by_id self1 !! i) as [stream|] eqn:Ei; [|discriminate]. cbn in H.
    assert (Hs : settled stream).
    { rewrite Forall_forall in Eg. apply Eg. apply list_elem_of_lookup. eauto. }
    destruct (has_ended stream from_client); [simplify_eq; exact Eg|].
    destruct (Stream.flow stream) as [f|] eqn:Ef.
    + destruct end_stream; cbn in H.
      * destruct (mark_ended addon _ from_client None (S (tick self1)))
          as [[[s2 t2] o3]|] eqn:Em; [|discriminate].
        cbn in H. simplify_eq. cbn. apply Forall_insert; [exact Eg|].
        eapply mark_ended_settled. exact Em.
      * simplify_eq. cbn. apply Forall_insert; [exact Eg|].
        eapply settled_set_flow; [exact Hs|exact Ef|reflexivity].
    + destruct end_stream; cbn in H.
      * destruct (mark_ended addon stream from_client None (tick self1))
          as [[[s2 t2] o3]|] eqn:Em; [|discriminate].
        cbn in H. simplify_eq. cbn. apply Forall_insert; [exact Eg|].
        eapply mark_ended_settled. exact Em.
      * simplify_eq. cbn. apply Forall_insert; [exact Eg|exact Hs].
  - destruct (get_or_create_stream sid self) as [[i self1] out0] eqn:Eg.
    apply get_or_create_stream_settled in Eg; [|exact Hall].
    destruct (streams_by_id self1 !! i) as [stream|] eqn:Ei; [|discriminate]. cbn in H.
    destruct (has_ended stream from_client); [simplify_eq; exact Eg|].
    destruct (mark_ended addon stream from_client _ (tick self1))
      as [[[s2 t2] o3]|] eqn:Em; [|discriminate].
    cbn in H. simplify_eq. cbn. apply Forall_insert; [exact Eg|].
    eapply mark_ended_settled. exact Em.
Qed.

Lemma end_streams_settled from_client l : forall t l' t' out,
  Relay.end_streams addon from_client l t = Some (l', t', out) ->
  Forall settled l -> Forall settled l'.
Proof.
  induction l as [|s l IH]; intros t l' t' out H Hall; cbn in H.
  - simplify_eq. constructor.
  - apply Forall_cons in Hall as [Hs Hall].
    destruct (has_ended s from_client) eqn:E; cbn in H.
    + destruct (Relay.end_streams addon from_client l t) as [[[l1 t1] o1]|] eqn:E2;
        [|discriminate].
      cbn in H. simplify_eq. constructor; [exact Hs|eapply IH; eauto].
    + destruct (mark_ended addon s from_client (Some "Connection closed.") t)
        as [[[s1 t1] o1]|] eqn:Em; [|discriminate].
      cbn in H.
      destruct (Relay.end_streams addon from_client l t1) as [[[l2 t2] o2]|] eqn:E2;
        [|discriminate].
      cbn in H. simplify_eq. constructor; [|eapply IH; eauto].
      eapply mark_ended_settled. exact Em.
Qed.

Lemma state_done_settled event self self' out :
  state_done event self = Some (self', out) ->
  Forall settled (streams_by_id self) -> Forall settled (streams_by_id self').
Proof.
  intros H Hall. destruct event; cbn in H; simplify_eq; auto.
  destruct (Relay.end_streams addon _ (streams_by_id self) (tick self))
    as [[[l1 t1] o1]|] eqn:E; [|discriminate].
  cbn in H. apply end_streams_settled in E; [|exact Hall].
  destruct self as [bc bs fl qc qs l h cc sc ts ce t]; cbn in *.
  destruct fl as [[fid ms er lv]|]; cbn in H.
  - destruct (negb cc && negb sc); [destruct er|]; cbn in H; simplify_eq; exact E.
  - simplify_eq. exact E.
Qed.

Lemma flush_settled buffer : forall from_client self self' out,
  flush buffer from_client self = Some (self', out) ->
  Forall settled (streams_by_id self) -> Forall settled (streams_by_id self').
Proof.
  induction buffer as [|ev buffer IH]; intros from_client self self' out H Hall; cbn in H.
  - simplify_eq. exact Hall.
  - destruct (handle_quic_event ev from_client self) as [[self1 out1]|] eqn:E1; [|discriminate].
    cbn in H.
    destruct (flush buffer from_client self1) as [[self2 out2]|] eqn:E2; [|discriminate].
    cbn in H. simplify_eq.
    eapply IH; [exact E2|]. eapply handle_quic_event_settled; eauto.
Qed.

Lemma state_ready_settled event self self' out :
  state_ready event self = Some (self', out) ->
  Forall settled (streams_by_id self) -> Forall settled (streams_by_id self').
Proof.
  intros H Hall. destruct event as [| |c| | |c q|c ev|fid m|fid m|];
    cbn [Relay.state_ready] in H; try discriminate.
  - match type of H with
    | (let '(_, _) := ?r2 in _) = _ => destruct r2 as [self2 out2] eqn:E2
    end.
    assert (Hs : streams_by_id self2 = streams_by_id self).
    { repeat case_match; simplify_eq; first [reflexivity|destruct self; reflexivity]. }
    destruct (state_done (ConnectionClosed c) (set_handler state_done_ self2))
      as [[s3 o3]|] eqn:E3; [|discriminate].
    cbn in H. simplify_eq. apply state_done_settled in E3; [exact E3|].
    destruct self2; cbn in *. rewrite Hs. exact Hall.
  - destruct (bool_decide (c = Client)).
    + destruct (quic_client self); [discriminate|]. cbn in H.
      destruct q as [q|].
      * destruct (flush (buffer_from_server self) false (set_quic_client (Some q) self))
          as [[s1 o1]|] eqn:E1; [|discriminate].
        cbn in H. simplify_eq.
        apply flush_settled in E1; [|destruct self; exact Hall].
        destruct s1; exact E1.
      * destruct (buffer_from_server self) eqn:Eb; [|discriminate].
        cbn in H. simplify_eq. destruct self; exact Hall.
    + destruct (quic_server self); [discriminate|]. cbn in H.
      destruct q as [q|].
      * destruct (flush (buffer_from_client self) true (set_quic_server (Some q) self))
          as [[s1 o1]|] eqn:E1; [|discriminate].
        cbn in H. simplify_eq.
        apply flush_settled in E1; [|destruct self; exact Hall].
        destruct s1; exact E1.
      * destruct (buffer_from_client self) eqn:Eb; [|discriminate].
        cbn in H. simplify_eq. destruct self; exact Hall.
  - eapply handle_quic_event_settled; eauto.
  - destruct (lookup_by_flow fid (streams_by_id self)) as [[i stream]|]; [|discriminate].
    cbn in H. eapply handle_quic_event_settled; eauto.
  - destruct (flow self) as [f|]; [|discriminate].
    destruct (bool_decide (flow_id f = fid)); [|discriminate].
    eapply handle_quic_event_settled; eauto.
Qed.

Lemma state_start_streams event self self' out :
  state_start event self = Some (self', out) -> streams_by_id self' = streams_by_id self.
Proof.
  intros H. destruct event; cbn in H; try discriminate.
  destruct self as [bc bs fl qc qs l h cc sc ts ce t]; cbn in *.
  destruct fl, ts; cbn in H; repeat case_match; simplify_eq; reflexivity.
Qed.

Lemma handle_event_settled event self self' out :
  handle_event event self = Some (self', out) ->
  Forall settled (streams_by_id self) -> Forall settled (streams_by_id self').
Proof.
  unfold Relay.handle_event. intros H Hall. destruct (_handle_event self).
  - apply state_start_streams in H. rewrite H. exact Hall.
  - eapply state_ready_settled; eauto.
  - eapply state_done_settled; eauto.
Qed.

Lemma handle_events_settled events : forall self self' out,
  handle_events events self = Some (self', out) ->
  Forall settled (streams_by_id self) -> Forall settled (streams_by_id self').
Proof.
  induction events as [|ev events IH]; intros self self' out H Hall; cbn in H.
  - simplify_eq. exact Hall.
  - destruct (handle_event ev self) as [[self1 out1]|] eqn:E1; [|discriminate].
    cbn in H.
    destruct (handle_events events self1) as [[self2 out2]|] eqn:E2; [|discriminate].
    cbn in H. simplify_eq.
    eapply IH; [exact E2|]. eapply handle_event_settled; eauto.
Qed.

(** X3. Whatever events the relay handles from its creation on, the
    flow of a stream on which both sides have ended is not live. So
    when the relay has handled the [ConnectionClosed] of both
    connections, in either order, every stream has ended on both sides
    and no stream flow is live. *)
Theorem ended_streams_are_not_live :
  (forall events ignore client_up server_up started self out,
     handle_events events (Relay.init ignore client_up server_up started) = Some (self, out) ->
     Forall settled (streams_by_id self))
  /\ (forall c1 c2 self s1 o1 s2 o2,
        Forall settled (streams_by_id self) ->
        c1 <> c2 ->
        state_done (ConnectionClosed c1) self = Some (s1, o1) ->
        state_done (ConnectionClosed c2) s1 = Some (s2, o2) ->
        Forall (fun s => StreamProps.both_ended s = true
                         /\ forall f, Stream.flow s = Some f -> live f = false)
          (streams_by_id s2)).
Proof.
  split.
  - intros events ignore cu su ts self out H.
    eapply handle_events_settled; [exact H|]. constructor.
  - intros c1 c2 self s1 o1 s2 o2 Hall Hne H1 H2.
    pose proof (state_done_settled _ _ _ _ H1 Hall) as Hall1.
    pose proof (state_done_settled _ _ _ _ H2 Hall1) as Hall2.
    destruct (state_done_ends_every_stream c1 self) as (s1' & o1' & E1 & F1 & _).
    destruct (state_done_ends_every_stream c2 s1) as (s2' & o2' & E2 & F2 & _).
    cbv zeta in *. rewrite H1 in E1. rewrite H2 in E2. simplify_eq.
    assert (Hc : bool_decide (c2 = Client) = negb (bool_decide (c1 = Client)))
      by (destruct c1, c2; try reflexivity; congruence).
    rewrite Hc in F2.
    assert (Hb : Forall (fun s => StreamProps.both_ended s = true) (streams_by_id s2')).
    { clear -F1 F2. revert F2. generalize (streams_by_id s2').
      induction F1 as [|s s1 l l1 (_ & Ha & _) _ IH]; intros l2 F2.
      - apply Forall2_nil_inv_l in F2 as ->. constructor.
      - apply Forall2_cons_inv_l in F2 as (s2 & l2' & (_ & Hb & Hc & _) & F2 & ->).
        constructor; [|apply IH; exact F2].
        rewrite negb_involutive in Hc. rewrite Ha in Hc.
        unfold StreamProps.both_ended. unfold has_ended in *.
        destruct (bool_decide (c1 = Client)); cbn in *; rewrite Hb, Hc; reflexivity. }
    rewrite Forall_forall in Hb, Hall2. apply Forall_forall.
    intros s Hs. split; [apply Hb; exact Hs|].
    intros f Hf. apply (Hall2 s Hs f Hf). apply Hb. exact Hs.
Qed.

(** *** A relay created with [ignore] *)

(** The relay has no UDP flow and its streams have no TCP flow. *)
Definition ignores (self : QuicStreamLayer) : Prop :=
  flow self = None /\ Forall (fun s => Stream.flow s = None) (streams_by_id self).

Definition quiet (out : list Action) : Prop :=
  Forall (fun c => is_flow_hook c = false) (yields out).

Lemma quiet_app out1 out2 : quiet out1 -> quiet out2 -> quiet (out1 ++ out2).
Proof. unfold quiet, yields. rewrite omap_app. intros. apply Forall_app. auto. Qed.

Lemma get_or_create_stream_ignores sid self i self' out :
  get_or_create_stream sid self = (i, self', out) ->
  ignores self -> ignores self' /\ out = [] /\ tick self' = tick self.
Proof.
  unfold Relay.get_or_create_stream, ignores. intros H [Hf Hall].
  destruct (lookup_by_id sid (streams_by_id self)) as [[j s]|].
  - simplify_eq. auto.
  - destruct self as [bc bs fl qc qs l h cc sc ts ce t]; cbn in *. subst fl.
    cbn in H. simplify_eq. cbn. repeat split.
    apply Forall_app. split; [exact Hall|]. repeat constructor.
Qed.

Lemma handle_quic_event_ignores event from_client self self' out :
  handle_quic_event event from_client self = Some (self', out) ->
  ignores self -> ignores self' /\ quiet out /\ tick self' = tick self.
Proof.
  unfold Relay.handle_quic_event. intros H Hi.
  destruct (if from_client then quic_server self else quic_client self) as [pq|].
  2:{ simplify_eq. split; [|split; [constructor|]]; destruct self, from_client; auto. }
  destruct event as [| | |data| | | |data end_stream sid|code sid|]; simplify_eq;
    try (split; [exact Hi|split; [repeat constructor|reflexivity]]).
  - destruct Hi as [Hf Hall]. rewrite Hf in H. simplify_eq.
    split; [split; assumption|]. split; [repeat constructor|reflexivity].
  - destruct (get_or_create_stream sid self) as [[i self1] out0] eqn:Eg.
    apply get_or_create_stream_ignores in Eg as ([Hf1 Hall1] & -> & Ht); [|exact Hi].
    destruct (streams_by_id self1 !! i) as [stream|] eqn:Ei; [|discriminate]. cbn in H.
    assert (Hs : Stream.flow stream = None).
    { rewrite Forall_forall in Hall1. apply Hall1. apply list_elem_of_lookup. eauto. }
    destruct (has_ended stream from_client).
    { simplify_eq. split; [split; assumption|]. split; [repeat constructor|exact Ht]. }
    rewrite Hs in H. destruct end_stream; cbn in H.
    + destruct (mark_ended addon stream from_client None (tick self1))
        as [[[s2 t2] o3]|] eqn:Em; [|discriminate].
      cbn in H. simplify_eq.
      destruct (StreamProps.mark_ended_ignored _ _ _ _ _ _ _ _ Hs Em) as (Hs2 & -> & ->).
      split; [split; [destruct self1; exact Hf1|]|split; [repeat constructor|]].
      * destruct self1; cbn in *. apply Forall_insert; assumption.
      * destruct self1; cbn in *. exact Ht.
    + simplify_eq.
      split; [split; [destruct self1; exact Hf1|]|split; [repeat constructor|]].
      * destruct self1; cbn in *. apply Forall_insert; assumption.
      * destruct self1; cbn in *. exact Ht.
  - destruct (get_or_create_stream sid self) as [[i self1] out0] eqn:Eg.
    apply get_or_create_stream_ignores in Eg as ([Hf1 Hall1] & -> & Ht); [|exact Hi].
    destruct (streams_by_id self1 !! i) as [stream|] eqn:Ei; [|discriminate]. cbn in H.
    assert (Hs : Stream.flow stream = None).
    { rewrite Forall_forall in Hall1. apply Hall1. apply list_elem_of_lookup. eauto. }
    destruct (has_ended stream from_client).
    { simplify_eq. split; [split; assumption|]. split; [repeat constructor|exact Ht]. }
    destruct (mark_ended addon stream from_client _ (tick self1))
      as [[[s2 t2] o3]|] eqn:Em; [|discriminate].
    cbn in H. simplify_eq.
    destruct (StreamProps.mark_ended_ignored _ _ _ _ _ _ _ _ Hs Em) as (Hs2 & -> & ->).
    split; [split; [destruct self1; exact Hf1|]|split; [repeat constructor|]].
    + destruct self1; cbn in *. apply Forall_insert; assumption.
    + destruct self1; cbn in *. exact Ht.
Qed.

Lemma end_streams_ignores from_client l : forall t l' t' out,
  Relay.end_streams addon from_client l t = Some (l', t', out) ->
  Forall (fun s => Stream.flow s = None) l ->
  Forall (fun s => Stream.flow s = None) l' /\ out = [] /\ t' = t.
Proof.
  induction l as [|s l IH]; intros t l' t' out H Hall; cbn in H.
  - simplify_eq. auto.
  - apply Forall_cons in Hall as [Hs Hall].
    destruct (has_ended s from_client) eqn:E; cbn in H.
    + destruct (Relay.end_streams addon from_client l t) as [[[l1 t1] o1]|] eqn:E2;
        [|discriminate].
      cbn in H. simplify_eq. destruct (IH _ _ _ _ E2 Hall) as (? & -> & ->). auto.
    + destruct (mark_ended addon s from_client (Some "Connection closed.") t)
        as [[[s1 t1] o1]|] eqn:Em; [|discriminate].
      cbn in H.
      destruct (Relay.end_streams addon from_client l t1) as [[[l2 t2] o2]|] eqn:E2;
        [|discriminate].
      cbn in H. simplify_eq.
      destruct (StreamProps.mark_ended_ignored _ _ _ _ _ _ _ _ Hs Em) as (Hs1 & -> & ->).
      destruct (IH _ _ _ _ E2 Hall) as (? & -> & ->). auto.
Qed.

Lemma state_done_ignores event self self' out :
  state_done event self = Some (self', out) ->
  ignores self -> ignores self' /\ out = [].
Proof.
  intros H [Hf Hall]. destruct event; cbn in H; simplify_eq;
    try solve [split; [split|]; auto].
  destruct (Relay.end_streams addon _ (streams_by_id self) (tick self))
    as [[[l1 t1] o1]|] eqn:E; [|discriminate].
  cbn in H. apply end_streams_ignores in E as (Hall1 & -> & ->); [|exact Hall].
  destruct self as [bc bs fl qc qs l h cc sc ts ce t]; cbn in *. subst fl.
  cbn in H. simplify_eq. split; [split|]; auto.
Qed.

Lemma flush_ignores buffer : forall from_client self self' out,
  flush buffer from_client self = Some (self', out) ->
  ignores self -> ignores self' /\ quiet out.
Proof.
  induction buffer as [|ev buffer IH]; intros from_client self self' out H Hi; cbn in H.
  - simplify_eq. split; [exact Hi|constructor].
  - destruct (handle_quic_event ev from_client self) as [[self1 out1]|] eqn:E1; [|discriminate].
    cbn in H.
    destruct (flush buffer from_client self1) as [[self2 out2]|] eqn:E2; [|discriminate].
    cbn in H. simplify_eq.
    apply handle_quic_event_ignores in E1 as (Hi1 & Hq1 & _); [|exact Hi].
    destruct (IH _ _ _ _ E2 Hi1) as [Hi2 Hq2].
    split; [exact Hi2|apply quiet_app; assumption].
Qed.

Lemma ignores_fields self self' :
  flow self' = flow self -> streams_by_id self' = streams_by_id self ->
  ignores self -> ignores self'.
Proof. unfold ignores. intros -> ->. auto. Qed.

Lemma state_ready_ignores event self self' out :
  state_ready event self = Some (self', out) ->
  ignores self -> ignores self' /\ quiet out.
Proof.
  intros H Hi. destruct event as [| |c| | |c q|c ev|fid m|fid m|];
    cbn [Relay.state_ready] in H; try discriminate.
  - destruct Hi as [Hf Hall]. rewrite Hf in H.
    destruct (state_done (ConnectionClosed c) (set_handler state_done_ self))
      as [[s3 o3]|] eqn:E3; [|discriminate].
    cbn in H. simplify_eq.
    apply state_done_ignores in E3 as [Hi3 ->];
      [|split; destruct self; assumption].
    split; [exact Hi3|]. rewrite app_nil_r.
    repeat case_match; repeat constructor.
  - destruct (bool_decide (c = Client)).
    + destruct (quic_client self); [discriminate|]. cbn in H.
      destruct q as [q|].
      * destruct (flush (buffer_from_server self) false (set_quic_client (Some q) self))
          as [[s1 o1]|] eqn:E1; [|discriminate].
        cbn in H. simplify_eq.
        apply flush_ignores in E1 as [Hi1 Hq1];
          [|eapply ignores_fields; [| |exact Hi]; destruct self; reflexivity].
        split; [|exact Hq1].
        eapply ignores_fields; [| |exact Hi1]; destruct s1; reflexivity.
      * destruct (buffer_from_server self) eqn:Eb; [|discriminate].
        cbn in H. simplify_eq. split; [|constructor].
        eapply ignores_fields; [| |exact Hi]; destruct self; reflexivity.
    + destruct (quic_server self); [discriminate|]. cbn in H.
      destruct q as [q|].
      * destruct (flush (buffer_from_client self) true (set_quic_server (Some q) self))
          as [[s1 o1]|] eqn:E1; [|discriminate].
        cbn in H. simplify_eq.
        apply flush_ignores in E1 as [Hi1 Hq1];
          [|eapply ignores_fields; [| |exact Hi]; destruct self; reflexivity].
        split; [|exact Hq1].
        eapply ignores_fields; [| |exact Hi1]; destruct s1; reflexivity.
      * destruct (buffer_from_client self) eqn:Eb; [|discriminate].
        cbn in H. simplify_eq. split; [|constructor].
        eapply ignores_fields; [| |exact Hi]; destruct self; reflexivity.
  - apply handle_quic_event_ignores in H as (? & ? & _); auto.
  - destruct (lookup_by_flow fid (streams_by_id self)) as [[i stream]|]; [|discriminate].
    cbn in H. apply handle_quic_event_ignores in H as (? & ? & _); auto.
  - destruct Hi as [Hf _]. rewrite Hf in H. discriminate.
Qed.

Lemma state_start_ignores event self self' out :
  state_start event self = Some (self', out) ->
  ignores self -> ignores self' /\ quiet out.
Proof.
  intros H [Hf Hall]. destruct event; cbn in H; try discriminate.
  destruct self as [bc bs fl qc qs l h cc sc ts ce t]; cbn in *. subst fl.
  destruct ts; cbn in H; repeat case_match; simplify_eq;
    (split; [split; cbn; [reflexivity|assumption]|repeat constructor]).
Qed.

Lemma handle_event_ignores event self self' out :
  handle_event event self = Some (self', out) ->
  ignores self -> ignores self' /\ quiet out.
Proof.
  unfold Relay.handle_event. intros H Hi. destruct (_handle_event self).
  - eapply state_start_ignores; eauto.
  - eapply state_ready_ignores; eauto.
  - apply state_done_ignores in H as [? ->]; [|exact Hi]. split; [assumption|constructor].
Qed.

(** X4. A relay created with [ignore] never has a flow and never
    reports one: whatever events it handles, it has no UDP flow, none of
    its streams has a TCP flow, and it yields no hook of a TCP or UDP
    flow (start, message, end or error). *)
Theorem ignored_relay_yields_no_flow_hook events client_up server_up started self out :
  handle_events events (Relay.init true client_up server_up started) = Some (self, out) ->
  flow self = None
  /\ Forall (fun s => Stream.flow s = None) (streams_by_id self)
  /\ Forall (fun c => is_flow_hook c = false) (yields out).
Proof.
  assert (Hgen : forall events self0 self out,
            handle_events events self0 = Some (self, out) ->
            ignores self0 -> ignores self /\ quiet out).
  { clear. induction events as [|ev events IH]; intros self0 self out H Hi; cbn in H.
    - simplify_eq. split; [exact Hi|constructor].
    - destruct (handle_event ev self0) as [[self1 out1]|] eqn:E1; [|discriminate].
      cbn in H.
      destruct (handle_events events self1) as [[self2 out2]|] eqn:E2; [|discriminate].
      cbn in H. simplify_eq.
      apply handle_event_ignores in E1 as [Hi1 Hq1]; [|exact Hi].
      destruct (IH _ _ _ E2 Hi1) as [Hi2 Hq2].
      split; [exact Hi2|apply quiet_app; assumption]. }
  intros H. apply Hgen in H as [[Hf Hall] Hq]; [auto|].
  split; [reflexivity|constructor].
Qed.

(** *** The relay when it is done *)

Lemma calls_app out1 out2 : calls (out1 ++ out2) = calls out1 ++ calls out2.
Proof. apply omap_app. Qed.

Lemma yields_app out1 out2 : yields (out1 ++ out2) = yields out1 ++ yields out2.
Proof. apply omap_app. Qed.

Ltac modifies_tac :=
  repeat lazymatch goal with
  | |- modifies ?a ?a => apply modifies_refl
  | |- modifies ?a (set_tick _ ?b) =>
      apply (modifies_trans a b); [|apply modifies_set_tick]
  | |- modifies ?a (set_flow _ ?b) =>
      apply (modifies_trans a b); [|apply modifies_set_flow]
  | |- modifies ?a (set_streams _ ?b) =>
      apply (modifies_trans a b); [|apply modifies_set_streams]
  end.

Lemma state_done_modifies event self self' out :
  state_done event self = Some (self', out) ->
  modifies self self'
  /\ calls out = []
  /\ Forall (fun c => is_hook c = true) (yields out).
Proof.
  intros H. destruct event as [| |c| | |c q|c ev|fid m|fid m|]; cbn [Relay.state_done] in H;
    try discriminate;
    try (simplify_eq; split; [apply modifies_refl|split; [reflexivity|constructor]]).
  destruct (state_done_ends_every_stream c self) as (s1 & o1 & E & _ & Hh & _).
  cbn [Relay.state_done] in E. rewrite H in E. simplify_eq.
  rewrite calls_Yield, yields_Yield. split; [|split; [reflexivity|exact Hh]].
  destruct (Relay.end_streams addon _ (streams_by_id self) (tick self))
    as [[[l1 t1] o2]|]; [|discriminate].
  cbn in H.
  destruct self as [bc bs fl qc qs l h cc sc ts ce t]; cbn in *.
  destruct fl as [[fid ms er lv]|]; cbn in H.
  - destruct (negb cc && negb sc); [destruct er|]; cbn in H; simplify_eq; modifies_tac.
  - simplify_eq. modifies_tac.
Qed.

(** X5. Once the relay is done it stays done: whatever events it then
    handles, it makes no call on an engine, yields nothing but hooks
    that end or fail a flow, registers no engine and buffers no event.
    Events of an engine and injected messages are dropped. *)
Theorem done_relay_stays_done events self self' out :
  _handle_event self = state_done_ ->
  handle_events events self = Some (self', out) ->
  _handle_event self' = state_done_
  /\ calls out = []
  /\ Forall (fun c => is_hook c = true) (yields out)
  /\ quic_client self' = quic_client self
  /\ quic_server self' = quic_server self
  /\ buffer_from_client self' = buffer_from_client self
  /\ buffer_from_server self' = buffer_from_server self
  /\ (Forall (fun event => match event with ConnectionClosed _ => False | _ => True end)
        events ->
      self' = self /\ out = []).
Proof.
  revert self self' out.
  induction events as [|ev events IH]; intros self self' out Hh H; cbn in H.
  - simplify_eq. repeat split; auto; try constructor.
  - unfold Relay.handle_event in H. rewrite Hh in H.
    destruct (state_done ev self) as [[self1 out1]|] eqn:E1; [|discriminate].
    cbn in H.
    destruct (handle_events events self1) as [[self2 out2]|] eqn:E2; [|discriminate].
    cbn in H. simplify_eq.
    pose proof (state_done_modifies _ _ _ _ E1) as (Hm & Hc1 & Hy1).
    apply modifies_fields in Hm as (Hh1 & Hqc & Hqs & Hbc & Hbs & _).
    destruct (IH self1 self' out2) as (Hh2 & Hc2 & Hy2 & Hqc2 & Hqs2 & Hbc2 & Hbs2 & Hid);
      [congruence|exact E2|].
    split; [exact Hh2|]. split; [rewrite calls_app, Hc1, Hc2; reflexivity|].
    split; [rewrite yields_app; apply Forall_app; auto|].
    split; [congruence|]. split; [congruence|]. split; [congruence|].
    split; [congruence|].
    intros Hall. apply Forall_cons in Hall as [Hev Hall].
    destruct (Hid Hall) as [-> ->].
    destruct ev; try contradiction; cbn in E1; simplify_eq; auto.
Qed.

(** *** A side that has ended a stream *)

Lemma lookup_by_id_insert sid l i s s' :
  lookup_by_id sid l = Some (i, s) -> stream_id s' = sid ->
  lookup_by_id sid (<[i := s']> l) = Some (i, s').
Proof.
  unfold lookup_by_id. intros H Hs. apply list_find_Some in H as (Hi & _ & Hlt).
  apply list_find_Some. split; [|split].
  - apply list_lookup_insert_eq. eapply lookup_lt_Some. exact Hi.
  - exact Hs.
  - intros j y Hj Hji. rewrite list_lookup_insert_ne in Hj by lia. eauto.
Qed.

Lemma get_or_create_stream_found sid self i self' out :
  get_or_create_stream sid self = (i, self', out) ->
  exists stream, lookup_by_id sid (streams_by_id self') = Some (i, stream).
Proof.
  intros H. pose proof H as Hl. apply get_or_create_stream_lookup in Hl as (stream & Hi & Hsid).
  unfold Relay.get_or_create_stream in H.
  destruct (lookup_by_id sid (streams_by_id self)) as [[j s]|] eqn:El.
  - simplify_eq. eauto.
  - exists stream.
    assert (Hs : streams_by_id self' = streams_by_id self ++ [stream]
                 /\ i = length (streams_by_id self)).
    { destruct self as [bc bs fl qc qs l h cc sc ts ce t]; cbn in *.
      destruct fl as [f|]; cbn in H; simplify_eq; cbn in *;
        rewrite lookup_app_r, Nat.sub_diag in Hi by lia; cbn in Hi; simplify_eq;
        (split; [rewrite Hi|]; reflexivity). }
    destruct Hs as [-> ->]. apply lookup_by_id_snoc; assumption.
Qed.

(** The events that end a stream on the side they come from, and the
    events of a stream. *)
Definition ends_stream (event : QuicEvent) (sid : Z) : Prop :=
  match event with
  | StreamDataReceived _ true s | StreamReset _ s => s = sid
  | _ => False
  end.

Definition on_stream (event : QuicEvent) (sid : Z) : Prop :=
  match event with
  | StreamDataReceived _ _ s | StreamReset _ s => s = sid
  | _ => False
  end.

Lemma ended_stream_drops event sid from_client self pq i stream :
  peer_quic from_client self = Some pq ->
  lookup_by_id sid (streams_by_id self) = Some (i, stream) ->
  has_ended stream from_client = true ->
  on_stream event sid ->
  exists message,
    handle_quic_event event from_client self = Some (self, [Yield (Log message "debug")]).
Proof.
  unfold peer_quic, Relay.handle_quic_event. intros Hp Hl He Hon. rewrite Hp.
  assert (Hi : streams_by_id self !! i = Some stream).
  { unfold lookup_by_id in Hl. apply list_find_Some in Hl as (Hi & _). exact Hi. }
  destruct event as [| | |data| | | |data end_stream s|code s|]; cbn in Hon;
    try contradiction; subst s;
    unfold Relay.get_or_create_stream; rewrite Hl; rewrite Hi; cbn; rewrite He;
    eexists; reflexivity.
Qed.

Lemma ending_event_ends event sid from_client self pq self' out :
  peer_quic from_client self = Some pq ->
  ends_stream event sid ->
  handle_quic_event event from_client self = Some (self', out) ->
  exists i stream,
    lookup_by_id sid (streams_by_id self') = Some (i, stream)
    /\ has_ended stream from_client = true.
Proof.
  unfold peer_quic. intros Hp Hon H.
  unfold Relay.handle_quic_event in H. rewrite Hp in H.
  destruct event as [| | |data| | | |data [] s|code s|]; cbn in Hon;
    try contradiction; subst s.
  - destruct (get_or_create_stream sid self) as [[i self1] out0] eqn:Eg.
    destruct (get_or_create_stream_found _ _ _ _ _ Eg) as [stream Hl].
    assert (Hi : streams_by_id self1 !! i = Some stream).
    { unfold lookup_by_id in Hl. apply list_find_Some in Hl as (Hi & _). exact Hi. }
    assert (Hsid : stream_id stream = sid).
    { unfold lookup_by_id in Hl. apply list_find_Some in Hl as (_ & Hs & _). exact Hs. }
    rewrite Hi in H. cbn in H.
    destruct (has_ended stream from_client) eqn:He.
    { simplify_eq. eauto. }
    destruct (Stream.flow stream) as [f|]; cbn in H.
    + destruct (mark_ended addon _ from_client None (S (tick self1)))
        as [[[s2 t2] o3]|] eqn:Em; [|discriminate].
      cbn in H. simplify_eq.
      apply StreamProps.mark_ended_flags in Em as (_ & H1 & _ & H3).
      exists i, s2. split; [|exact H1]. cbn.
      apply (lookup_by_id_insert _ _ _ _ _ Hl). rewrite H3. reflexivity.
    + destruct (mark_ended addon stream from_client None (tick self1))
        as [[[s2 t2] o3]|] eqn:Em; [|discriminate].
      cbn in H. simplify_eq.
      apply StreamProps.mark_ended_flags in Em as (_ & H1 & _ & H3).
      exists i, s2. split; [|exact H1]. cbn.
      apply (lookup_by_id_insert _ _ _ _ _ Hl). rewrite H3. reflexivity.
  - destruct (get_or_create_stream sid self) as [[i self1] out0] eqn:Eg.
    destruct (get_or_create_stream_found _ _ _ _ _ Eg) as [stream Hl].
    assert (Hi : streams_by_id self1 !! i = Some stream).
    { unfold lookup_by_id in Hl. apply list_find_Some in Hl as (Hi & _). exact Hi. }
    assert (Hsid : stream_id stream = sid).
    { unfold lookup_by_id in Hl. apply list_find_Some in Hl as (_ & Hs & _). exact Hs. }
    rewrite Hi in H. cbn in H.
    destruct (has_ended stream from_client) eqn:He.
    { simplify_eq. eauto. }
    destruct (mark_ended addon stream from_client _ (tick self1))
      as [[[s2 t2] o3]|] eqn:Em; [|discriminate].
    cbn in H. simplify_eq.
    apply StreamProps.mark_ended_flags in Em as (_ & H1 & _ & H3).
    exists i, s2. split; [|exact H1]. cbn.
    apply (lookup_by_id_insert _ _ _ _ _ Hl). rewrite H3. reflexivity.
Qed.


(** *** Starting *)

(** Decides an equivalence between facts about a list of actions that
    is given in full. *)
Ltac iff_tac :=
  split;
  first
    [ (intros _; reflexivity)
    | (intros H; discriminate H)
    | (intros [H _]; discriminate H)
    | (intros [_ [? H]]; discriminate H)
    | (intros _; apply list_elem_of_In; cbn; tauto)
    | (intros H; apply list_elem_of_In in H; cbn in H; intuition discriminate)
    | (intros _; split; [reflexivity|eauto]) ].

(** X7. [state_start] handles [Start] and nothing else. It yields
    [OpenConnection] for the server exactly when the server connection
    has not been started. When that fails (the reply is a non-empty
    error), the layer records the error on its UDP flow and reports it
    with [UdpErrorHook], if it has a flow, closes the client connection
    and is done; otherwise it is ready. It makes no call on an engine. *)
Theorem state_start_opens_upstream self :
  let asked := match flow self with Some _ => S (tick self) | None => tick self end in
  let failed :=
    bool_decide (server_timestamp_start self = None) && truthy_opt (open_reply asked) in
  exists self' out,
    state_start Start self = Some (self', out)
    /\ _handle_event self' = (if failed then state_done_ else state_ready_)
    /\ (Yield (OpenConnection Server) ∈ out <-> server_timestamp_start self = None)
    /\ (Yield (CloseConnection Client) ∈ out <-> failed = true)
    /\ error <$> flow self'
       = (if failed then (fun _ => open_reply asked) <$> flow self else error <$> flow self)
    /\ (existsb is_udp_error_hook (yields out) = true <-> failed = true /\ is_Some (flow self))
    /\ calls out = []
    /\ (forall event, event <> Start -> state_start event self = None).
Proof.
  intros asked failed. subst asked failed.
  destruct self as [bc bs fl qc qs l h cc sc ts ce t].
  cbn [Relay.state_start Relay.flow Relay.tick Relay.server_timestamp_start].
  assert (Hother : forall event, event <> Start ->
            Relay.state_start addon open_reply event
              (mkQuicStreamLayer bc bs fl qc qs l h cc sc ts ce t) = None).
  { intros [] Hev; try reflexivity. congruence. }
  destruct fl as [f|], ts as [x|]; cbn.
  - eexists _, _. split; [reflexivity|]. cbn.
    repeat (split; [first [reflexivity|iff_tac]|]). exact Hother.
  - destruct (open_reply (S t)) as [[|a e]|] eqn:Er; cbn;
      eexists _, _; (split; [reflexivity|]); cbn;
      repeat (split; [first [reflexivity|iff_tac]|]); exact Hother.
  - eexists _, _. split; [reflexivity|]. cbn.
    repeat (split; [first [reflexivity|iff_tac]|]). exact Hother.
  - destruct (open_reply t) as [[|a e]|] eqn:Er; cbn;
      eexists _, _; (split; [reflexivity|]); cbn;
      repeat (split; [first [reflexivity|iff_tac]|]); exact Hother.
Qed.

(** *** Injected UDP messages *)

(** X8. An injected UDP message has to belong to the UDP flow of the
    relay: with another flow, or in a relay created with [ignore], the
    assertion fails. Otherwise it is handled as a datagram of the side
    the message names: with the engine of the other side registered, the
    message is appended to the flow, [UdpMessageHook] is yielded, and
    the content the addons leave in the message is sent to that engine
    as a datagram frame, followed by [QuicTransmit] for it. *)
Theorem injected_udp_message_is_relayed fid message self :
  (forall f pq,
     flow self = Some f -> flow_id f = fid ->
     peer_quic (from_client message) self = Some pq ->
     let g := append_message (mkMessage (from_client message) (content message)) f in
     let hook := UdpMessageHook g in
     exists self',
       state_ready (UdpMessageInjected fid message) self
       = Some (self',
               [Yield hook;
                Call pq (send_datagram_frame
                           (addon (tick self) hook (length (messages f)) (content message)));
                Yield (QuicTransmit (peer (from_client message)) pq)])
       /\ (messages <$> flow self') = Some
            (messages (run_hook addon (tick self) hook g)))
  /\ (forall f, flow self = Some f -> flow_id f <> fid ->
        state_ready (UdpMessageInjected fid message) self = None)
  /\ (flow self = None -> state_ready (UdpMessageInjected fid message) self = None).
Proof.
  split; [|split].
  - intros f pq Hf Hid Hp g hook. cbn [Relay.state_ready]. rewrite Hf.
    rewrite bool_decide_eq_true_2 by exact Hid.
    destruct (datagram_relayed addon stream_is_unidirectional stream_is_client_initiated
                QuicErrorCode_name H3ErrorCode_name
                (content message) (from_client message) self pq f Hp Hf)
      as (self' & H & Hf' & _ & _ & Hc).
    exists self'. rewrite H. cbn zeta in Hc. rewrite Hc.
    split; [reflexivity|]. rewrite Hf'. reflexivity.
  - intros f Hf Hid. cbn [Relay.state_ready]. rewrite Hf.
    rewrite bool_decide_eq_false_2 by exact Hid. reflexivity.
  - intros Hf. cbn [Relay.state_ready]. rewrite Hf. reflexivity.
Qed.

End Props.

End RelayMore.

(** *** Examples for the relay, continued *)

(** The relay on the functions of aioquic and an addon that leaves the
    messages alone. *)
Local Abbreviation relay_handle_events :=
  (Relay.handle_events addon_id no_reply
    aioquic_stream_is_unidirectional aioquic_stream_is_client_initiated
    aioquic_NO_ERROR aioquic_H3_NO_ERROR aioquic_QuicErrorCode_name aioquic_H3ErrorCode_name).

Local Abbreviation relay_handle_quic_event :=
  (Relay.handle_quic_event addon_id
    aioquic_stream_is_unidirectional aioquic_stream_is_client_initiated
    aioquic_QuicErrorCode_name aioquic_H3ErrorCode_name).

Local Abbreviation relay_get_or_create_stream :=
  (Relay.get_or_create_stream addon_id
     aioquic_stream_is_unidirectional aioquic_stream_is_client_initiated).

(** The first call for stream 4 creates it and yields [TcpStartHook];
    the second finds it. *)
Lemma get_or_create_stream_witness :
  exists self' out,
    relay_get_or_create_stream 4 (relay_ready false) = (0%nat, self', out)
    /\ out = [Relay.Yield (TcpStartHook (mkFlow 0 [] None true))]
    /\ relay_get_or_create_stream 4 self' = (0%nat, self', []).
Proof.
  eexists _, _. split; [reflexivity|]. split; [reflexivity|].
  match goal with
  | |- relay_get_or_create_stream 4 ?s = _ =>
      assert (H : relay_get_or_create_stream 4 (relay_ready false)
                  = (0%nat, s, [Relay.Yield (TcpStartHook (mkFlow 0 [] None true))]))
        by reflexivity
  end.
  apply RelayMore.get_or_create_stream_registers_once in H as [H _]. exact H.
Defined.

(** A relay whose stream 0 is open in both directions: a
    [ConnectionClosed] of the client ends the stream on the client
    side. *)
Lemma state_done_witness :
  let stream := Stream.mkQuicStream (Some (mkFlow 0 [] None true)) 0 false false in
  let self :=
    Relay.mkQuicStreamLayer [] [] (Some (mkFlow 0 [] None true))
      (Some 1%nat) (Some 2%nat) [stream] Relay.state_done_ false true (Some 0%float) ∅ 1 in
  exists self' out,
    Relay.state_done addon_id (ConnectionClosed Client) self = Some (self', Relay.Yield <$> out)
    /\ Forall2 (RelayMore.ended_by true) (Relay.streams_by_id self) (Relay.streams_by_id self')
    /\ Forall (fun c => RelayProps.is_hook c = true) out.
Proof.
  intros stream self.
  destruct (RelayMore.state_done_ends_every_stream addon_id Client self)
    as (self' & out & H & Hall & Hh & _).
  exists self', out. split; [exact H|]. split; [exact Hall|exact Hh].
Defined.

(** The relay from its creation through two streams, one ended by both
    sides, to the close of both connections. *)
Lemma ended_streams_witness :
  let events :=
    [Start; QuicStart Client (Some 1%nat); QuicStart Server (Some 2%nat);
     QuicConnectionEvent Client (StreamDataReceived "a" true 0);
     QuicConnectionEvent Server (StreamDataReceived "b" true 0);
     QuicConnectionEvent Client (StreamDataReceived "c" false 4);
     ConnectionClosed Client; ConnectionClosed Server] in
  exists self out,
    relay_handle_events events (Relay.init false true true (Some 0%float)) = Some (self, out)
    /\ length (Relay.streams_by_id self) = 2%nat
    /\ Forall RelayMore.settled (Relay.streams_by_id self).
Proof.
  intros events. eexists _, _. split; [vm_compute; reflexivity|]. split; [reflexivity|].
  match goal with
  | |- Forall _ (Relay.streams_by_id ?s) =>
      eapply (proj1 (RelayMore.ended_streams_are_not_live addon_id no_reply
                       aioquic_stream_is_unidirectional aioquic_stream_is_client_initiated
                       aioquic_NO_ERROR aioquic_H3_NO_ERROR
                       aioquic_QuicErrorCode_name aioquic_H3ErrorCode_name)
                events false true true (Some 0%float) s)
  end.
  vm_compute. reflexivity.
Defined.

(** A relay created with [ignore] that relays stream data and a
    datagram and is closed: it yields no hook. *)
Lemma ignored_relay_witness :
  let events :=
    [Start; QuicStart Client (Some 1%nat); QuicStart Server (Some 2%nat);
     QuicConnectionEvent Client (StreamDataReceived "abc" true 0);
     QuicConnectionEvent Server (DatagramFrameReceived "d");
     ConnectionClosed Client] in
  exists self out,
    relay_handle_events events (Relay.init true true true (Some 0%float)) = Some (self, out)
    /\ RelayProps.calls out
       = [(2%nat, Relay.send_stream_data 0 "abc" true); (1%nat, Relay.send_datagram_frame "d")]
    /\ Forall (fun c => RelayMore.is_flow_hook c = false) (RelayProps.yields out).
Proof.
  intros events. eexists _, _. split; [vm_compute; reflexivity|]. split; [reflexivity|].
  match goal with
  | |- Forall _ (RelayProps.yields ?o) =>
      assert (H : exists s, relay_handle_events events (Relay.init true true true (Some 0%float))
                            = Some (s, o)) by (eexists; vm_compute; reflexivity)
  end.
  destruct H as [s H].
  apply RelayMore.ignored_relay_yields_no_flow_hook in H as (_ & _ & H). exact H.
Defined.

(** A relay that is done: engine events and injected messages change
    nothing. *)
Lemma done_relay_witness :
  let self :=
    Relay.mkQuicStreamLayer [] [] (Some (mkFlow 0 [] None true))
      (Some 1%nat) (Some 2%nat) [] Relay.state_done_ true true (Some 0%float) ∅ 1 in
  let events :=
    [QuicConnectionEvent Client (DatagramFrameReceived "d");
     UdpMessageInjected 0 (mkMessage true "x")] in
  relay_handle_events events self = Some (self, []).
Proof.
  intros self events.
  assert (H : relay_handle_events events self = Some (self, [])) by reflexivity.
  pose proof H as H'.
  apply RelayMore.done_relay_stays_done in H' as (_ & _ & _ & _ & _ & _ & _ & Hid);
    [|reflexivity].
  destruct Hid as [_ _]; [repeat constructor|]. exact H.
Defined.


(** ** QuicLayer, ServerQuicLayer and ClientQuicLayer *)

Module LayerProps.

Import Relay(CloseEvent, mkCloseEvent, error_code, frame_type, reason_phrase).
Import Layer.

(** The actions of a run, also of one that ends in an exception. *)
Definition actions {Core Child A} (r : Result Core Child A) : list Action :=
  match r with
  | Ok _ _ out => out
  | Raise out => out
  | OutOfFuel => []
  end.

(** Unfolds the generators down to the layer and the actions. *)
Ltac run :=
  cbv [mbind mret M_bind M_ret bind ret get modify emit yield raise check answer
       the_quic the_tls engine_call time out_of_fuel].

Ltac run_in H :=
  cbv [mbind mret M_bind M_ret bind ret get modify emit yield raise check answer
       the_quic the_tls engine_call time out_of_fuel] in H.

Section Props.

Context {Core : Type} {Child : Type}.
Variable aioquic : Aioquic Core.
Variable env : Environment Child.

Local Abbreviation QuicLayer := (Layer.QuicLayer Core Child).
Local Abbreviation M := (Layer.M Core Child).

(** *** The table of connection ids *)

(** The key of a connection id for a layer. *)
Definition key_of (s : QuicLayer) (connection_id : bytes) : Address * bytes :=
  (sockname (client s), connection_id).

Lemma handle_connection_id_issued_client connection_id (s : QuicLayer) :
  class s = ClientQuicLayer_ ->
  handle_connection_id_issued connection_id s
  = match connections s !! key_of s connection_id with
    | None =>
        Ok tt (set_connections (<[key_of s connection_id := layer_id s]> (connections s)) s) []
    | Some _ => Raise []
    end.
Proof.
  intros Hc. unfold handle_connection_id_issued, key_of. run. rewrite Hc.
  destruct (connections s !! (sockname (client s), connection_id)); reflexivity.
Qed.

Lemma handle_connection_id_retired_client connection_id (s : QuicLayer) :
  class s = ClientQuicLayer_ ->
  handle_connection_id_retired connection_id s
  = match connections s !! key_of s connection_id with
    | Some owner =>
        if decide (owner = layer_id s)
        then Ok tt (set_connections (delete (key_of s connection_id) (connections s)) s) []
        else Raise []
    | None => Raise []
    end.
Proof.
  intros Hc. unfold handle_connection_id_retired, key_of. run. rewrite Hc.
  destruct (connections s !! (sockname (client s), connection_id)) as [owner|];
    [|reflexivity].
  cbn. destruct (decide (owner = layer_id s)) as [->|Hne].
  - rewrite bool_decide_eq_true_2 by reflexivity. reflexivity.
  - rewrite bool_decide_eq_false_2 by exact Hne. reflexivity.
Qed.

Lemma connections_set_the_conn f (s : QuicLayer) :
  connections (set_the_conn f s) = connections s.
Proof. unfold set_the_conn. destruct (conn s); reflexivity. Qed.

(** Termination does not touch the table. *)
Lemma handle_connection_terminated_connections event (s s' : QuicLayer) a out :
  handle_connection_terminated aioquic event s = Ok a s' out ->
  connections s' = connections s /\ quic s' = None.
Proof.
  unfold handle_connection_terminated. run.
  destruct (quic s) as [q|]; [|discriminate].
  destruct (tls s) as [t|]; [|discriminate].
  destruct (bool_decide (_state (engine q) = TERMINATED)); [|discriminate].
  destruct (negb (tls_established (the_conn s))); cbn; intros H; simplify_eq; cbn;
    rewrite ?connections_set_the_conn; auto.
Qed.

(** [start_tls] does not touch it either: the generator that would
    register the host connection id is never run. *)
Lemma start_tls_connections odcid (s s' : QuicLayer) ok out :
  start_tls aioquic env odcid s = Ok ok s' out ->
  connections s' = connections s.
Proof.
  unfold start_tls. run.
  destruct (bool_decide (quic s = None)); [|discriminate].
  destruct (bool_decide (tls s = None)); [|discriminate]. cbn.
  destruct (quic_tls_start env (tick s) _); cbn; intros H; simplify_eq; reflexivity.
Qed.

(** *** Reasoning about generators

    [post m s Q]: if the generator [m], run on the layer [s], comes to
    its end, then [Q] holds of its value, the layer and the actions. *)
Definition post {A} (m : M A) (s : QuicLayer) (Q : A -> QuicLayer -> list Action -> Prop)
  : Prop :=
  match m s with
  | Ok a s' out => Q a s' out
  | Raise _ | OutOfFuel => True
  end.

Lemma post_intro {A} (m : M A) s Q :
  (forall a s' out, m s = Ok a s' out -> Q a s' out) -> post m s Q.
Proof. unfold post. destruct (m s); auto. Qed.

Lemma post_elim {A} (m : M A) s Q a s' out :
  post m s Q -> m s = Ok a s' out -> Q a s' out.
Proof. unfold post. intros H E. rewrite E in H. exact H. Qed.

Lemma post_mono {A} (m : M A) s (Q Q' : A -> QuicLayer -> list Action -> Prop) :
  post m s Q -> (forall a s' out, Q a s' out -> Q' a s' out) -> post m s Q'.
Proof. unfold post. destruct (m s); auto. Qed.

Lemma post_bind {A B} (m : M A) (k : A -> M B) s Q :
  post m s (fun a s1 out1 => post (k a) s1 (fun b s2 out2 => Q b s2 (out1 ++ out2))) ->
  post (m ≫= k) s Q.
Proof.
  unfold post, mbind, M_bind, bind. destruct (m s) as [a s1 out1| |]; auto.
  destruct (k a s1); auto.
Qed.

Lemma post_ret {A} (a : A) s (Q : A -> QuicLayer -> list Action -> Prop) :
  Q a s [] -> post (mret a) s Q.
Proof. auto. Qed.

Lemma post_get s (Q : QuicLayer -> QuicLayer -> list Action -> Prop) :
  Q s s [] -> post get s Q.
Proof. auto. Qed.

Lemma post_modify f s (Q : unit -> QuicLayer -> list Action -> Prop) :
  Q tt (f s) [] -> post (modify f) s Q.
Proof. auto. Qed.

Lemma post_emit a s (Q : unit -> QuicLayer -> list Action -> Prop) :
  Q tt s [a] -> post (emit a) s Q.
Proof. auto. Qed.

Lemma post_check b s (Q : unit -> QuicLayer -> list Action -> Prop) :
  (b = true -> Q tt s []) -> post (check b) s Q.
Proof. destruct b; cbn; auto. Qed.

Lemma post_raise {A} s (Q : A -> QuicLayer -> list Action -> Prop) : post raise s Q.
Proof. exact I. Qed.

Lemma post_out_of_fuel {A} s (Q : A -> QuicLayer -> list Action -> Prop) :
  post out_of_fuel s Q.
Proof. exact I. Qed.

Lemma post_for_each {X} (l : list X) (f : X -> M unit) (I : QuicLayer -> list Action -> Prop) :
  forall s out0,
  I s out0 ->
  (forall x s1 out1, x ∈ l -> I s1 out1 ->
     post (f x) s1 (fun _ s2 out2 => I s2 (out1 ++ out2))) ->
  post (for_each l f) s (fun _ s' out => I s' (out0 ++ out)).
Proof.
  induction l as [|x l IH]; intros s out0 H0 Hf; cbn.
  - unfold post. cbn. rewrite app_nil_r. exact H0.
  - apply post_bind. eapply post_mono; [apply (Hf x s out0); [left|exact H0]|].
    cbn. intros _ s1 out1 H1.
    eapply post_mono; [apply (IH s1 (out0 ++ out1) H1)|].
    + intros y s2 out2 Hy. apply Hf. right. exact Hy.
    + cbn. intros _ s2 out2. rewrite app_assoc. auto.
Qed.

(** One step through a generator: a bind, a primitive, a case. *)
Ltac wp_step :=
  lazymatch goal with
  | |- post (mbind _ _) _ _ => apply post_bind
  | |- post (mret _) _ _ => apply post_ret; cbv beta
  | |- post (ret _) _ _ => apply post_ret; cbv beta
  | |- post get _ _ => apply post_get; cbv beta
  | |- post (modify _) _ _ => apply post_modify; cbv beta
  | |- post (emit _) _ _ => apply post_emit; cbv beta
  | |- post (yield _) _ _ => apply post_emit; cbv beta
  | |- post raise _ _ => apply post_raise
  | |- post out_of_fuel _ _ => apply post_out_of_fuel
  | |- post (check _) _ _ => apply post_check; cbv beta; intros ?
  | |- post (answer _) _ _ => unfold answer
  | |- post (time _) _ _ => unfold time, answer
  | |- post the_quic _ _ => unfold the_quic
  | |- post the_tls _ _ => unfold the_tls
  | |- post (engine_call _ _) _ _ => unfold engine_call
  | |- post (match ?x with _ => _ end) _ _ => destruct x eqn:?
  | |- post (let '(_, _) := ?x in _) _ _ => destruct x eqn:?
  | |- post (if ?b then _ else _) _ _ => destruct b eqn:?
  end.

Ltac wp := repeat wp_step.

(** *** What the helpers of the layer emit and change *)

(** An action that is neither an event for the child nor the result of
    [next_event]. *)
Definition inert (a : Action) : bool :=
  match a with
  | ToChild _ | Engine _ (NextEvent _) => false
  | _ => true
  end.

Definition all_inert (out : list Action) : Prop := forallb inert out = true.

Lemma all_inert_app out1 out2 : all_inert (out1 ++ out2) <-> all_inert out1 /\ all_inert out2.
Proof. unfold all_inert. rewrite forallb_app, andb_true_iff. reflexivity. Qed.

(** The layer after a step: the identities it has given out only grow,
    and the wakeups registered under an identity given out before the
    step are as they were. *)
Definition extends (s s' : QuicLayer) : Prop :=
  (next_id s <= next_id s')%nat
  /\ forall k, (k < next_id s)%nat -> _wakeup_commands s' !! k = _wakeup_commands s !! k.

Lemma extends_refl s : extends s s.
Proof. split; auto. Qed.

Lemma extends_trans s1 s2 s3 : extends s1 s2 -> extends s2 s3 -> extends s1 s3.
Proof.
  intros [H1 H2] [H3 H4]. split; [lia|].
  intros k Hk. rewrite H4 by lia. auto.
Qed.

Lemma extends_set_the_conn f (s : QuicLayer) : extends s (set_the_conn f s).
Proof. unfold set_the_conn, extends. destruct (conn s); cbn; auto. Qed.

Lemma extends_set_engine e (s : QuicLayer) : extends s (set_engine e s).
Proof. unfold extends. cbn. auto. Qed.

(** A state reached by steps that each extend the one before. *)
Ltac extends_tac :=
  repeat first
    [ apply extends_refl
    | assumption
    | (eapply extends_trans; [|apply extends_set_the_conn])
    | (eapply extends_trans; [|apply extends_set_engine])
    | (split; cbn; [lia | intros; reflexivity]) ].

Definition helper_spec {A} (m : M A) : Prop :=
  forall s, post m s (fun _ s' out => all_inert out /\ extends s s').

Lemma handle_connection_id_issued_spec connection_id :
  helper_spec (handle_connection_id_issued connection_id).
Proof.
  intros s. unfold handle_connection_id_issued. wp; (split; [reflexivity|]);
    split; cbn; auto.
Qed.

Lemma handle_connection_id_retired_spec connection_id :
  helper_spec (handle_connection_id_retired connection_id).
Proof.
  intros s. unfold handle_connection_id_retired. wp; (split; [reflexivity|]);
    split; cbn; auto.
Qed.

Lemma handle_connection_terminated_spec event :
  helper_spec (handle_connection_terminated aioquic event).
Proof.
  intros s. unfold handle_connection_terminated. wp;
    (split; [cbn; destruct (conn s); reflexivity|]); extends_tac.
Qed.

Lemma QuicLayer_handle_handshake_completed_spec alpn_protocol early resumed :
  helper_spec
    (QuicLayer_handle_handshake_completed aioquic env alpn_protocol early resumed).
Proof.
  intros s. unfold QuicLayer_handle_handshake_completed. wp;
    (split; [cbn; destruct (conn s); reflexivity|]); extends_tac.
Qed.

Lemma start_tls_spec odcid : helper_spec (start_tls aioquic env odcid).
Proof.
  intros s. unfold start_tls. wp;
    (split; [cbn; destruct (conn s); reflexivity|]); extends_tac.
Qed.

(** *** transmit *)

(** What [transmit] does with one datagram of the engine. *)
Definition send_action (s : QuicLayer) (datagram : bytes * Address) : Action :=
  let '(data, addr) := datagram in
  if decide (addr = peername (the_conn s)) then Yield (SendData (conn s) data)
  else
    match default None (_routes s !! addr) with
    | None => Yield (Log (LogNoRoute (conn s) addr) "info")
    | Some h => Write h data
    end.

Definition is_request_wakeup (a : Action) : bool :=
  match a with Yield (RequestWakeup _ _) => true | _ => false end.

Lemma send_action_props s d :
  inert (send_action s d) = true /\ is_request_wakeup (send_action s d) = false.
Proof.
  destruct d as [data addr]. unfold send_action.
  destruct (decide (addr = peername (the_conn s))); [auto|].
  destruct (default None (_routes s !! addr)); auto.
Qed.

Lemma send_loop datagrams : forall s : QuicLayer,
  for_each datagrams (fun '(data, addr) =>
    s ← get;
    if decide (addr = peername (the_conn s)) then yield (SendData (conn s) data)
    else
      match default None (_routes s !! addr) with
      | None => yield (Log (LogNoRoute (conn s) addr) "info")
      | Some h => emit (Write h data)
      end) s
  = Ok tt s (send_action s <$> datagrams).
Proof.
  induction datagrams as [|[data addr] l IH]; intros s; [reflexivity|].
  cbn [for_each fmap list_fmap]. run. fold (@for_each Core Child (bytes * Address)).
  unfold send_action at 1.
  destruct (decide (addr = peername (the_conn s))).
  - rewrite IH. reflexivity.
  - destruct (default None (_routes s !! addr)); rewrite IH; reflexivity.
Qed.

(** [transmit], in full. *)
Definition transmit_result (s : QuicLayer) : Result Core Child unit :=
  match quic s with
  | None => Raise []
  | Some q =>
      let now := loop_time env (tick s) in
      let '(datagrams, e) := datagrams_to_send aioquic now (engine q) in
      let s1 := set_engine e (set_tick (S (tick s)) s) in
      let sent := Engine (quic_id q) (DatagramsToSend now) :: (send_action s1 <$> datagrams) in
      let timer := get_timer aioquic e in
      if any_earlier timer (_wakeup_commands s) then Ok tt s1 sent
      else
        let now2 := loop_time env (S (tick s)) in
        Ok tt
          (set_next_id (S (next_id s))
             (set_wakeup_commands (<[next_id s := timer]> (_wakeup_commands s))
                (set_tick (S (S (tick s))) s1)))
          (sent ++ [Yield (RequestWakeup (next_id s) (PrimFloat.sub timer now2))])
  end.

Lemma transmit_eq (s : QuicLayer) : transmit aioquic env s = transmit_result s.
Proof.
  unfold transmit, transmit_result.
  cbv [mbind mret M_bind M_ret bind ret get modify emit yield raise answer the_quic time].
  destruct (quic s) as [q|] eqn:Eq; [|reflexivity].
  destruct (datagrams_to_send aioquic (loop_time env (tick s)) (engine q))
    as [datagrams e] eqn:Ed.
  rewrite send_loop. cbn. rewrite Eq. cbn.
  destruct (any_earlier (get_timer aioquic e) (_wakeup_commands s)); cbn.
  - rewrite app_nil_r. reflexivity.
  - reflexivity.
Qed.

Lemma any_earlier_iff timer (m : gmap nat float) :
  any_earlier timer m = true
  <-> exists k existing, m !! k = Some existing /\ PrimFloat.leb existing timer = true.
Proof.
  unfold any_earlier. rewrite existsb_exists. split.
  - intros ([k d] & Hin & Hle). exists k, d. split; [|exact Hle].
    apply elem_of_map_to_list. apply list_elem_of_In. exact Hin.
  - intros (k & d & Hk & Hle). exists (k, d). split; [|exact Hle].
    apply list_elem_of_In. apply elem_of_map_to_list. exact Hk.
Qed.

Lemma transmit_spec : helper_spec (transmit aioquic env).
Proof.
  intros s. apply post_intro. intros a s' out. rewrite transmit_eq. unfold transmit_result.
  destruct (quic s) as [q|]; [|discriminate].
  destruct (datagrams_to_send aioquic _ _) as [datagrams e].
  assert (Hs : all_inert (send_action (set_engine e (set_tick (S (tick s)) s)) <$> datagrams)).
  { unfold all_inert. apply forallb_forall. intros x Hx.
    apply list_elem_of_In, list_elem_of_fmap in Hx as (d & -> & _).
    apply send_action_props. }
  destruct (any_earlier _ _); intros H; simplify_eq.
  - split; [exact Hs|]. split; cbn; auto.
  - split; [apply all_inert_app; split; [exact Hs|reflexivity]|].
    split; cbn; [lia|]. intros k Hk. apply lookup_insert_ne. lia.
Qed.

(** *** Induction on the depth of calls *)

(** The two methods that call each other satisfy a pair of contracts. *)
Definition satisfies (self : Methods Core Child)
    (Ppe : bool -> QuicLayer -> QuicLayer -> list Action -> Prop)
    (Pec : bool -> Event -> QuicLayer -> QuicLayer -> list Action -> Prop) : Prop :=
  (forall direct s, post (process_events_ self direct) s (fun _ s' out => Ppe direct s s' out))
  /\ (forall direct event s,
        post (event_to_child_ self direct event) s
          (fun _ s' out => Pec direct event s s' out)).

Lemma methods_satisfy Ppe Pec :
  (forall self, satisfies self Ppe Pec ->
     forall direct s,
       post (process_events_body aioquic env self direct) s
         (fun _ s' out => Ppe direct s s' out)) ->
  (forall self, satisfies self Ppe Pec ->
     forall direct event s,
       post (event_to_child_body aioquic env self direct event) s
         (fun _ s' out => Pec direct event s s' out)) ->
  forall fuel, satisfies (methods aioquic env fuel) Ppe Pec.
Proof.
  intros Hpe Hec. induction fuel as [|fuel IH].
  - split; intros; exact I.
  - split; cbn.
    + apply Hpe. exact IH.
    + apply Hec. exact IH.
Qed.

(** A call of a helper, or of one of the two methods, in a generator. *)
Lemma post_call {A} (m : M A) s (P : A -> QuicLayer -> list Action -> Prop) Q :
  post m s P -> (forall a s' out, P a s' out -> Q a s' out) -> post m s Q.
Proof. apply post_mono. Qed.

(** *** The identities given out only grow *)

Lemma extends_step (s s' : QuicLayer) :
  next_id s' = next_id s -> _wakeup_commands s' = _wakeup_commands s -> extends s s'.
Proof. intros H1 H2. split; [lia|]. intros k _. rewrite H2. reflexivity. Qed.

Lemma next_id_set_the_conn f (s : QuicLayer) : next_id (set_the_conn f s) = next_id s.
Proof. unfold set_the_conn. destruct (conn s); reflexivity. Qed.

Lemma wakeup_commands_set_the_conn f (s : QuicLayer) :
  _wakeup_commands (set_the_conn f s) = _wakeup_commands s.
Proof. unfold set_the_conn. destruct (conn s); reflexivity. Qed.

(** Closes [extends s s'] when [s'] is [s] after steps that are known
    to extend and updates of other fields. *)
Ltac extends_chain :=
  repeat lazymatch goal with
  | |- extends ?a ?a => apply extends_refl
  | H : extends ?x ?y |- extends ?a ?y => apply (extends_trans a x y); [|exact H]
  | |- extends ?a (set_tick _ ?b) =>
      apply (extends_trans a b); [|apply extends_step; reflexivity]
  | |- extends ?a (set_engine _ ?b) =>
      apply (extends_trans a b); [|apply extends_step; reflexivity]
  | |- extends ?a (set_child_layer _ ?b) =>
      apply (extends_trans a b); [|apply extends_step; reflexivity]
  | |- extends ?a (set_open_command _ ?b) =>
      apply (extends_trans a b); [|apply extends_step; reflexivity]
  | |- extends ?a (set_quic _ ?b) =>
      apply (extends_trans a b); [|apply extends_step; reflexivity]
  | |- extends ?a (set_tls _ ?b) =>
      apply (extends_trans a b); [|apply extends_step; reflexivity]
  | |- extends ?a (set_the_conn _ ?b) =>
      apply (extends_trans a b); [|apply extends_set_the_conn]
  end.

Definition Pextends (s s' : QuicLayer) (out : list Action) : Prop := extends s s'.

(** Steps through a generator, using [call] where a method is called. *)
Ltac wp_calls call := repeat first [wp_step | call].

Ltac call_helper :=
  lazymatch goal with
  | |- post (transmit _ _) ?s _ =>
      eapply post_call; [apply transmit_spec|]; cbv beta; intros ? ? ? [? ?]
  | |- post (start_tls _ _ _) ?s _ =>
      eapply post_call; [apply start_tls_spec|]; cbv beta; intros ? ? ? [? ?]
  | |- post (handle_connection_terminated _ _) ?s _ =>
      eapply post_call; [apply handle_connection_terminated_spec|];
      cbv beta; intros ? ? ? [? ?]
  | |- post (handle_connection_id_issued _) ?s _ =>
      eapply post_call; [apply handle_connection_id_issued_spec|];
      cbv beta; intros ? ? ? [? ?]
  | |- post (handle_connection_id_retired _) ?s _ =>
      eapply post_call; [apply handle_connection_id_retired_spec|];
      cbv beta; intros ? ? ? [? ?]
  | |- post (QuicLayer_handle_handshake_completed _ _ _ _ _) ?s _ =>
      eapply post_call; [apply QuicLayer_handle_handshake_completed_spec|];
      cbv beta; intros ? ? ? [? ?]
  end.

Section Extends.

Variable self : Methods Core Child.
Hypothesis Hself :
  satisfies self (fun _ s s' _ => extends s s') (fun _ _ s s' _ => extends s s').

Ltac call_self :=
  lazymatch goal with
  | |- post (process_events_ self _) ?s _ =>
      eapply post_call; [apply (proj1 Hself)|]; cbv beta; intros ? ? ? ?
  | |- post (event_to_child_ self _ _) ?s _ =>
      eapply post_call; [apply (proj2 Hself)|]; cbv beta; intros ? ? ? ?
  end.

Lemma handle_handshake_completed_extends direct alpn_protocol early resumed s :
  post (handle_handshake_completed aioquic env self direct alpn_protocol early resumed) s
    (fun _ s' _ => extends s s').
Proof.
  unfold handle_handshake_completed.
  wp_calls ltac:(first [call_helper | call_self]); extends_chain.
Qed.

Lemma open_server_connection_extends direct command s :
  post (open_server_connection aioquic env self direct command) s
    (fun _ s' _ => extends s s').
Proof.
  unfold open_server_connection.
  wp_calls ltac:(first [call_helper | call_self]); extends_chain.
Qed.

Lemma pass_command_extends direct command s :
  post (pass_command aioquic env self direct command) s (fun _ s' _ => extends s s').
Proof.
  unfold pass_command.
  wp_calls ltac:(first
    [ call_helper | call_self
    | (eapply post_call; [apply open_server_connection_extends|]; cbv beta; intros ? ? ? ?) ]);
    extends_chain.
Qed.

Lemma process_events_body_extends direct s :
  post (process_events_body aioquic env self direct) s (fun _ s' _ => extends s s').
Proof.
  unfold process_events_body.
  wp_calls ltac:(first
    [ call_helper | call_self
    | (eapply post_call; [apply handle_handshake_completed_extends|];
       cbv beta; intros ? ? ? ?) ]);
    extends_chain.
Qed.

Lemma event_to_child_body_extends direct event s :
  post (event_to_child_body aioquic env self direct event) s (fun _ s' _ => extends s s').
Proof.
  unfold event_to_child_body. wp.
  eapply post_mono.
  - apply (post_for_each _ _ (fun s1 _ => extends s s1) _ []).
    + extends_chain.
    + intros command s1 out1 _ H1.
      wp_calls ltac:(first
        [ call_helper | call_self
        | (eapply post_call; [apply pass_command_extends|]; cbv beta; intros ? ? ? ?) ]);
        extends_chain.
  - cbv beta. auto.
Qed.

End Extends.

(** Every run of the two methods extends the layer. *)
Lemma methods_extend fuel :
  satisfies (methods aioquic env fuel)
    (fun _ s s' _ => extends s s') (fun _ _ s s' _ => extends s s').
Proof.
  apply methods_satisfy.
  - intros self Hself direct s. apply process_events_body_extends. exact Hself.
  - intros self Hself direct event s. apply event_to_child_body_extends. exact Hself.
Qed.

(** *** Events reach the child in the order the engine gives them *)

Definition is_data (event : QuicEvent) : bool :=
  match event with
  | DatagramFrameReceived _ | StreamDataReceived _ _ _ | StreamReset _ _ => true
  | _ => false
  end.

(** The engine events handed to the child, and the data events the
    engine has given, both in order. *)
Definition forwarded (out : list Action) : list QuicEvent :=
  omap (fun a => match a with
                 | ToChild (QuicConnectionEvent _ event) => Some event
                 | _ => None
                 end) out.

Definition dequeued (out : list Action) : list QuicEvent :=
  omap (fun a => match a with
                 | Engine _ (NextEvent (Some event)) =>
                     if is_data event then Some event else None
                 | _ => None
                 end) out.

Definition carried (e : Event) : list QuicEvent :=
  match e with QuicConnectionEvent _ event => [event] | _ => [] end.

Lemma forwarded_app out1 out2 : forwarded (out1 ++ out2) = forwarded out1 ++ forwarded out2.
Proof. apply omap_app. Qed.

Lemma dequeued_app out1 out2 : dequeued (out1 ++ out2) = dequeued out1 ++ dequeued out2.
Proof. apply omap_app. Qed.

Lemma inert_forwarded out : all_inert out -> forwarded out = [].
Proof.
  unfold all_inert. induction out as [|a out IH]; [reflexivity|].
  intros H. cbn in H. apply andb_prop in H as [Ha Hout].
  change (forwarded (a :: out)) with (forwarded ([a] ++ out)).
  rewrite forwarded_app, (IH Hout).
  destruct a as [| |? []| | | | | |]; try discriminate; reflexivity.
Qed.

Lemma inert_dequeued out : all_inert out -> dequeued out = [].
Proof.
  unfold all_inert. induction out as [|a out IH]; [reflexivity|].
  intros H. cbn in H. apply andb_prop in H as [Ha Hout].
  change (dequeued (a :: out)) with (dequeued ([a] ++ out)).
  rewrite dequeued_app, (IH Hout).
  destruct a as [| |? []| | | | | |]; try discriminate; reflexivity.
Qed.

(** Closes an equation between [forwarded] and [dequeued] of a run
    from what is known of its parts. *)
Ltac order_tac :=
  repeat match goal with
  | H : all_inert ?o |- _ =>
      pose proof (inert_forwarded o H); pose proof (inert_dequeued o H); clear H
  end;
  rewrite ?forwarded_app, ?dequeued_app;
  repeat match goal with H : forwarded ?o = _ |- _ => rewrite H; clear H end;
  repeat match goal with H : dequeued ?o = _ |- _ => rewrite H; clear H end;
  cbn; rewrite ?app_nil_r; try reflexivity.

Section Order.

Variable self : Methods Core Child.
Hypothesis Hself :
  satisfies self
    (fun _ _ _ out => forwarded out = dequeued out)
    (fun _ event _ _ out => forwarded out = carried event ++ dequeued out).

Ltac call_self :=
  lazymatch goal with
  | |- post (process_events_ self _) ?s _ =>
      eapply post_call; [apply (proj1 Hself)|]; cbv beta; intros ? ? ? ?
  | |- post (event_to_child_ self _ _) ?s _ =>
      eapply post_call; [apply (proj2 Hself)|]; cbv beta; intros ? ? ? ?
  end.

Lemma handle_handshake_completed_order direct alpn_protocol early resumed s :
  post (handle_handshake_completed aioquic env self direct alpn_protocol early resumed) s
    (fun _ _ out => forwarded out = dequeued out).
Proof.
  unfold handle_handshake_completed.
  wp_calls ltac:(first [call_helper | call_self]); order_tac.
Qed.

Lemma open_server_connection_order direct command s :
  post (open_server_connection aioquic env self direct command) s
    (fun _ _ out => forwarded out = dequeued out).
Proof.
  unfold open_server_connection.
  wp_calls ltac:(first [call_helper | call_self]); order_tac.
Qed.

Lemma pass_command_order direct command s :
  post (pass_command aioquic env self direct command) s
    (fun _ _ out => forwarded out = dequeued out).
Proof.
  unfold pass_command.
  wp_calls ltac:(first
    [ call_helper | call_self
    | (eapply post_call; [apply open_server_connection_order|]; cbv beta; intros ? ? ? ?) ]);
    order_tac.
Qed.

Lemma process_events_body_order direct s :
  post (process_events_body aioquic env self direct) s
    (fun _ _ out => forwarded out = dequeued out).
Proof.
  unfold process_events_body.
  wp_calls ltac:(first
    [ call_helper | call_self
    | (eapply post_call; [apply handle_handshake_completed_order|];
       cbv beta; intros ? ? ? ?) ]);
    order_tac.
Qed.

Lemma event_to_child_body_order direct event s :
  post (event_to_child_body aioquic env self direct event) s
    (fun _ _ out => forwarded out = carried event ++ dequeued out).
Proof.
  unfold event_to_child_body. wp.
  eapply post_mono.
  - apply (post_for_each _ _ (fun _ out => forwarded out = dequeued out) _ []).
    + reflexivity.
    + intros command s1 out1 _ H1.
      wp_calls ltac:(first
        [ call_helper | call_self
        | (eapply post_call; [apply pass_command_order|]; cbv beta; intros ? ? ? ?) ]);
        order_tac.
  - cbv beta. intros _ s' out H.
    cbn [app] in H |- *.
    change (ToChild event :: out) with ([ToChild event] ++ out).
    rewrite forwarded_app, dequeued_app, H. destruct event; reflexivity.
Qed.

End Order.

(** In every run of [process_events], the engine events handed to the
    child are the data events [next_event] has given, in that order. *)
Lemma methods_in_order fuel :
  satisfies (methods aioquic env fuel)
    (fun _ _ _ out => forwarded out = dequeued out)
    (fun _ event _ _ out => forwarded out = carried event ++ dequeued out).
Proof.
  apply methods_satisfy.
  - intros self Hself direct s. apply process_events_body_order. exact Hself.
  - intros self Hself direct event s. apply event_to_child_body_order. exact Hself.
Qed.


(** *** Wakeups *)

(** The wakeups a run requests: the identity of each command and its
    delay. *)
Definition requests (out : list Action) : list (nat * float) :=
  omap (fun a => match a with
                 | Yield (RequestWakeup id delay) => Some (id, delay)
                 | _ => None
                 end) out.

Lemma requests_app out1 out2 : requests (out1 ++ out2) = requests out1 ++ requests out2.
Proof. apply omap_app. Qed.

Lemma requests_sent s datagrams : requests (send_action s <$> datagrams) = [].
Proof.
  induction datagrams as [|d l IH]; [reflexivity|].
  change (requests ([send_action s d] ++ (send_action s <$> l)) = []).
  rewrite requests_app, IH, app_nil_r.
  destruct (send_action_props s d) as [_ H].
  destruct (send_action s d) as [[]| | | | | | | |]; try reflexivity; discriminate.
Qed.

(** An outstanding wakeup whose deadline is not after [timer]. *)
Definition earlier_outstanding (timer : float) (s : QuicLayer) : Prop :=
  exists command existing,
    _wakeup_commands s !! command = Some existing /\ PrimFloat.leb existing timer = true.

(** The three subclasses leave a [Wakeup] to [QuicLayer._handle_event]. *)
Lemma handle_event_Wakeup fuel command (s : QuicLayer) :
  _handle_event aioquic env fuel (Wakeup command) s
  = QuicLayer_handle_event aioquic env fuel (Wakeup command) s.
Proof.
  unfold _handle_event, ServerQuicLayer_handle_event, ClientQuicLayer_handle_event. run.
  destruct (class s), (_open_command s), (tls s);
    destruct (QuicLayer_handle_event aioquic env fuel (Wakeup command) s); reflexivity.
Qed.

(** C8. [transmit] requests a wakeup exactly when no outstanding wakeup
    has a deadline less than or equal to the timer of the engine: it
    then yields one [RequestWakeup], whose delay is the timer minus the
    time of the event loop read for it, and records the timer in the
    registry under the new command; otherwise it yields none and leaves
    the registry as it is. And when the [Wakeup] of a registered command
    arrives, the entry of the command is gone from the registry when
    [_handle_event] returns. [transmit] returns whenever the layer has
    an engine; and the [Wakeup] of a registered command in a layer
    without an engine only removes the entry. *)
Theorem wakeup_requested_iff_no_earlier_deadline :
  (forall (s s' : QuicLayer) out,
     transmit aioquic env s = Ok tt s' out ->
     exists q,
       quic s' = Some q
       /\ let timer := get_timer aioquic (engine q) in
          (earlier_outstanding timer s ->
             requests out = [] /\ _wakeup_commands s' = _wakeup_commands s)
          /\ (~ earlier_outstanding timer s ->
                requests out
                = [(next_id s, PrimFloat.sub timer (loop_time env (Nat.pred (tick s'))))]
                /\ _wakeup_commands s' = <[next_id s := timer]> (_wakeup_commands s)))
  /\ (forall fuel command (s s' : QuicLayer) out,
        is_Some (_wakeup_commands s !! command) ->
        (command < next_id s)%nat ->
        _handle_event aioquic env fuel (Wakeup command) s = Ok tt s' out ->
        _wakeup_commands s' !! command = None)
  /\ (forall (s : QuicLayer) q,
        quic s = Some q -> exists s' out, transmit aioquic env s = Ok tt s' out)
  /\ (forall fuel command (s : QuicLayer) timer,
        _wakeup_commands s !! command = Some timer ->
        quic s = None ->
        _handle_event aioquic env fuel (Wakeup command) s
        = Ok tt (set_wakeup_commands (delete command (_wakeup_commands s)) s) []).
Proof.
  split; [|split; [|split]].
  3:{ intros s q Hq. rewrite transmit_eq. unfold transmit_result. rewrite Hq.
      destruct (datagrams_to_send aioquic _ _) as [datagrams e].
      destruct (any_earlier _ _); eexists _, _; reflexivity. }
  3:{ intros fuel command s timer Ht Hq. rewrite handle_event_Wakeup.
      unfold QuicLayer_handle_event. run. rewrite Hq, Ht. reflexivity. }
  - intros s s' out. rewrite transmit_eq. unfold transmit_result.
    destruct (quic s) as [q|] eqn:Eq; [|discriminate].
    destruct (datagrams_to_send aioquic _ _) as [datagrams e].
    destruct (any_earlier (get_timer aioquic e) (_wakeup_commands s)) eqn:Ea;
      intros H; simplify_eq; cbn; rewrite Eq; cbn;
      (eexists; split; [reflexivity|]); cbn.
    + split.
      * intros _. split; [|reflexivity].
        change (requests ([Engine (quic_id q) (DatagramsToSend (loop_time env (tick s)))]
                          ++ (send_action (set_engine e (set_tick (S (tick s)) s))
                                <$> datagrams)) = []).
        rewrite requests_app, requests_sent. reflexivity.
      * intros Hno. exfalso. apply Hno. apply any_earlier_iff. exact Ea.
    + split.
      * intros Hyes. apply any_earlier_iff in Hyes. congruence.
      * intros _. split; [|reflexivity].
        change (requests (([Engine (quic_id q) (DatagramsToSend (loop_time env (tick s)))]
                           ++ (send_action (set_engine e (set_tick (S (tick s)) s))
                                 <$> datagrams))
                          ++ [Yield (RequestWakeup (next_id s)
                                       (PrimFloat.sub (get_timer aioquic e)
                                          (loop_time env (S (tick s)))))])
                = [(next_id s,
                    PrimFloat.sub (get_timer aioquic e) (loop_time env (S (tick s))))]).
        rewrite !requests_app, requests_sent. reflexivity.
  - intros fuel command s s' out [timer Ht] Hlt. rewrite handle_event_Wakeup.
    intros H.
    assert (Hpost : post (QuicLayer_handle_event aioquic env fuel (Wakeup command)) s
                      (fun _ s' _ => _wakeup_commands s' !! command = None)).
    { unfold QuicLayer_handle_event. apply post_bind, post_get. cbv beta.
      assert (Hw : post
                (match _wakeup_commands s !! command with
                 | Some timer =>
                     modify (set_wakeup_commands (delete command (_wakeup_commands s))) ;;
                     match quic s with
                     | Some _ =>
                         now ← time env;
                         engine_call (HandleTimer (py_max timer now))
                           (handle_timer aioquic (py_max timer now)) ;;
                         process_events aioquic env fuel
                     | None => mret tt
                     end
                 | None => event_to_child aioquic env fuel (Wakeup command)
                 end) s
                (fun _ s' out => _wakeup_commands s' !! command = None)).
      { rewrite Ht. apply post_bind, post_modify. cbv beta.
        set (s1 := set_wakeup_commands (delete command (_wakeup_commands s)) s).
        assert (H1 : _wakeup_commands s1 !! command = None) by apply lookup_delete_eq.
        assert (Hlt1 : (command < next_id s1)%nat) by exact Hlt.
        clearbody s1.
        destruct (quic s) as [q|]; [|apply post_ret; exact H1].
        wp.
        eapply post_call; [apply (proj1 (methods_extend fuel))|].
        cbv beta. intros _ s2 out2 [_ Hk]. rewrite Hk; [exact H1|exact Hlt1]. }
      destruct (quic s); exact Hw. }
    exact (post_elim _ _ _ _ _ _ Hpost H).
Qed.

(** *** How a run of process_events ends *)

(** What [process_events] does with a [ConnectionTerminated] event
    before it returns. *)
Definition on_connection_terminated (event : CloseEvent) : M unit :=
  handle_connection_terminated aioquic event ;;
  s ← get;
  if connected (the_conn s) then yield (CloseConnection (conn s)) else mret tt.

(** The reason and the level of the log entry of a termination. *)
Definition close_reason (event : CloseEvent) : string :=
  if truthy (reason_phrase event) then reason_phrase event
  else error_code_to_str (QuicErrorCode_name aioquic) (H3ErrorCode_name aioquic)
         (error_code event).

Definition close_level (event : CloseEvent) : string :=
  if is_success_error_code (NO_ERROR aioquic) (H3_NO_ERROR aioquic) (error_code event)
  then "debug" else "info".

(** The commands of a termination: the hook of a failed handshake when
    it had not completed, the log entry, and [CloseConnection] when the
    connection is still connected. *)
Definition closing_actions (event : CloseEvent) (s : QuicLayer) : list Action :=
  (if tls_established (the_conn s) then []
   else [Yield (match conn s with
                | Client => TlsFailedClientHook (mkQuicTlsData (conn s) (tls s))
                | Server => TlsFailedServerHook (mkQuicTlsData (conn s) (tls s))
                end)])
  ++ [Yield (Log (LogDestroyed (conn s) (close_reason event)) (close_level event))]
  ++ (if connected (the_conn s) then [Yield (CloseConnection (conn s))] else []).

Lemma conn_set_the_conn f (s : QuicLayer) : conn (set_the_conn f s) = conn s.
Proof. unfold set_the_conn. destruct (conn s) eqn:E; cbn; exact E. Qed.

Lemma connected_set_conn_error e (s : QuicLayer) :
  connected (the_conn (set_quic None (set_the_conn (set_conn_error e) s)))
  = connected (the_conn s).
Proof. unfold the_conn, set_the_conn. destruct (conn s) eqn:E; cbn; rewrite E; reflexivity. Qed.

Lemma on_connection_terminated_result event (s s' : QuicLayer) out :
  on_connection_terminated event s = Ok tt s' out ->
  out = closing_actions event s
  /\ quic s' = None
  /\ exists q, quic s = Some q /\ _state (engine q) = TERMINATED.
Proof.
  unfold on_connection_terminated, handle_connection_terminated, closing_actions,
    close_reason, close_level.
  run.
  destruct (quic s) as [q|] eqn:Eq; [|discriminate].
  destruct (tls s) as [t|] eqn:Et; [|discriminate].
  destruct (bool_decide (_state (engine q) = TERMINATED)) eqn:Est; [|discriminate].
  apply bool_decide_eq_true_1 in Est.
  destruct (tls_established (the_conn s)) eqn:Ees; cbn.
  - change (the_conn (set_quic None s)) with (the_conn s).
    destruct (connected (the_conn s)); cbn; intros H; simplify_eq; eauto.
  - rewrite connected_set_conn_error.
    destruct (connected (the_conn s)); cbn; rewrite ?conn_set_the_conn;
      intros H; simplify_eq; cbn; eauto.
Qed.

(** The end of a run of [process_events]: the engine has no event left
    and [transmit] has run, or the engine has given a
    [ConnectionTerminated] and the termination has been handled. *)
Definition ends_drain (s' : QuicLayer) (out : list Action) : Prop :=
  exists pre q (s0 : QuicLayer),
    (exists sent,
       out = pre ++ Engine q (NextEvent None) :: sent
       /\ quic_id <$> quic s0 = Some q
       /\ transmit aioquic env s0 = Ok tt s' sent)
    \/ (exists code ft reason,
          out = pre ++ Engine q (NextEvent (Some (ConnectionTerminated code ft reason)))
                         :: closing_actions (mkCloseEvent code ft reason) s0
          /\ on_connection_terminated (mkCloseEvent code ft reason) s0
             = Ok tt s' (closing_actions (mkCloseEvent code ft reason) s0)).

Lemma ends_drain_app pre s' out : ends_drain s' out -> ends_drain s' (pre ++ out).
Proof.
  intros (pre' & q & s0 & [(sent & -> & H)|(code & ft & reason & -> & H)]);
    exists (pre ++ pre'), q, s0; [left|right].
  - exists sent. rewrite app_assoc. auto.
  - exists code, ft, reason. rewrite app_assoc. auto.
Qed.

Lemma post_true {A} (m : M A) s : post m s (fun _ _ _ => True).
Proof. unfold post. destruct (m s); exact I. Qed.

Section Drain.

Variable self : Methods Core Child.
Hypothesis Hself :
  satisfies self (fun _ _ s' out => ends_drain s' out) (fun _ _ _ _ _ => True).

Lemma process_events_body_drain direct s :
  post (process_events_body aioquic env self direct) s (fun _ s' out => ends_drain s' out).
Proof.
  unfold process_events_body.
  repeat first
    [ lazymatch goal with
      | |- post (transmit _ _) ?s1 _ =>
          apply post_intro; intros [] s' sent Hsent; cbn [app];
          exists [], (quic_id q), s1; left; exists sent;
          split; [reflexivity|split; [|exact Hsent]];
          match goal with E : quic _ = Some _ |- _ => cbn; rewrite E; reflexivity end
      | |- post (mbind _ (handle_connection_terminated _ ?event)) ?s1 ?Q =>
          change (post (on_connection_terminated event) s1 Q);
          apply post_intro; intros [] s' out Hout;
          destruct (on_connection_terminated_result _ _ _ _ Hout) as (-> & _ & _);
          cbn [app];
          exists [], (quic_id q), s1; right; eexists _, _, _;
          split; [reflexivity|exact Hout]
      | |- post (process_events_ self _) _ _ =>
          eapply post_call; [apply (proj1 Hself)|]; cbv beta; intros ? ? ? ?;
          repeat apply ends_drain_app; assumption
      | |- post (mbind _ (event_to_child_ self _ _)) _ _ =>
          apply post_bind; eapply post_call; [apply post_true|];
          cbv beta; intros ? ? ? _
      | |- post (mbind _ (handle_handshake_completed _ _ self _ _ _ _)) _ _ =>
          apply post_bind; eapply post_call; [apply post_true|];
          cbv beta; intros ? ? ? _
      | |- post (mbind _ (handle_connection_id_issued _)) _ _ =>
          apply post_bind; eapply post_call; [apply post_true|];
          cbv beta; intros ? ? ? _
      | |- post (mbind _ (handle_connection_id_retired _)) _ _ =>
          apply post_bind; eapply post_call; [apply post_true|];
          cbv beta; intros ? ? ? _
      end
    | wp_step ].
Qed.

End Drain.

Lemma methods_drain fuel :
  satisfies (methods aioquic env fuel)
    (fun _ _ s' out => ends_drain s' out) (fun _ _ _ _ _ => True).
Proof.
  apply methods_satisfy.
  - intros self Hself direct s. apply process_events_body_drain. exact Hself.
  - intros self _ direct event s. apply post_true.
Qed.


(** *** Opening the server connection *)

Definition is_handshake (a : Action) : bool :=
  match a with
  | Engine _ (NextEvent (Some (HandshakeCompleted _ _ _))) => true
  | _ => false
  end.

(** The event that tells the child its [OpenConnection] has succeeded. *)
Definition is_open_completed (e : Event) : bool :=
  match e with OpenConnectionCompleted _ None => true | _ => false end.

Definition tells_open (a : Action) : bool :=
  match a with ToChild e => is_open_completed e | _ => false end.

(** Every success told to the child comes after a [HandshakeCompleted]
    of the engine; [seen] tells whether one has come before [out]. *)
Fixpoint open_guarded (seen : bool) (out : list Action) : bool :=
  match out with
  | [] => true
  | a :: out => (negb (tells_open a) || seen) && open_guarded (seen || is_handshake a) out
  end.

Lemma open_guarded_mono out : forall seen seen' : bool,
  (seen = true -> seen' = true) ->
  open_guarded seen out = true -> open_guarded seen' out = true.
Proof.
  induction out as [|a out IH]; intros seen seen' Hs; [reflexivity|].
  cbn. rewrite !andb_true_iff, !orb_true_iff. intros [[H|H] Hout].
  - split; [auto|]. revert Hout. apply IH. rewrite !orb_true_iff. tauto.
  - split; [auto|]. revert Hout. apply IH. rewrite !orb_true_iff. tauto.
Qed.

Lemma open_guarded_weaken seen out :
  open_guarded false out = true -> open_guarded seen out = true.
Proof. apply open_guarded_mono. discriminate. Qed.

Lemma open_guarded_app out1 : forall seen out2,
  open_guarded seen out1 = true -> open_guarded seen out2 = true ->
  open_guarded seen (out1 ++ out2) = true.
Proof.
  induction out1 as [|a out1 IH]; intros seen out2; [auto|].
  cbn. rewrite !andb_true_iff. intros [Ha H1] H2. split; [exact Ha|].
  apply IH; [exact H1|]. revert H2. apply open_guarded_mono.
  intros ->. reflexivity.
Qed.

Lemma inert_open_guarded seen out : all_inert out -> open_guarded seen out = true.
Proof.
  unfold all_inert. revert seen. induction out as [|a out IH]; intros seen; [reflexivity|].
  cbn. rewrite !andb_true_iff. intros [Ha Hout]. split; [|apply IH; exact Hout].
  destruct a; try discriminate; reflexivity.
Qed.

(** What [open_guarded] says. *)
Lemma open_guarded_spec out : forall seen pre command post,
  open_guarded seen out = true ->
  out = pre ++ ToChild (OpenConnectionCompleted command None) :: post ->
  seen = true \/ exists a, a ∈ pre /\ is_handshake a = true.
Proof.
  induction out as [|a out IH]; intros seen pre command post H E.
  - destruct pre; discriminate.
  - cbn in H. apply andb_true_iff in H as [Ha Hout].
    destruct pre as [|b pre]; cbn in E; injection E as -> ->.
    + cbn in Ha. left. exact Ha.
    + destruct (IH _ _ _ _ Hout eq_refl) as [Hs|(a & Hin & Hh)].
      * apply orb_true_iff in Hs as [Hs|Hs]; [left; exact Hs|].
        right. exists b. split; [apply list_elem_of_here|exact Hs].
      * right. exists a. split; [apply list_elem_of_further; exact Hin|exact Hh].
Qed.

(** Closes a goal on [open_guarded] of a run from what is known of its
    parts. *)
Ltac open_tac :=
  repeat match goal with
  | H : open_guarded (is_open_completed _) _ = true |- _ => progress cbn in H
  end;
  cbn [app];
  repeat first
    [ reflexivity
    | assumption
    | (apply open_guarded_weaken; assumption)
    | (apply inert_open_guarded; assumption)
    | apply open_guarded_app
    | progress cbn ].

Section Open.

Variable self : Methods Core Child.
Hypothesis Hself :
  satisfies self
    (fun _ _ _ out => open_guarded false out = true)
    (fun _ event _ _ out => open_guarded (is_open_completed event) out = true).

Ltac call_self :=
  lazymatch goal with
  | |- post (process_events_ self _) ?s _ =>
      eapply post_call; [apply (proj1 Hself)|]; cbv beta; intros ? ? ? ?
  | |- post (event_to_child_ self _ _) ?s _ =>
      eapply post_call; [apply (proj2 Hself)|]; cbv beta; intros ? ? ? ?
  end.

Lemma handle_handshake_completed_open direct alpn_protocol early resumed s :
  post (handle_handshake_completed aioquic env self direct alpn_protocol early resumed) s
    (fun _ _ out => open_guarded true out = true).
Proof.
  unfold handle_handshake_completed.
  wp_calls ltac:(first [call_helper | call_self]); open_tac.
Qed.

Lemma open_server_connection_open direct command s :
  post (open_server_connection aioquic env self direct command) s
    (fun _ _ out => open_guarded false out = true).
Proof.
  unfold open_server_connection.
  wp_calls ltac:(first [call_helper | call_self]);
    try match goal with
    | H : truthy_opt ?err = true |- _ => destruct err; [|discriminate H]
    end;
    open_tac.
Qed.

Lemma pass_command_open direct command s :
  post (pass_command aioquic env self direct command) s
    (fun _ _ out => open_guarded false out = true).
Proof.
  unfold pass_command.
  wp_calls ltac:(first
    [ call_helper | call_self
    | (eapply post_call; [apply open_server_connection_open|]; cbv beta; intros ? ? ? ?) ]);
    open_tac.
Qed.

Lemma process_events_body_open direct s :
  post (process_events_body aioquic env self direct) s
    (fun _ _ out => open_guarded false out = true).
Proof.
  unfold process_events_body.
  wp_calls ltac:(first
    [ call_helper | call_self
    | (eapply post_call; [apply handle_handshake_completed_open|];
       cbv beta; intros ? ? ? ?) ]);
    open_tac.
Qed.

Lemma event_to_child_body_open direct event s :
  post (event_to_child_body aioquic env self direct event) s
    (fun _ _ out => open_guarded (is_open_completed event) out = true).
Proof.
  unfold event_to_child_body. wp.
  eapply post_mono.
  - apply (post_for_each _ _ (fun _ out => open_guarded false out = true) _ []).
    + reflexivity.
    + intros command s1 out1 _ H1.
      wp_calls ltac:(first
        [ call_helper | call_self
        | (eapply post_call; [apply pass_command_open|]; cbv beta; intros ? ? ? ?) ]);
        open_tac.
  - cbv beta. intros _ s' out H. cbn [app] in H |- *. cbn.
    destruct (is_open_completed event); cbn; [|exact H].
    apply open_guarded_weaken. exact H.
Qed.

End Open.

(** In every run of the two methods, the child is told that its
    [OpenConnection] has succeeded only after a [HandshakeCompleted]. *)
Lemma methods_open_guarded fuel :
  satisfies (methods aioquic env fuel)
    (fun _ _ _ out => open_guarded false out = true)
    (fun _ event _ _ out => open_guarded (is_open_completed event) out = true).
Proof.
  apply methods_satisfy.
  - intros self Hself direct s. apply process_events_body_open. exact Hself.
  - intros self Hself direct event s. apply event_to_child_body_open. exact Hself.
Qed.

(** A run after actions that have been emitted before it. *)
Definition prepend {A} (pre : list Action) (r : Result Core Child A) : Result Core Child A :=
  match r with
  | Ok a s out => Ok a s (pre ++ out)
  | Raise out => Raise (pre ++ out)
  | OutOfFuel => OutOfFuel
  end.

Lemma prepend_nil {A} (r : Result Core Child A) : prepend [] r = r.
Proof. destruct r; reflexivity. Qed.

Lemma bind_eq {A B} (m : M A) (k : A -> M B) (s : QuicLayer) :
  (m ≫= k) s
  = match m s with
    | Ok a s1 out1 => prepend out1 (k a s1)
    | Raise out => Raise out
    | OutOfFuel => OutOfFuel
    end.
Proof. reflexivity. Qed.

Lemma answer_eq {A} (f : nat -> A) (s : QuicLayer) :
  answer f s = Ok (f (tick s)) (set_tick (S (tick s)) s) [].
Proof. reflexivity. Qed.

Lemma time_eq (s : QuicLayer) :
  time env s = Ok (loop_time env (tick s)) (set_tick (S (tick s)) s) [].
Proof. reflexivity. Qed.

Lemma check_true (s : QuicLayer) : check true s = Ok tt s [].
Proof. reflexivity. Qed.

(** One statement of a generator. *)
Ltac mstep :=
  rewrite bind_eq;
  rewrite ?answer_eq, ?time_eq, ?check_true;
  cbn [get modify emit yield raise ret mret M_ret];
  rewrite ?prepend_nil.

Lemma prepend_prepend {A} pre1 pre2 (r : Result Core Child A) :
  prepend pre1 (prepend pre2 r) = prepend (pre1 ++ pre2) r.
Proof. destruct r; cbn; rewrite ?app_assoc; reflexivity. Qed.

(** [start_tls], in full, on a layer without engine and TLS settings. *)
Definition start_tls_result (odcid : option bytes) (s : QuicLayer) : Result Core Child bool :=
  let tls_data := mkQuicTlsData (conn s) None in
  let hook :=
    match conn s with
    | Client => QuicTlsStartClientHook tls_data
    | Server => QuicTlsStartServerHook tls_data
    end in
  let s1 := set_tick (S (tick s)) s in
  match quic_tls_start env (tick s) tls_data with
  | None => Ok false s1 [Yield hook; Yield (Log (LogNoSettings (conn s)) "error")]
  | Some t =>
      let s2 := set_tls (Some t) s1 in
      let configuration := build_configuration env t s2 in
      Ok true
        (set_next_id (S (next_id s))
           (set_quic
              (Some (mkQuicConnection (next_id s)
                       (new_connection aioquic configuration odcid)))
              s2))
        [Yield hook; Engine (next_id s) (New configuration odcid);
         Yield (Log (LogCreated (conn s)) "debug")]
  end.

Lemma start_tls_eq odcid (s : QuicLayer) :
  quic s = None -> tls s = None ->
  start_tls aioquic env odcid s = start_tls_result odcid s.
Proof.
  intros Hq Ht. unfold start_tls, start_tls_result. run. rewrite Hq, Ht. cbn.
  destruct (quic_tls_start env (tick s) _); reflexivity.
Qed.

Lemma engine_call_eq call f (s : QuicLayer) q :
  quic s = Some q ->
  engine_call call f s = Ok tt (set_engine (f (engine q)) s) [Engine (quic_id q) call].
Proof. intros Hq. unfold engine_call. run. rewrite Hq. reflexivity. Qed.

Lemma event_to_child_body_first self direct event (s : QuicLayer) :
  exists r, event_to_child_body aioquic env self direct event s = prepend [ToChild event] r.
Proof.
  unfold event_to_child_body. mstep. mstep. eexists. reflexivity.
Qed.

Lemma open_guarded_run out pre command post :
  open_guarded false out = true ->
  out = pre ++ ToChild (OpenConnectionCompleted command None) :: post ->
  exists q alpn_protocol early_data_accepted session_resumed,
    Engine q (NextEvent (Some (HandshakeCompleted alpn_protocol early_data_accepted
                                 session_resumed))) ∈ pre.
Proof.
  intros H E. destruct (open_guarded_spec _ _ _ _ _ H E) as [?|(a & Hin & Ha)];
    [discriminate|].
  destruct a as [| |q [| |[[]|]| | | | |]| | | | | |]; try discriminate. eauto.
Qed.


(** *** Version negotiation *)

Definition is_encode (a : Action) : bool :=
  match a with EncodeVersionNegotiation _ _ _ => true | _ => false end.

(** A generator that never calls the packet encoder, also when it ends
    in an exception. *)
Definition never_encodes {A} (m : M A) : Prop :=
  forall s, existsb is_encode (actions (m s)) = false.

Lemma never_encodes_bind {A B} (m : M A) (k : A -> M B) :
  never_encodes m -> (forall a, never_encodes (k a)) -> never_encodes (m ≫= k).
Proof.
  intros Hm Hk s. specialize (Hm s). rewrite bind_eq.
  destruct (m s) as [a s1 out1| |]; cbn in *; [|auto..].
  specialize (Hk a s1). destruct (k a s1); cbn in *; [| |reflexivity];
    rewrite existsb_app, Hm, Hk; reflexivity.
Qed.

Lemma never_encodes_ret {A} (a : A) : never_encodes (mret a).
Proof. intros s. reflexivity. Qed.

Lemma never_encodes_get : never_encodes get.
Proof. intros s. reflexivity. Qed.

Lemma never_encodes_modify f : never_encodes (modify f).
Proof. intros s. reflexivity. Qed.

Lemma never_encodes_emit a : is_encode a = false -> never_encodes (emit a).
Proof. intros H s. cbn. rewrite H. reflexivity. Qed.

Lemma never_encodes_raise {A} : never_encodes (@raise Core Child A).
Proof. intros s. reflexivity. Qed.

Lemma never_encodes_check b : never_encodes (check b).
Proof. intros s. destruct b; reflexivity. Qed.

Lemma never_encodes_answer {A} (f : nat -> A) : never_encodes (answer f).
Proof. intros s. reflexivity. Qed.

Lemma never_encodes_for_each {X} (l : list X) (f : X -> M unit) :
  (forall x, never_encodes (f x)) -> never_encodes (for_each l f).
Proof.
  intros Hf. induction l as [|x l IH]; cbn [for_each].
  - apply never_encodes_ret.
  - apply never_encodes_bind; auto.
Qed.

Ltac never_encodes_tac :=
  repeat first
    [ apply never_encodes_bind; [|intros ?]
    | apply never_encodes_ret
    | apply never_encodes_get
    | apply never_encodes_modify
    | apply never_encodes_raise
    | apply never_encodes_check
    | apply never_encodes_answer
    | (apply never_encodes_emit; reflexivity)
    | (apply never_encodes_for_each; intros ?)
    | lazymatch goal with
      | |- never_encodes (yield _) => unfold yield
      | |- never_encodes (ret _) => apply never_encodes_ret
      | |- never_encodes (match ?x with _ => _ end) => destruct x
      | |- never_encodes (let '(_, _) := ?x in _) => destruct x
      | |- never_encodes (if ?b then _ else _) => destruct b
      end ].

Lemma start_tls_never_encodes odcid : never_encodes (start_tls aioquic env odcid).
Proof. unfold start_tls. never_encodes_tac. Qed.

Lemma replace_layer_never_encodes replacement event :
  never_encodes (replace_layer env replacement event).
Proof.
  unfold replace_layer, replacement_start, replacement_handle_event. never_encodes_tac.
Qed.

Lemma start_client_tls_never_encodes event data header :
  never_encodes (start_client_tls aioquic env event data header).
Proof.
  unfold start_client_tls.
  repeat first
    [ apply start_tls_never_encodes
    | apply replace_layer_never_encodes
    | progress never_encodes_tac ].
Qed.

Lemma generator_contains_true v (l : list Z) :
  fst (generator_contains v l) = true <-> v ∈ l.
Proof.
  induction l as [|y l IH]; cbn.
  - split; [discriminate|]. intros H. apply elem_of_nil in H. destruct H.
  - destruct (Z.eqb_spec v y) as [->|Hne]; cbn.
    + split; [intros _; apply list_elem_of_here|reflexivity].
    + rewrite IH. split; [apply list_elem_of_further|].
      intros H. apply elem_of_cons in H as [H|H]; [contradiction|exact H].
Qed.

(** The test of [datagram_received] runs the generator to its end when
    the version is not found. *)
Lemma generator_contains_false v (l : list Z) :
  fst (generator_contains v l) = false -> snd (generator_contains v l) = mkGenerator [].
Proof.
  induction l as [|y l IH]; cbn; [reflexivity|].
  destruct (Z.eqb v y); [discriminate|exact IH].
Qed.

(** The header has a version and the list of supported versions, every
    version of aioquic but [NEGOTIATION], does not have it. *)
Definition unsupported_version (header : QuicHeader) : Prop :=
  exists v, version header = Some v /\ v ∉ supported_versions aioquic.


(** The generator the encoder is given has been run to its end by the
    test before. *)
Lemma version_negotiation_generator_exhausted connection data (s : QuicLayer) a :
  a ∈ actions (datagram_received aioquic env connection data s) ->
  is_encode a = true ->
  exists source_cid destination_cid,
    a = EncodeVersionNegotiation source_cid destination_cid (mkGenerator []).
Proof.
  unfold datagram_received. rewrite bind_eq. cbn [get]. rewrite prepend_nil.
  destruct (pull_quic_header aioquic data (quic_connection_id_length s)) as [h|];
    [|intros H; apply elem_of_nil in H; destruct H].
  assert (Hno : forall m : M (option LogMsg),
            never_encodes m -> a ∈ actions (m s) -> is_encode a = true -> False).
  { intros m Hm Hin Ha. specialize (Hm s).
    apply not_true_iff_false in Hm. apply Hm. apply existsb_exists.
    exists a. split; [apply list_elem_of_In; exact Hin|exact Ha]. }
  assert (Hrest : a ∈ actions
                    (match connections s !! (sockname (client s), destination_cid h) with
                     | None => start_client_tls aioquic env (DataReceived connection data) data h
                     | Some target_layer =>
                         if negb (_can_roam s)
                         then mret (Some (LogText "Connection cannot roam."))
                         else replace_layer env (RoamingRelay target_layer)
                                (DataReceived connection data)
                     end s) ->
                  is_encode a = true -> False).
  { destruct (connections s !! _); [destruct (negb (_can_roam s))|].
    - intros H. apply elem_of_nil in H. destruct H.
    - apply Hno, replace_layer_never_encodes.
    - apply Hno, start_client_tls_never_encodes. }
  destruct (version h) as [v|].
  - destruct (generator_contains v (supported_versions aioquic)) as [found generator] eqn:Eg.
    destruct found; cbn [negb].
    + intros H1 H2. destruct (Hrest H1 H2).
    + pose proof (generator_contains_false v (supported_versions aioquic)) as Hg.
      rewrite Eg in Hg. cbn in Hg. rewrite Hg by reflexivity.
      rewrite bind_eq. cbn [emit].
      destruct (encode_quic_version_negotiation aioquic _ _ _); cbn;
        intros Hin Ha;
        repeat (apply elem_of_cons in Hin as [->|Hin]; [try discriminate; eauto|]);
        apply elem_of_nil in Hin; destruct Hin.
  - intros H1 H2. destruct (Hrest H1 H2).
Qed.

(** *** The table of connection ids, shared by the layers *)

(** What the engines of several layers make them do to the table, the
    class variable [connections], one after the other. *)
Inductive TableOp : Type :=
| Issued (layer : QuicLayer) (connection_id : bytes)
| Retired (layer : QuicLayer) (connection_id : bytes)
| Terminated (layer : QuicLayer) (event : CloseEvent).

Definition op_layer (op : TableOp) : QuicLayer :=
  match op with Issued l _ | Retired l _ | Terminated l _ => l end.

(** The table after a handler has run on a layer that sees [table]; an
    exception ends the run. *)
Definition table_after {A} (m : M A) (layer : QuicLayer)
    (table : gmap (Address * bytes) nat) : option (gmap (Address * bytes) nat) :=
  match m (set_connections table layer) with
  | Ok _ s' _ => Some (connections s')
  | _ => None
  end.

Definition table_step (table : gmap (Address * bytes) nat) (op : TableOp)
  : option (gmap (Address * bytes) nat) :=
  match op with
  | Issued l connection_id => table_after (handle_connection_id_issued connection_id) l table
  | Retired l connection_id => table_after (handle_connection_id_retired connection_id) l table
  | Terminated l event => table_after (handle_connection_terminated aioquic event) l table
  end.

Fixpoint table_run (table : gmap (Address * bytes) nat) (ops : list TableOp)
  : option (gmap (Address * bytes) nat) :=
  match ops with
  | [] => Some table
  | op :: ops => table_step table op ≫= fun table => table_run table ops
  end.

(** The issues and the retires of a key by a layer in a run. *)
Definition issues (owner : nat) (key : Address * bytes) (op : TableOp) : bool :=
  match op with
  | Issued l connection_id =>
      bool_decide (layer_id l = owner) && bool_decide (key_of l connection_id = key)
  | _ => false
  end.

Definition retires (owner : nat) (key : Address * bytes) (op : TableOp) : bool :=
  match op with
  | Retired l connection_id =>
      bool_decide (layer_id l = owner) && bool_decide (key_of l connection_id = key)
  | _ => false
  end.

Definition count (f : TableOp -> bool) (ops : list TableOp) : nat :=
  length (filter (fun op => f op = true) ops).

Definition owns (table : gmap (Address * bytes) nat) (owner : nat) (key : Address * bytes)
  : nat :=
  if bool_decide (table !! key = Some owner) then 1 else 0.

Lemma count_cons f op ops :
  count f (op :: ops) = ((if f op then 1 else 0) + count f ops)%nat.
Proof.
  unfold count. rewrite filter_cons. destruct (f op) eqn:E.
  - rewrite decide_True by reflexivity. reflexivity.
  - rewrite decide_False by discriminate. reflexivity.
Qed.

Lemma owns_insert table key owner key' owner' :
  owns (<[key' := owner']> table) owner key
  = if bool_decide (key' = key) then (if bool_decide (owner' = owner) then 1 else 0)%nat
    else owns table owner key.
Proof.
  unfold owns. destruct (decide (key' = key)) as [->|Hne].
  - rewrite lookup_insert_eq. repeat case_bool_decide; congruence.
  - rewrite lookup_insert_ne by exact Hne. repeat case_bool_decide; congruence.
Qed.

Lemma owns_delete table key owner key' :
  owns (delete key' table) owner key
  = if bool_decide (key' = key) then 0%nat else owns table owner key.
Proof.
  unfold owns. destruct (decide (key' = key)) as [->|Hne].
  - rewrite lookup_delete_eq. repeat case_bool_decide; congruence.
  - rewrite lookup_delete_ne by exact Hne. repeat case_bool_decide; congruence.
Qed.

(** One step keeps the balance of every layer and key. *)
Lemma table_step_balance table op table' owner key :
  class (op_layer op) = ClientQuicLayer_ ->
  table_step table op = Some table' ->
  ((if issues owner key op then 1 else 0) + owns table owner key
   = (if retires owner key op then 1 else 0) + owns table' owner key)%nat.
Proof.
  destruct op as [l cid|l cid|l event]; cbn [op_layer table_step issues retires];
    unfold table_after; intros Hclass.
  - rewrite handle_connection_id_issued_client by exact Hclass.
    change (connections (set_connections table l)) with table.
    change (key_of (set_connections table l) cid) with (key_of l cid).
    change (layer_id (set_connections table l)) with (layer_id l).
    destruct (table !! key_of l cid) eqn:Hk; cbn [connections set_connections];
      intros H; [discriminate H|].
    injection H as <-.
    rewrite owns_insert.
    destruct (bool_decide (key_of l cid = key)) eqn:Ekey;
      rewrite ?andb_true_r, ?andb_false_r; [|reflexivity].
    apply bool_decide_eq_true_1 in Ekey. subst key.
    unfold owns. rewrite Hk. repeat case_bool_decide; first [reflexivity|congruence].
  - rewrite handle_connection_id_retired_client by exact Hclass.
    change (connections (set_connections table l)) with table.
    change (key_of (set_connections table l) cid) with (key_of l cid).
    change (layer_id (set_connections table l)) with (layer_id l).
    destruct (table !! key_of l cid) as [o|] eqn:Hk; [|intros H; discriminate H].
    destruct (decide (o = layer_id l)) as [->|]; cbn [connections set_connections];
      intros H; [|discriminate H].
    injection H as <-.
    rewrite owns_delete.
    destruct (bool_decide (key_of l cid = key)) eqn:Ekey;
      rewrite ?andb_true_r, ?andb_false_r; [|reflexivity].
    apply bool_decide_eq_true_1 in Ekey. subst key.
    unfold owns. rewrite Hk. repeat case_bool_decide; first [reflexivity|congruence].
  - destruct (handle_connection_terminated aioquic event (set_connections table l))
      as [a s' out| |] eqn:E; intros H; [|discriminate H..].
    apply handle_connection_terminated_connections in E as [E _].
    injection H as <-. rewrite E. reflexivity.
Qed.

(** C2. The table maps a key to one layer. In a [ClientQuicLayer],
    [handle_connection_id_issued] enters the key of the layer and the
    connection id for this layer if the table has no entry for the key
    and is a failed assertion otherwise; [handle_connection_id_retired]
    removes the entry of the key if it names this layer and is an
    exception otherwise; [handle_connection_terminated] leaves the
    table as it is. So over every run of these handlers on layers that
    share the table, for every layer and key, the issues and the
    retires differ by what the layer owns before and after: a layer
    owns a key at the end exactly when it has issued it once more than
    it has retired it, whether or not it has terminated. *)
Theorem connection_ids_have_one_owner :
  (forall (s : QuicLayer) connection_id,
     class s = ClientQuicLayer_ ->
     handle_connection_id_issued connection_id s
     = match connections s !! key_of s connection_id with
       | None =>
           Ok tt (set_connections
                    (<[key_of s connection_id := layer_id s]> (connections s)) s) []
       | Some _ => Raise []
       end)
  /\ (forall (s : QuicLayer) connection_id,
        class s = ClientQuicLayer_ ->
        handle_connection_id_retired connection_id s
        = match connections s !! key_of s connection_id with
          | Some owner =>
              if decide (owner = layer_id s)
              then Ok tt (set_connections
                            (delete (key_of s connection_id) (connections s)) s) []
              else Raise []
          | None => Raise []
          end)
  /\ (forall event (s s' : QuicLayer) out,
        handle_connection_terminated aioquic event s = Ok tt s' out ->
        connections s' = connections s)
  /\ (forall ops table table' owner key,
        Forall (fun op => class (op_layer op) = ClientQuicLayer_) ops ->
        table_run table ops = Some table' ->
        (count (issues owner key) ops + owns table owner key
         = count (retires owner key) ops + owns table' owner key)%nat).
Proof.
  split; [|split; [|split]].
  - intros s connection_id. apply handle_connection_id_issued_client.
  - intros s connection_id. apply handle_connection_id_retired_client.
  - intros event s s' out H.
    apply (handle_connection_terminated_connections _ _ _ _ _ H).
  - induction ops as [|op ops IH]; intros table table' owner key Hops Hrun.
    + injection Hrun as <-. reflexivity.
    + cbn [table_run] in Hrun.
      destruct (table_step table op) as [table1|] eqn:Hstep; [|discriminate].
      cbn in Hrun. apply Forall_cons in Hops as [Hop Hops].
      pose proof (table_step_balance _ _ _ owner key Hop Hstep) as H1.
      pose proof (IH _ _ owner key Hops Hrun) as H2.
      rewrite !count_cons. lia.
Qed.

(** *** Routes of roamed contexts *)

(** X9. A route is registered once and removed by the context that
    registered it: [add_route] for a peer address that has no route
    records the handler, after which a second [add_route] for the
    address fails its assertion, [remove_route] with another handler
    fails its assertion, and [remove_route] with the same handler gives
    back the layer as it was before. [remove_route] for an address
    without a route is a [KeyError]. *)
Theorem routes_are_registered_once peer h (s : QuicLayer) :
  (forall s1,
     add_route peer h s = Some s1 ->
     _routes s !! peer = None
     /\ _routes s1 !! peer = Some h
     /\ add_route peer h s1 = None
     /\ remove_route peer h s1 = Some s
     /\ (forall h', h' <> h -> remove_route peer h' s1 = None))
  /\ (_routes s !! peer = None ->
      is_Some (add_route peer h s) /\ remove_route peer h s = None)
  /\ (is_Some (_routes s !! peer) -> add_route peer h s = None).
Proof.
  unfold add_route, remove_route. split; [|split].
  - intros s1 H. destruct (_routes s !! peer) eqn:E; [discriminate|].
    injection H as <-. cbn. rewrite lookup_insert_eq.
    split; [reflexivity|]. split; [reflexivity|]. split; [reflexivity|].
    split.
    + rewrite decide_True by reflexivity. rewrite delete_insert_id by exact E.
      destruct s; reflexivity.
    + intros h' Hne. rewrite decide_False by congruence. reflexivity.
  - intros E. rewrite E. split; [eauto|reflexivity].
  - intros [h' E]. rewrite E. reflexivity.
Qed.

(** *** start_tls *)

(** X10. [start_tls] asserts that the layer has neither an engine nor
    TLS settings. It then asks the addons for the settings. Without
    settings it returns [False] and the layer still has neither. With
    settings it returns [True], keeps the settings and has a new engine;
    a second [start_tls] on that layer fails the assertion. In both
    cases the table of connection ids is left as it is: the host
    connection id of the new engine is not entered. *)
Theorem start_tls_runs_once odcid (s : QuicLayer) :
  let settings := quic_tls_start env (tick s) (mkQuicTlsData (conn s) None) in
  (quic s = None -> tls s = None ->
   exists s' out,
     start_tls aioquic env odcid s
     = Ok (match settings with Some _ => true | None => false end) s' out
     /\ tls s' = settings
     /\ quic_id <$> quic s' = (fun _ => next_id s) <$> settings
     /\ connections s' = connections s
     /\ (is_Some settings ->
         forall odcid', start_tls aioquic env odcid' s' = Raise []))
  /\ (quic s <> None \/ tls s <> None -> start_tls aioquic env odcid s = Raise []).
Proof.
  intros settings. split.
  - intros Hq Ht. rewrite (start_tls_eq _ _ Hq Ht). unfold start_tls_result.
    fold settings. destruct settings as [t|] eqn:E.
    + eexists _, _. split; [reflexivity|]. cbn.
      split; [reflexivity|]. split; [reflexivity|]. split; [reflexivity|].
      intros _ odcid'. unfold start_tls. run. cbn. reflexivity.
    + eexists _, _. split; [reflexivity|]. cbn. rewrite Hq, Ht.
      split; [reflexivity|]. split; [reflexivity|]. split; [reflexivity|].
      intros [? ?]. discriminate.
  - intros H. unfold start_tls. run.
    destruct (quic s) as [q|]; [reflexivity|].
    destruct (tls s) as [t|]; [reflexivity|].
    destruct H as [H|H]; contradiction.
Qed.

(** *** The handshake *)

(** X11. [QuicLayer.handle_handshake_completed] asserts that the
    connection is not yet established. When it returns, the connection
    is established: it has the time of the event loop as the time of the
    TLS setup, the ALPN protocol of the event and the TLS version
    "QUIC"; the layer has yielded the hook of its side and one log
    entry. A second call on that layer fails the assertion. *)
Theorem handshake_completes_once alpn_protocol early resumed (s s' : QuicLayer) out :
  QuicLayer_handle_handshake_completed aioquic env alpn_protocol early resumed s
  = Ok tt s' out ->
  tls_established (the_conn s) = false
  /\ tls_established (the_conn s') = true
  /\ timestamp_tls_setup (the_conn s') = Some (loop_time env (tick s))
  /\ alpn (the_conn s') = Some alpn_protocol
  /\ tls_version (the_conn s') = Some "QUIC"
  /\ (exists t,
        tls s = Some t
        /\ out = [Yield (match conn s with
                         | Client => TlsEstablishedClientHook (mkQuicTlsData Client (Some t))
                         | Server => TlsEstablishedServerHook (mkQuicTlsData Server (Some t))
                         end);
                  Yield (Log (LogEstablished (conn s) early resumed) "debug")])
  /\ (forall a e r,
        QuicLayer_handle_handshake_completed aioquic env a e r s' = Raise []).
Proof.
  unfold QuicLayer_handle_handshake_completed. run.
  destruct (quic s) as [q|] eqn:Eq; [|discriminate].
  destruct (tls s) as [t|] eqn:Et; [|discriminate].
  destruct (tls_established (the_conn s)) eqn:Ee; [discriminate|].
  cbn. intros H. injection H as <- <-.
  unfold the_conn, set_the_conn in *. cbn.
  destruct (conn s) eqn:Ec; cbn; rewrite ?Ec, ?Eq, ?Et; cbn;
    (split; [reflexivity|]); (split; [reflexivity|]); (split; [reflexivity|]);
    (split; [reflexivity|]); (split; [reflexivity|]); (split; [eauto|]);
    intros a e r; rewrite ?Et; cbn; rewrite ?Ec; reflexivity.
Qed.

(** *** A layer without an engine *)

(** The commands of the child that [event_to_child] passes on when the
    layer has no engine: all but a [QuicTransmit] for its connection. *)
Definition passed_on (s : QuicLayer) (command : Command) : bool :=
  match command with
  | QuicTransmit c _ => negb (bool_decide (c = conn s))
  | _ => true
  end.

(** X12. A layer without an engine (before [start_tls], or after the
    engine has terminated) hands an event to its child and passes the
    commands of the child on to the runtime, in their order and as they
    are: also a [CloseConnection] and, in a [ServerQuicLayer] that has
    TLS settings, an [OpenConnection] for its own connection. Only a
    [QuicTransmit] for its own connection is dropped. The layer changes
    in its child only. *)
Theorem event_to_child_without_engine fuel event (s : QuicLayer) :
  quic s = None ->
  (class s = ServerQuicLayer_ -> tls s <> None) ->
  event_to_child aioquic env (S fuel) event s
  = (let '(commands, child) := child_handle_event env (child_layer s) event in
     Ok tt (set_child_layer child s)
       (ToChild event :: (Yield <$> filter (fun c => passed_on s c = true) commands))).
Proof.
  intros Hq Ht. unfold event_to_child. cbn [methods event_to_child_].
  unfold event_to_child_body. mstep. mstep.
  destruct (child_handle_event env (child_layer s) event) as [commands child].
  mstep.
  set (s1 := set_child_layer child s).
  assert (Hq1 : quic s1 = None) by exact Hq.
  assert (Ht1 : class s1 = ServerQuicLayer_ -> tls s1 <> None) by exact Ht.
  change (filter (fun c => passed_on s c = true) commands)
    with (filter (fun c => passed_on s1 c = true) commands).
  clearbody s1.
  match goal with
  | |- prepend _ (for_each commands ?f s1) = _ =>
      assert (Hloop : for_each commands f s1
                      = Ok tt s1 (Yield <$> filter (fun c => passed_on s1 c = true) commands))
  end.
  { induction commands as [|command commands IH]; [reflexivity|].
    cbn [for_each]. rewrite bind_eq.
    assert (Hone : forall c : Command,
              pass_command aioquic env (methods aioquic env fuel) true c s1
              = Ok tt s1 [Yield c]).
    { intros c. unfold pass_command. run.
      destruct (class s1) eqn:Ec, c; try reflexivity.
      destruct (decide (connection = conn s1)); [|reflexivity].
      destruct (tls s1); [reflexivity|]. exfalso. apply Ht1; reflexivity. }
    destruct command; rewrite bind_eq; cbn [get]; rewrite ?prepend_nil;
      try (rewrite Hone, IH, filter_cons_True by reflexivity; reflexivity).
    - (* CloseConnection *)
      rewrite filter_cons_True by reflexivity.
      destruct (decide (connection = conn s1)).
      + rewrite Hq1. cbn. rewrite IH. reflexivity.
      + rewrite Hone, IH. reflexivity.
    - (* QuicTransmit *)
      destruct (decide (connection = conn s1)) as [->|Hne].
      + rewrite filter_cons_False
          by (cbn; rewrite bool_decide_eq_true_2 by reflexivity; discriminate).
        rewrite Hq1. cbn. rewrite decide_False by discriminate. cbn.
        rewrite IH. reflexivity.
      + rewrite filter_cons_True
          by (cbn; rewrite bool_decide_eq_false_2 by exact Hne; reflexivity).
        rewrite Hone, IH. reflexivity. }
  rewrite Hloop. reflexivity.
Qed.

(** *** Datagrams a ClientQuicLayer does not accept *)

(** X13. While a [ClientQuicLayer] has no TLS settings, a datagram on
    its connection that is not a QUIC packet, or that belongs to a
    connection of another layer when this one cannot roam, or that
    starts a new connection but is shorter than 1200 bytes or no
    Initial, is answered with one log entry and nothing else: the child
    is not handed the datagram, no engine and no TLS settings are
    created, and the layer is as it was. *)
Theorem client_layer_rejects_datagram fuel data (s : QuicLayer) :
  class s = ClientQuicLayer_ -> conn s = Client -> tls s = None ->
  let run := _handle_event aioquic env fuel (DataReceived Client data) s in
  let rejected reason := run = Ok tt s [Yield (Log (LogText reason) "info")] in
  match pull_quic_header aioquic data (quic_connection_id_length s) with
  | None => rejected "Invalid QUIC datagram received."
  | Some h =>
      ~ unsupported_version h ->
      match connections s !! (sockname (client s), destination_cid h) with
      | Some _ => _can_roam s = false -> rejected "Connection cannot roam."
      | None =>
          (String.length data < 1200)%nat
          \/ packet_type h <> Some (PACKET_TYPE_INITIAL aioquic) ->
          rejected "Invalid handshake received."
      end
  end.
Proof.
  intros Hclass Hconn Htls run rejected. subst run rejected. cbv beta.
  unfold _handle_event. mstep. rewrite Hclass.
  unfold ClientQuicLayer_handle_event. mstep. rewrite Htls, Hconn.
  rewrite decide_True by reflexivity.
  rewrite bind_eq. unfold datagram_received. mstep.
  destruct (pull_quic_header aioquic data (quic_connection_id_length s)) as [h|];
    [|reflexivity].
  intros Hsup.
  assert (Hv : (let '(unsupported, generator) :=
                  match version h with
                  | None => (false, mkGenerator (supported_versions aioquic))
                  | Some v =>
                      let '(found, generator) :=
                        generator_contains v (supported_versions aioquic) in
                      (negb found, generator)
                  end in unsupported) = false).
  { destruct (version h) as [v|] eqn:Ev; [|reflexivity].
    destruct (generator_contains v (supported_versions aioquic)) as [found g] eqn:Eg.
    destruct found; [reflexivity|]. exfalso. apply Hsup. exists v. split; [exact Ev|].
    intros Hin. apply generator_contains_true in Hin. rewrite Eg in Hin. discriminate. }
  destruct (match version h with
            | None => (false, mkGenerator (supported_versions aioquic))
            | Some v =>
                let '(found, generator) :=
                  generator_contains v (supported_versions aioquic) in
                (negb found, generator)
            end) as [unsupported generator].
  cbn in Hv. subst unsupported.
  destruct (connections s !! (sockname (client s), destination_cid h)) as [target|].
  - intros Hroam. rewrite Hroam. reflexivity.
  - intros Hshort. unfold start_client_tls.
    assert (Hb : (String.length data <? 1200)%nat
                 || negb (bool_decide (packet_type h = Some (PACKET_TYPE_INITIAL aioquic)))
                 = true).
    { destruct Hshort as [Hlt|Hne].
      - apply Nat.ltb_lt in Hlt. rewrite Hlt. reflexivity.
      - rewrite (bool_decide_eq_false_2 _ Hne). apply orb_true_r. }
    rewrite Hb. reflexivity.
Qed.

(** *** Roaming *)

Lemma replace_layer_roaming target data (s : QuicLayer) :
  _server_layer s = None ->
  replace_layer env (RoamingRelay target) (DataReceived Client data) s
  = Ok None (set_replaced_by (Some (RoamingRelay target)) s)
      [AddRoute target (peername (client s)) (handler s);
       ServerEvent target (peername (client s)) (DataReceived Client data)].
Proof.
  intros Hsl. unfold replace_layer, replacement_start, replacement_handle_event. run.
  rewrite Hsl. reflexivity.
Qed.

Lemma QuicLayer_handle_event_no_engine fuel c data (s : QuicLayer) :
  quic s = None ->
  QuicLayer_handle_event aioquic env fuel (DataReceived c data) s
  = event_to_child aioquic env fuel (DataReceived c data) s.
Proof.
  intros Hq. unfold QuicLayer_handle_event. rewrite bind_eq. cbn [get].
  rewrite prepend_nil, Hq. reflexivity.
Qed.

(** X14. A datagram for a connection id that the table gives to another
    layer makes a [ClientQuicLayer] that can roam, and has no server
    layer above it, hand over to a [QuicRoamingLayer]: that registers a
    route for the address of the client with the target layer and
    forwards the datagram to the handler of the target (the layer then
    still hands the datagram to its own child). From then on
    [handle_event] forwards every datagram of the client to the handler
    of the target and does nothing else, until the client connection is
    closed: then the route is removed, for the same target and address,
    and every later event fails an assertion. The calls on the target
    layer and its handler are the actions [AddRoute], [ServerEvent] and
    [RemoveRoute]. *)
Theorem roaming_layer_relays_until_closed fuel data h target (s : QuicLayer) :
  class s = ClientQuicLayer_ -> conn s = Client -> tls s = None -> quic s = None ->
  replaced_by s = None -> _server_layer s = None -> _can_roam s = true ->
  pull_quic_header aioquic data (quic_connection_id_length s) = Some h ->
  ~ unsupported_version h ->
  connections s !! (sockname (client s), destination_cid h) = Some target ->
  let peer := peername (client s) in
  let relay := set_replaced_by (Some (RoamingRelay target)) s in
  let closed := set_replaced_by (Some (RoamingClosed target)) relay in
  handle_event aioquic env fuel (DataReceived Client data) s
  = prepend [AddRoute target peer (handler s);
             ServerEvent target peer (DataReceived Client data)]
      (event_to_child aioquic env fuel (DataReceived Client data) relay)
  /\ (forall data',
        handle_event aioquic env fuel (DataReceived Client data') relay
        = Ok tt relay [ServerEvent target peer (DataReceived Client data')])
  /\ handle_event aioquic env fuel (ConnectionClosed Client) relay
     = Ok tt closed [RemoveRoute target peer]
  /\ (forall event, handle_event aioquic env fuel event closed = Raise []).
Proof.
  intros Hclass Hconn Htls Hquic Hrep Hsl Hroam Hh Hsup Htarget peer relay closed.
  split; [|split; [|split]].
  - unfold handle_event. mstep. rewrite Hrep.
    unfold _handle_event. mstep. rewrite Hclass.
    unfold ClientQuicLayer_handle_event. mstep. rewrite Htls, Hconn.
    rewrite decide_True by reflexivity.
    rewrite bind_eq. unfold datagram_received. mstep. rewrite Hh.
    assert (Hv : (let '(unsupported, generator) :=
                    match version h with
                    | None => (false, mkGenerator (supported_versions aioquic))
                    | Some v =>
                        let '(found, generator) :=
                          generator_contains v (supported_versions aioquic) in
                        (negb found, generator)
                    end in unsupported) = false).
    { destruct (version h) as [v|] eqn:Ev; [|reflexivity].
      destruct (generator_contains v (supported_versions aioquic)) as [found g] eqn:Eg.
      destruct found; [reflexivity|]. exfalso. apply Hsup. exists v. split; [exact Ev|].
      intros Hin. apply generator_contains_true in Hin. rewrite Eg in Hin. discriminate. }
    destruct (match version h with
              | None => (false, mkGenerator (supported_versions aioquic))
              | Some v =>
                  let '(found, generator) :=
                    generator_contains v (supported_versions aioquic) in
                  (negb found, generator)
              end) as [unsupported generator].
    cbn in Hv. subst unsupported.
    rewrite Htarget, Hroam. cbn [negb].
    rewrite (replace_layer_roaming _ _ _ Hsl). fold peer relay.
    rewrite (QuicLayer_handle_event_no_engine _ _ _ relay Hquic). reflexivity.
  - intros data'. unfold handle_event, replacement_handle_event. run. reflexivity.
  - unfold handle_event, replacement_handle_event. run. reflexivity.
  - intros event. unfold handle_event, replacement_handle_event. run. reflexivity.
Qed.

(** *** The ClientHello of a new connection *)

Lemma for_each_yield (commands : list Command) (s : QuicLayer) :
  for_each commands yield s = Ok tt s (Yield <$> commands).
Proof.
  induction commands as [|c commands IH]; [reflexivity|].
  cbn [for_each]. rewrite bind_eq. unfold yield at 1, emit at 1.
  rewrite IH. reflexivity.
Qed.

Definition is_engine_action (a : Action) : bool :=
  match a with Engine _ _ => true | _ => false end.

Lemma yields_no_engine_action (commands : list Command) :
  existsb is_engine_action (Yield <$> commands) = false.
Proof. induction commands as [|c commands IH]; [reflexivity|exact IH]. Qed.

Ltac not_in_list :=
  rewrite ?elem_of_cons, ?elem_of_nil; intuition (try discriminate; try congruence).

Ltac use_done Hdone pre :=
  match goal with
  | |- context [start_tls _ _ _ ?s2] =>
      let err := fresh "err" in
      let s' := fresh "s'" in
      let out := fresh "out" in
      let Hrun := fresh "Hrun" in
      let Hin := fresh "Hin" in
      destruct (Hdone s2 pre) as (err & s' & out & Hrun & ? & ? & ? & ? & Hin & ? & ? & ? & ?);
      [assumption || reflexivity ..|];
      exists err, s', out;
      split;
      [rewrite <- Hrun; destruct (start_tls _ _ _ s2) as [[|] ? ?| |];
       cbn; rewrite ?app_nil_r; reflexivity|];
      do 4 (split; [assumption|]);
      split; [rewrite Hin; not_in_list|];
      do 3 (split; [assumption|]); assumption
  end.

(** X15. [start_client_tls] on an Initial of at least 1200 bytes whose
    ClientHello parses, in a layer without engine and TLS settings,
    always returns. It copies the server name and the ALPN offers of
    the ClientHello to the client connection and asks the addons with
    [TlsClienthelloHook] before anything else. When the addons ignore
    the connection, the layer is replaced by a UDP layer: no error is
    returned, and no engine and no TLS settings are created. Otherwise
    [OpenConnection] for the server is yielded exactly when the addons
    want the server first, the server connection has not completed TLS
    and there is a server layer; whatever the runtime answers,
    [start_tls] runs then, and no error is returned exactly when the
    layer has an engine and TLS settings afterwards; the error is
    [TLS initialization failed.] otherwise. *)
Theorem client_hello_starts_tls event data header hello (s : QuicLayer) :
  quic s = None -> tls s = None ->
  (1200 <= String.length data)%nat ->
  packet_type header = Some (PACKET_TYPE_INITIAL aioquic) ->
  quic_parse_client_hello env data = inr hello ->
  let hook_data :=
    mkClientHelloData (hello_sni hello) (hello_alpn_protocols hello) false false in
  let decision := tls_clienthello env (tick s) hook_data in
  exists err s' out,
    start_client_tls aioquic env event data header s = Ok err s' out
    /\ head out = Some (Yield (TlsClienthelloHook hook_data))
    /\ conn_sni (client s') = hello_sni hello
    /\ alpn_offers (client s') = hello_alpn_protocols hello
    /\ connections s' = connections s
    /\ if decision.1
       then err = None /\ quic s' = None /\ tls s' = None
            /\ existsb is_engine_action out = false
            /\ (_server_layer s = None -> replaced_by s' = Some IgnoredUDP)
            /\ (forall l, _server_layer s = Some l -> Replace l IgnoredUDP ∈ out)
       else (Yield (OpenConnection Server) ∈ out
             <-> decision.2 = true /\ tls_established (server s) = false
                 /\ _server_layer s <> None)
            /\ (err = None <-> quic s' <> None)
            /\ (err = None <-> tls s' <> None)
            /\ (err <> None -> err = Some (LogText "TLS initialization failed."))
            /\ replaced_by s' = replaced_by s.
Proof.
  intros Hq Ht Hlen Hinitial Hhello hook_data decision.
  unfold start_client_tls.
  apply Nat.ltb_ge in Hlen. rewrite Hlen, Hinitial.
  rewrite bool_decide_eq_true_2 by reflexivity. cbn [negb orb].
  rewrite Hhello. fold hook_data.
  mstep. mstep. mstep.
  set (s1 := set_tick _ _).
  change (tick (set_client _ s)) with (tick s). fold decision.
  assert (Hs1 : s1 = set_tick (S (tick s))
                       (set_client
                          (set_alpn_offers (hello_alpn_protocols hello)
                             (set_conn_sni (hello_sni hello) (client s))) s))
    by reflexivity.
  destruct decision as [[|] first]; cbn [fst snd].
  - unfold replace_layer, replacement_start, replacement_handle_event. run.
    change (_server_layer s1) with (_server_layer s).
    destruct (_server_layer s) as [l|] eqn:El; cbn;
      repeat (rewrite for_each_yield; cbn).
    + eexists _, _, _. split; [reflexivity|]. cbn.
      rewrite existsb_app, app_nil_r, !yields_no_engine_action.
      rewrite Hq, Ht. do 8 (split; [reflexivity|]). split; [discriminate|].
      intros l0 [= <-]. apply list_elem_of_further, list_elem_of_here.
    + eexists _, _, _. split; [reflexivity|]. cbn.
      rewrite existsb_app, app_nil_r, !yields_no_engine_action.
      rewrite Hq, Ht. do 8 (split; [reflexivity|]). split; [reflexivity|]. discriminate.
  - run. change (server s1) with (server s). change (_server_layer s1) with (_server_layer s).
    assert (Hdone : forall (s2 : QuicLayer) pre,
              quic s2 = None -> tls s2 = None -> client s2 = client s1 ->
              connections s2 = connections s -> replaced_by s2 = replaced_by s ->
              exists err s' out,
                prepend (Yield (TlsClienthelloHook hook_data) :: pre)
                  (match start_tls aioquic env (Some (destination_cid header)) s2 with
                   | Ok a s0 out1 =>
                       Ok (if negb a then Some (LogText "TLS initialization failed.")
                           else None) s0 out1
                   | Raise out0 => Raise out0
                   | OutOfFuel => OutOfFuel
                   end) = Ok err s' out
                /\ head out = Some (Yield (TlsClienthelloHook hook_data))
                /\ conn_sni (client s') = hello_sni hello
                /\ alpn_offers (client s') = hello_alpn_protocols hello
                /\ connections s' = connections s
                /\ (Yield (OpenConnection Server) ∈ out
                    <-> Yield (OpenConnection Server) ∈ pre)
                /\ (err = None <-> quic s' <> None)
                /\ (err = None <-> tls s' <> None)
                /\ (err <> None -> err = Some (LogText "TLS initialization failed."))
                /\ replaced_by s' = replaced_by s).
    { intros s2 pre Hq2 Ht2 Hc2 Hn2 Hr2.
      rewrite (start_tls_eq _ s2 Hq2 Ht2). unfold start_tls_result.
      destruct (quic_tls_start env (tick s2) _) as [t|]; cbn;
        eexists _, _, _; (split; [reflexivity|]); cbn; rewrite ?Hc2, ?Hq2, ?Ht2;
        (split; [reflexivity|]); (split; [reflexivity|]); (split; [reflexivity|]);
        (split; [exact Hn2|]);
        (split; [rewrite elem_of_cons, elem_of_app; destruct (conn s2); not_in_list|]);
        (split; [split; intros; congruence|]); (split; [split; intros; congruence|]);
        (split; [intros; congruence|exact Hr2]). }
    destruct first, (tls_established (server s)) eqn:Ee; cbn [andb negb].
    + use_done Hdone (@nil Action).
    + change (tick s1) with (S (tick s)).
      destruct (_server_layer s) as [l|] eqn:El; cbn.
      * destruct (open_connection_reply env (S (tick s))) as [e|] eqn:Er; cbn.
        -- destruct (truthy e) eqn:Ee'; cbn.
           ++ use_done Hdone [Yield (OpenConnection Server);
                              Yield (Log (LogServerFailed e) "info")].
           ++ use_done Hdone [Yield (OpenConnection Server)].
        -- use_done Hdone [Yield (OpenConnection Server)].
      * use_done Hdone [Yield (Log (LogServerFailed "No server QUIC available.") "info")].
    + use_done Hdone (@nil Action).
    + use_done Hdone (@nil Action).
Qed.

(** *** The datagrams of the engine *)

(** The datagrams that [out] sends on a connection, the datagrams it
    writes to handlers, and the addresses it reports as without
    route. *)
Definition sent_data (out : list Action) : list (ConnRef * bytes) :=
  omap (fun a => match a with Yield (SendData c data) => Some (c, data) | _ => None end) out.

Definition written (out : list Action) : list (nat * bytes) :=
  omap (fun a => match a with Write h data => Some (h, data) | _ => None end) out.

Definition unrouted (out : list Action) : list Address :=
  omap (fun a => match a with Yield (Log (LogNoRoute _ addr) _) => Some addr | _ => None end)
    out.

Lemma send_actions_sent (s : QuicLayer) datagrams :
  sent_data (send_action s <$> datagrams)
  = (fun d => (conn s, d.1)) <$> filter (fun d => d.2 = peername (the_conn s)) datagrams.
Proof.
  induction datagrams as [|[data addr] l IH]; [reflexivity|].
  cbn [fmap list_fmap]. unfold sent_data in *. cbn [omap list_omap send_action].
  destruct (decide (addr = peername (the_conn s))) as [E|E].
  - rewrite filter_cons_True by exact E. cbn. rewrite <- IH. reflexivity.
  - rewrite filter_cons_False by exact E.
    destruct (default None (_routes s !! addr)); exact IH.
Qed.

Lemma send_actions_written (s : QuicLayer) datagrams :
  written (send_action s <$> datagrams)
  = omap (fun d => if decide (d.2 = peername (the_conn s)) then None
                   else h ← default None (_routes s !! d.2); Some (h, d.1)) datagrams.
Proof.
  induction datagrams as [|[data addr] l IH]; [reflexivity|].
  cbn [fmap list_fmap]. unfold written in *. cbn [omap list_omap send_action fst snd].
  destruct (decide (addr = peername (the_conn s))) as [E|E]; [exact IH|].
  destruct (default None (_routes s !! addr)); cbn; rewrite <- IH; reflexivity.
Qed.

Lemma send_actions_unrouted (s : QuicLayer) datagrams :
  unrouted (send_action s <$> datagrams)
  = snd <$> filter (fun d => d.2 <> peername (the_conn s)
                             /\ default None (_routes s !! d.2) = None) datagrams.
Proof.
  induction datagrams as [|[data addr] l IH]; [reflexivity|].
  cbn [fmap list_fmap]. unfold unrouted in *. cbn [omap list_omap send_action].
  destruct (decide (addr = peername (the_conn s))) as [E|E].
  - rewrite filter_cons_False by (cbn; tauto). exact IH.
  - destruct (default None (_routes s !! addr)) eqn:Er.
    + rewrite filter_cons_False by (cbn; rewrite Er; intros [_ ?]; discriminate). exact IH.
    + rewrite filter_cons_True by (cbn; rewrite Er; tauto). cbn. rewrite <- IH. reflexivity.
Qed.

(** X16. [transmit] asks the engine once for its datagrams and deals
    with every one of them, in the order of the engine: the datagrams
    for the peer of the connection are sent with [SendData] on the
    connection of the layer, a datagram for another address is written
    to the handler of the route of that address, and without a route it
    is reported in the log and sent nowhere. Each datagram gives one
    action, and the routes are left as they are. *)
Theorem transmit_delivers_every_datagram (s s' : QuicLayer) q out :
  quic s = Some q ->
  transmit aioquic env s = Ok tt s' out ->
  let now := loop_time env (tick s) in
  let datagrams := (datagrams_to_send aioquic now (engine q)).1 in
  let peer := peername (the_conn s) in
  head out = Some (Engine (quic_id q) (DatagramsToSend now))
  /\ sent_data out = (fun d => (conn s, d.1)) <$> filter (fun d => d.2 = peer) datagrams
  /\ written out
     = omap (fun d => if decide (d.2 = peer) then None
                      else h ← default None (_routes s !! d.2); Some (h, d.1)) datagrams
  /\ unrouted out
     = snd <$> filter (fun d => d.2 <> peer /\ default None (_routes s !! d.2) = None)
                 datagrams
  /\ (length (sent_data out) + length (written out) + length (unrouted out)
      = length datagrams)%nat
  /\ _routes s' = _routes s.
Proof.
  intros Hq Hrun now datagrams peer. rewrite transmit_eq in Hrun.
  unfold transmit_result in Hrun. rewrite Hq in Hrun. fold now in Hrun.
  subst datagrams.
  destruct (datagrams_to_send aioquic now (engine q)) as [datagrams e].
  cbn [fst].
  set (s1 := set_engine e (set_tick (S (tick s)) s)) in *.
  assert (Hcount : (length (sent_data (send_action s1 <$> datagrams))
                    + length (written (send_action s1 <$> datagrams))
                    + length (unrouted (send_action s1 <$> datagrams))
                    = length datagrams)%nat).
  { clear. induction datagrams as [|[data addr] l IH]; [reflexivity|].
    cbn [fmap list_fmap]. unfold sent_data, written, unrouted in *.
    cbn [omap list_omap send_action].
    destruct (decide (addr = peername (the_conn s1))); [cbn; lia|].
    destruct (default None (_routes s1 !! addr)); cbn; lia. }
  pose proof (send_actions_sent s1 datagrams) as Hsent.
  pose proof (send_actions_written s1 datagrams) as Hwritten.
  pose proof (send_actions_unrouted s1 datagrams) as Hunrouted.
  change (the_conn s1) with (the_conn s) in *. change (conn s1) with (conn s) in *.
  change (_routes s1) with (_routes s) in *. fold peer in Hsent, Hwritten, Hunrouted.
  destruct (any_earlier (get_timer aioquic e) (_wakeup_commands s));
    injection Hrun as <- <-.
  - split; [reflexivity|]. split; [exact Hsent|]. split; [exact Hwritten|].
    split; [exact Hunrouted|]. split; [exact Hcount|reflexivity].
  - assert (Hs : forall l, sent_data (Engine (quic_id q) (DatagramsToSend now) :: l
                                      ++ [Yield (RequestWakeup (next_id s)
                                                   (PrimFloat.sub (get_timer aioquic e)
                                                      (loop_time env (S (tick s)))))])
                           = sent_data l).
    { intros l. unfold sent_data. cbn [omap list_omap]. rewrite omap_app. cbn.
      apply app_nil_r. }
    assert (Hw : forall l, written (Engine (quic_id q) (DatagramsToSend now) :: l
                                    ++ [Yield (RequestWakeup (next_id s)
                                                 (PrimFloat.sub (get_timer aioquic e)
                                                    (loop_time env (S (tick s)))))])
                           = written l).
    { intros l. unfold written. cbn [omap list_omap]. rewrite omap_app. cbn.
      apply app_nil_r. }
    assert (Hu : forall l, unrouted (Engine (quic_id q) (DatagramsToSend now) :: l
                                     ++ [Yield (RequestWakeup (next_id s)
                                                  (PrimFloat.sub (get_timer aioquic e)
                                                     (loop_time env (S (tick s)))))])
                           = unrouted l).
    { intros l. unfold unrouted. cbn [omap list_omap]. rewrite omap_app. cbn.
      apply app_nil_r. }
    cbn [app]. rewrite Hs, Hw, Hu.
    split; [reflexivity|]. split; [exact Hsent|]. split; [exact Hwritten|].
    split; [exact Hunrouted|]. split; [exact Hcount|reflexivity].
Qed.
End Props.

End LayerProps.

(** ** Examples for the layers *)

(** An engine for the examples. It gives the events of its queue;
    [connect] and each datagram it receives move the next batch of its
    script to the queue; a [ConnectionTerminated] it gives leaves it
    terminated. Its timer is fixed and it has nothing to send. *)
Record ScriptedEngine : Type := mkScriptedEngine {
  queue : list QuicEvent;
  script : list (list QuicEvent)
}.

Definition scripted_next_event (e : Layer.EngineState ScriptedEngine)
  : option QuicEvent * Layer.EngineState ScriptedEngine :=
  match queue (Layer.core e) with
  | [] => (None, e)
  | ConnectionTerminated code ft reason as event :: rest =>
      (Some event,
       Layer.mkEngineState (Some (Relay.mkCloseEvent code ft reason)) Layer.TERMINATED
         (mkScriptedEngine rest (script (Layer.core e))))
  | event :: rest =>
      (Some event,
       Layer.mkEngineState (Layer._close_event e) (Layer._state e)
         (mkScriptedEngine rest (script (Layer.core e))))
  end.

Definition scripted_receive_datagram (e : Layer.EngineState ScriptedEngine)
  : Layer.EngineState ScriptedEngine :=
  match script (Layer.core e) with
  | [] => e
  | batch :: rest =>
      Layer.mkEngineState (Layer._close_event e) (Layer._state e)
        (mkScriptedEngine (queue (Layer.core e) ++ batch) rest)
  end.

(** The headers of three datagrams: a version negotiation packet
    (version 0), an Initial of a version aioquic does not know, and an
    Initial of version 1. *)
Definition scripted_pull_quic_header (data : bytes) (host_cid_length : Z)
  : option Layer.QuicHeader :=
  if String.eqb data "negotiation" then Some (Layer.mkQuicHeader (Some 0) None "dcid" "scid")
  else if String.eqb data "unknown"
  then Some (Layer.mkQuicHeader (Some 4278190081) (Some 0) "dcid" "scid")
  else if String.eqb data "initial" then Some (Layer.mkQuicHeader (Some 1) (Some 0) "dcid" "scid")
  else None.

Definition scripted_aioquic (script : list (list QuicEvent)) : Layer.Aioquic ScriptedEngine :=
  Layer.mkAioquic ScriptedEngine
    (fun _ _ => Layer.mkEngineState None Layer.FIRSTFLIGHT (mkScriptedEngine [] script))
    (fun _ _ _ e => scripted_receive_datagram e)
    scripted_next_event
    (fun _ e => e)
    (fun _ e => e)
    (fun _ _ e => scripted_receive_datagram e)
    (fun _ e => ([], e))
    (fun _ => 12.5%float)
    (fun _ => "host")
    (fun _ => [])
    (fun _ => "TLS_AES_128_GCM_SHA256")
    scripted_pull_quic_header
    (fun source_cid destination_cid _ =>
       Some (String.append "VN " (String.append source_cid (String.append " " destination_cid))))
    [0; 1; 1798521807]
    0 0 aioquic_NO_ERROR aioquic_H3_NO_ERROR 12
    aioquic_QuicErrorCode_name aioquic_H3ErrorCode_name.

(** A child layer that yields nothing, and one that yields
    [OpenConnection] for the server when it starts. *)
Definition quiet_child (child : unit) (event : Event) : list Command * unit := ([], child).

Definition opening_child (child : unit) (event : Event) : list Command * unit :=
  match event with
  | Start => ([OpenConnection Server], child)
  | _ => ([], child)
  end.

(** An environment whose clock stands at 10, with the reply of the
    runtime to [OpenConnection], the settings the addons give and the
    child layer. *)
Definition scripted_env (reply : option string) (settings : option QuicTlsSettings)
    (child : unit -> Event -> list Command * unit) : Layer.Environment unit :=
  Layer.mkEnvironment unit
    (fun _ => 10%float)
    (fun _ => reply)
    (fun _ _ => settings)
    (fun _ _ => (false, false))
    (fun _ _ => [])
    (fun _ => inl "no ClientHello")
    false
    child.

Definition no_settings : QuicTlsSettings :=
  mkQuicTlsSettings None [] None None None None None.

Definition client_connection : Layer.Connection :=
  Layer.mkConnection ("192.0.2.1", 50000) ("192.0.2.10", 443) true None false None [] None []
    None None None.

Definition server_connection : Layer.Connection :=
  Layer.mkConnection ("198.51.100.1", 443) ("192.0.2.10", 50001) false None false None [] None []
    None None None.

(** The three layers when they are created. *)
Definition new_client_layer (layer_id : nat) (table : gmap (Address * bytes) nat)
  : Layer.QuicLayer ScriptedEngine unit :=
  Layer.ClientQuicLayer_init layer_id tt client_connection server_connection None 8 table
    true None.

Definition new_server_layer : Layer.QuicLayer ScriptedEngine unit :=
  Layer.ServerQuicLayer_init 1 tt client_connection server_connection None 8 ∅.

(** A layer with an engine whose queue holds [events], after the
    handshake or before it. *)
Definition running_layer (class : Layer.LayerClass) (conn : ConnRef) (established : bool)
    (state : Layer.QuicConnectionState) (events : list QuicEvent)
  : Layer.QuicLayer ScriptedEngine unit :=
  let setup := if established then Some 9%float else None in
  Layer.mkQuicLayer class 1 tt conn
    (Some (Layer.mkQuicConnection 0
             (Layer.mkEngineState None state (mkScriptedEngine events []))))
    (Some no_settings) ∅ ∅ None true None None
    (Layer.set_timestamp_tls_setup setup (Layer.set_conn_tls true client_connection))
    (Layer.set_timestamp_tls_setup setup server_connection)
    None 8 ∅ 1 0.

(** ** The layers on the examples *)

(** A layer after the handshake whose engine has a timer at 12.5 and no
    earlier wakeup outstanding: [transmit] requests one wakeup, for
    the time left until the timer, and the [Wakeup] of that request
    takes it from the registry. *)
Lemma wakeup_requested_witness :
  let aioquic := scripted_aioquic [] in
  let env := scripted_env None (Some no_settings) quiet_child in
  let s := running_layer Layer.QuicLayer_ Client true Layer.CONNECTED [] in
  exists s' out s'' out',
    Layer.transmit aioquic env s = Layer.Ok tt s' out
    /\ LayerProps.requests out = [(1%nat, 2.5%float)]
    /\ Layer._wakeup_commands s' = <[1%nat := 12.5%float]> ∅
    /\ Layer._handle_event aioquic env 2 (Wakeup 1) s' = Layer.Ok tt s'' out'
    /\ Layer._wakeup_commands s'' !! 1%nat = None.
Proof.
  intros aioquic env s.
  pose proof (LayerProps.wakeup_requested_iff_no_earlier_deadline aioquic env)
    as (Ht & Hw & _ & _).
  eexists _, _, _, _.
  split; [vm_compute; reflexivity|].
  match goal with |- LayerProps.requests ?out = _ /\ Layer._wakeup_commands ?s' = _ /\ _ =>
    destruct (Ht s s' out) as (q & Hq & _ & Hno); [vm_compute; reflexivity|]
  end.
  destruct Hno as [Hreq Hreg].
  { intros (k & d & Hk & _). vm_compute in Hk. discriminate Hk. }
  split; [exact Hreq|]. split; [exact Hreg|].
  match goal with
  | |- Layer._handle_event _ _ _ _ ?s1 = Layer.Ok tt ?s2 ?o2 /\ _ =>
      assert (Hev : Layer._handle_event aioquic env 2 (Wakeup 1%nat) s1 = Layer.Ok tt s2 o2)
        by (vm_compute; reflexivity);
      assert (Hs : is_Some (Layer._wakeup_commands s1 !! 1%nat))
        by (eexists; vm_compute; reflexivity);
      assert (Hl : (1 < Layer.next_id s1)%nat) by (vm_compute; lia);
      split; [exact Hev|exact (Hw _ _ _ _ _ Hs Hl Hev)]
  end.
Defined.





(** Two layers that share the table: the first issues and retires a
    connection id, the second issues one and keeps it. *)
Lemma connection_ids_witness :
  let aioquic := scripted_aioquic [] in
  let l1 := new_client_layer 1 ∅ in
  let l2 := new_client_layer 2 ∅ in
  let ops := [LayerProps.Issued l1 "a"; LayerProps.Issued l2 "b"; LayerProps.Retired l1 "a"] in
  exists table',
    LayerProps.table_run aioquic ∅ ops = Some table'
    /\ table' !! LayerProps.key_of l1 "a" = None
    /\ table' !! LayerProps.key_of l2 "b" = Some 2%nat
    /\ (LayerProps.count (LayerProps.issues 1 (LayerProps.key_of l1 "a")) ops
        + LayerProps.owns ∅ 1 (LayerProps.key_of l1 "a")
        = LayerProps.count (LayerProps.retires 1 (LayerProps.key_of l1 "a")) ops
          + LayerProps.owns table' 1 (LayerProps.key_of l1 "a"))%nat
    /\ (LayerProps.count (LayerProps.issues 2 (LayerProps.key_of l2 "b")) ops
        + LayerProps.owns ∅ 2 (LayerProps.key_of l2 "b")
        = LayerProps.count (LayerProps.retires 2 (LayerProps.key_of l2 "b")) ops
          + LayerProps.owns table' 2 (LayerProps.key_of l2 "b"))%nat.
Proof.
  intros aioquic l1 l2 ops.
  pose proof (LayerProps.connection_ids_have_one_owner (Child:=unit) aioquic)
    as (Hi & Hr & _ & Hrun).
  assert (Hops : Forall (fun op => Layer.class (LayerProps.op_layer op) = Layer.ClientQuicLayer_)
                   ops) by (repeat constructor).
  set (k1 := (("192.0.2.10", 443), "a") : Address * bytes).
  set (k2 := (("192.0.2.10", 443), "b") : Address * bytes).
  assert (Hne : k1 <> k2) by discriminate.
  set (table' := delete k1 (<[k2 := 2%nat]> (<[k1 := 1%nat]> (∅ : gmap (Address * bytes) nat)))).
  assert (Ht : LayerProps.table_run aioquic ∅ ops = Some table').
  { unfold ops. cbn [LayerProps.table_run LayerProps.table_step]. unfold LayerProps.table_after.
    rewrite Hi by reflexivity.
    change (LayerProps.key_of (Layer.set_connections ∅ l1) "a") with k1.
    change (Layer.connections (Layer.set_connections ∅ l1)) with (∅ : gmap (Address * bytes) nat).
    rewrite lookup_empty.
    cbn [Layer.connections Layer.set_connections mbind option_bind LayerProps.table_step].
    unfold LayerProps.table_after.
    rewrite Hi by reflexivity.
    change (LayerProps.key_of (Layer.set_connections _ l2) "b") with k2.
    cbn [Layer.connections Layer.set_connections].
    rewrite lookup_insert_ne by exact Hne. rewrite lookup_empty.
    cbn [Layer.connections Layer.set_connections mbind option_bind LayerProps.table_step].
    unfold LayerProps.table_after.
    rewrite Hr by reflexivity.
    change (LayerProps.key_of (Layer.set_connections _ l1) "a") with k1.
    cbn [Layer.connections Layer.set_connections].
    rewrite lookup_insert_ne by (intros H; apply Hne; symmetry; exact H).
    rewrite lookup_insert_eq.
    change (Layer.layer_id (Layer.set_connections _ l1)) with 1%nat.
    change (Layer.layer_id l1) with 1%nat.
    rewrite decide_True by reflexivity.
    cbn [Layer.connections Layer.set_connections mbind option_bind].
    reflexivity. }
  exists table'.
  split; [exact Ht|].
  split; [apply lookup_delete_eq|].
  split; [unfold table'; rewrite lookup_delete_ne by exact Hne; apply lookup_insert_eq|].
  split; [exact (Hrun ops ∅ table' 1%nat _ Hops Ht)|exact (Hrun ops ∅ table' 2%nat _ Hops Ht)].
Defined.

(** C2 as stated fails when a layer terminates before the engine has
    retired a connection id: the key stays in the table. *)
Lemma terminated_layer_keeps_connection_id :
  let aioquic := scripted_aioquic [] in
  let l := running_layer Layer.ClientQuicLayer_ Client true Layer.TERMINATED [] in
  let ops := [LayerProps.Issued l "a";
              LayerProps.Terminated l (Relay.mkCloseEvent 0 None "bye")] in
  exists table',
    LayerProps.table_run aioquic ∅ ops = Some table'
    /\ table' !! LayerProps.key_of l "a" = Some (Layer.layer_id l).
Proof.
  intros aioquic l ops.
  exists (<[LayerProps.key_of l "a" := Layer.layer_id l]> ∅).
  split; [|apply lookup_insert_eq].
  unfold ops. cbn [LayerProps.table_run LayerProps.table_step]. unfold LayerProps.table_after.
  rewrite LayerProps.handle_connection_id_issued_client by reflexivity.
  change (LayerProps.key_of (Layer.set_connections ∅ l) "a") with (LayerProps.key_of l "a").
  change (Layer.connections (Layer.set_connections ∅ l))
    with (∅ : gmap (Address * bytes) nat).
  rewrite lookup_empty.
  cbn [Layer.connections Layer.set_connections mbind option_bind LayerProps.table_step].
  unfold LayerProps.table_after.
  change (Layer.layer_id (Layer.set_connections ∅ l)) with (Layer.layer_id l).
  generalize (<[LayerProps.key_of l "a" := Layer.layer_id l]>
                (∅ : gmap (Address * bytes) nat)).
  intros table. vm_compute. reflexivity.
Qed.


(** ** More examples for the layers *)

(** A child layer that answers every event with a datagram for the
    server, a [QuicTransmit] for the client connection and the request
    to close the client connection. *)
Definition talking_child (child : unit) (event : Event) : list Command * unit :=
  ([SendData Server "x"; QuicTransmit Client 0; CloseConnection Client], child).

(** A new layer registers a route for a peer and removes it again. *)
Lemma routes_witness :
  let s := new_client_layer 1 ∅ in
  let peer : Address := ("192.0.2.1", 50000) in
  exists s1,
    Layer.add_route peer (Some 7%nat) s = Some s1
    /\ Layer._routes s1 !! peer = Some (Some 7%nat)
    /\ Layer.add_route peer (Some 7%nat) s1 = None
    /\ Layer.remove_route peer (Some 7%nat) s1 = Some s
    /\ Layer.remove_route peer None s1 = None.
Proof.
  intros s peer.
  destruct (LayerProps.routes_are_registered_once peer (Some 7%nat) s) as (Hadd & Hnew & _).
  destruct (Hnew (lookup_empty peer)) as [[s1 Hs1] _].
  destruct (Hadd s1 Hs1) as (_ & Hroute & Htwice & Hremove & Hother).
  exists s1. split; [exact Hs1|]. split; [exact Hroute|]. split; [exact Htwice|].
  split; [exact Hremove|]. apply Hother. discriminate.
Defined.

(** A new server layer starts TLS with the settings of the addons; a
    second start fails, and the table of connection ids stays empty. *)
Lemma start_tls_witness :
  let aioquic := scripted_aioquic [] in
  let env := scripted_env None (Some no_settings) quiet_child in
  let s := new_server_layer in
  exists s' out,
    Layer.start_tls aioquic env None s = Layer.Ok true s' out
    /\ Layer.tls s' = Some no_settings
    /\ Layer.quic_id <$> Layer.quic s' = Some (Layer.next_id s)
    /\ Layer.connections s' = ∅
    /\ Layer.start_tls aioquic env None s' = Layer.Raise [].
Proof.
  intros aioquic env s.
  destruct (LayerProps.start_tls_runs_once aioquic env None s) as [Hstart _].
  destruct (Hstart eq_refl eq_refl) as (s' & out & Hrun & Htls & Hquic & Htable & Htwice).
  exists s', out. split; [exact Hrun|]. split; [exact Htls|]. split; [exact Hquic|].
  split; [exact Htable|]. apply Htwice. eexists. reflexivity.
Defined.

(** A client layer before the handshake: the handshake completes with
    ALPN protocol h3, and the connection is then established. *)
Lemma handshake_witness :
  let aioquic := scripted_aioquic [] in
  let env := scripted_env None (Some no_settings) quiet_child in
  let s := running_layer Layer.QuicLayer_ Client false Layer.CONNECTED [] in
  exists s' out,
    Layer.QuicLayer_handle_handshake_completed aioquic env "h3" false false s
    = Layer.Ok tt s' out
    /\ Layer.tls_established (Layer.the_conn s) = false
    /\ Layer.tls_established (Layer.the_conn s') = true
    /\ Layer.timestamp_tls_setup (Layer.the_conn s') = Some 10%float
    /\ Layer.alpn (Layer.the_conn s') = Some "h3"
    /\ out = [Layer.Yield (TlsEstablishedClientHook (mkQuicTlsData Client (Some no_settings)));
              Layer.Yield (Log (LogEstablished Client false false) "debug")]
    /\ Layer.QuicLayer_handle_handshake_completed aioquic env "h3" false false s'
       = Layer.Raise [].
Proof.
  intros aioquic env s.
  eexists _, _. split; [vm_compute; reflexivity|].
  match goal with
  | |- _ /\ Layer.tls_established (Layer.the_conn ?s') = true /\ _ /\ _ /\ ?out = _ /\ _ =>
      destruct (LayerProps.handshake_completes_once aioquic env "h3" false false s s' out
                  ltac:(vm_compute; reflexivity))
        as (Hbefore & Hafter & Htime & Halpn & _ & (t & Ht & Hout) & Htwice)
  end.
  split; [exact Hbefore|]. split; [exact Hafter|]. split; [exact Htime|].
  split; [exact Halpn|]. split; [reflexivity|]. apply Htwice.
Defined.

(** A new client layer has no engine: of the three commands of its
    child, the datagram for the server and the request to close the
    client connection reach the runtime, the [QuicTransmit] for the
    client connection does not. *)
Lemma event_to_child_witness :
  let aioquic := scripted_aioquic [] in
  let env := scripted_env None None talking_child in
  let s := new_client_layer 1 ∅ in
  Layer.event_to_child aioquic env 1 Start s
  = Layer.Ok tt s
      [Layer.ToChild Start; Layer.Yield (SendData Server "x");
       Layer.Yield (CloseConnection Client)].
Proof.
  intros aioquic env s.
  exact (LayerProps.event_to_child_without_engine aioquic env 0 Start s eq_refl
           ltac:(discriminate)).
Defined.

(** A new client layer is sent something that is no QUIC packet, and an
    Initial of seven bytes: both are answered with a log entry. *)
Lemma rejected_datagram_witness :
  let aioquic := scripted_aioquic [] in
  let env := scripted_env None (Some no_settings) quiet_child in
  let s := new_client_layer 1 ∅ in
  Layer._handle_event aioquic env 2 (DataReceived Client "garbage") s
  = Layer.Ok tt s [Layer.Yield (Log (LogText "Invalid QUIC datagram received.") "info")]
  /\ Layer._handle_event aioquic env 2 (DataReceived Client "initial") s
     = Layer.Ok tt s [Layer.Yield (Log (LogText "Invalid handshake received.") "info")].
Proof.
  intros aioquic env s.
  assert (Hs : ~ LayerProps.unsupported_version aioquic
                   (Layer.mkQuicHeader (Some 1) (Some 0) "dcid" "scid")).
  { intros (v & Hv & Hnot). injection Hv as <-. apply Hnot.
    apply list_elem_of_In. vm_compute. tauto. }
  split.
  - exact (LayerProps.client_layer_rejects_datagram aioquic env 2 "garbage" s
             eq_refl eq_refl eq_refl).
  - pose proof (LayerProps.client_layer_rejects_datagram aioquic env 2 "initial" s
                  eq_refl eq_refl eq_refl) as H.
    cbv zeta in H.
    change (Layer.pull_quic_header aioquic "initial" (Layer.quic_connection_id_length s))
      with (Some (Layer.mkQuicHeader (Some 1) (Some 0) "dcid" "scid")) in H.
    cbv iota beta in H. specialize (H Hs).
    change (Layer.connections s) with (∅ : gmap (Address * bytes) nat) in H.
    rewrite lookup_empty in H.
    apply H. left. vm_compute. lia.
Defined.

(** A client layer receives an Initial for a connection id of layer 2:
    it registers the route, forwards the datagram and hands it to its
    child; the next datagram is forwarded only; when the client
    connection closes the route is removed, and the layer accepts no
    further event. *)
Lemma roaming_witness :
  let aioquic := scripted_aioquic [] in
  let env := scripted_env None (Some no_settings) quiet_child in
  let s := new_client_layer 1 (<[(("192.0.2.10", 443), "dcid") := 2%nat]> ∅) in
  let peer : Address := ("192.0.2.1", 50000) in
  let relay := Layer.set_replaced_by (Some (Layer.RoamingRelay 2)) s in
  let closed := Layer.set_replaced_by (Some (Layer.RoamingClosed 2)) s in
  Layer.handle_event aioquic env 2 (DataReceived Client "initial") s
  = Layer.Ok tt relay
      [Layer.AddRoute 2 peer None;
       Layer.ServerEvent 2 peer (DataReceived Client "initial");
       Layer.ToChild (DataReceived Client "initial")]
  /\ Layer.handle_event aioquic env 2 (DataReceived Client "more") relay
     = Layer.Ok tt relay [Layer.ServerEvent 2 peer (DataReceived Client "more")]
  /\ Layer.handle_event aioquic env 2 (ConnectionClosed Client) relay
     = Layer.Ok tt closed [Layer.RemoveRoute 2 peer]
  /\ Layer.handle_event aioquic env 2 Start closed = Layer.Raise [].
Proof.
  intros aioquic env s peer relay closed.
  assert (Hs : ~ LayerProps.unsupported_version aioquic
                   (Layer.mkQuicHeader (Some 1) (Some 0) "dcid" "scid")).
  { intros (v & Hv & Hnot). injection Hv as <-. apply Hnot.
    apply list_elem_of_In. vm_compute. tauto. }
  destruct (LayerProps.roaming_layer_relays_until_closed aioquic env 2 "initial"
              (Layer.mkQuicHeader (Some 1) (Some 0) "dcid" "scid") 2%nat s
              eq_refl eq_refl eq_refl eq_refl eq_refl eq_refl eq_refl eq_refl Hs
              (lookup_insert_eq _ _ _))
    as (Hfirst & Hnext & Hclose & Hlater).
  split; [|split; [|split]].
  - rewrite Hfirst. unfold relay, s, new_client_layer.
    generalize (<[(("192.0.2.10", 443), "dcid") := 2%nat]> (∅ : gmap (Address * bytes) nat)).
    intros table. vm_compute. reflexivity.
  - exact (Hnext "more").
  - exact Hclose.
  - exact (Hlater Start).
Defined.

(** A datagram of 1200 bytes, and an environment in which its
    ClientHello parses and the addons want the server connection
    first. *)
Definition long_initial : bytes := String.concat "" (repeat "0123456789" 120).

Definition hello_env : Layer.Environment unit :=
  Layer.mkEnvironment unit
    (fun _ => 10%float)
    (fun _ => None)
    (fun _ _ => Some no_settings)
    (fun _ _ => (false, true))
    (fun _ _ => [])
    (fun _ => inr (Layer.mkClientHello (Some "example.com") ["h3"]))
    false
    quiet_child.

(** A new client layer without a server layer above it starts TLS on
    the ClientHello: the server cannot be opened first, which is
    logged, and the engine is created. *)
Lemma client_hello_witness :
  let aioquic := scripted_aioquic [] in
  let s := new_client_layer 1 ∅ in
  let header := Layer.mkQuicHeader (Some 1) (Some 0) "dcid" "scid" in
  let event := DataReceived Client long_initial in
  exists s' out,
    Layer.start_client_tls aioquic hello_env event long_initial header s
    = Layer.Ok None s' out
    /\ (exists configuration,
          out = [Layer.Yield (TlsClienthelloHook
                                (mkClientHelloData (Some "example.com") ["h3"] false false));
                 Layer.Yield (Log (LogServerFailed "No server QUIC available.") "info");
                 Layer.Yield (QuicTlsStartClientHook (mkQuicTlsData Client None));
                 Layer.Engine 0 (Layer.New configuration (Some "dcid"));
                 Layer.Yield (Log (LogCreated Client) "debug")])
    /\ Layer.conn_sni (Layer.client s') = Some "example.com"
    /\ Layer.alpn_offers (Layer.client s') = ["h3"]
    /\ Layer.quic s' <> None
    /\ Layer.tls s' = Some no_settings.
Proof.
  intros aioquic s header event.
  destruct (LayerProps.client_hello_starts_tls aioquic hello_env event long_initial header
              (Layer.mkClientHello (Some "example.com") ["h3"]) s eq_refl eq_refl
              ltac:(apply Nat.leb_le; vm_compute; reflexivity) eq_refl eq_refl)
    as (err & s' & out & Hrun & _ & Hsni & Halpn & _ & Hrest).
  cbn [fst snd] in Hrest. destruct Hrest as (_ & Hquic & _ & _ & _).
  assert (Hc : exists s0 out0,
             Layer.start_client_tls aioquic hello_env event long_initial header s
             = Layer.Ok None s0 out0
             /\ (exists configuration,
                   out0 = [Layer.Yield (TlsClienthelloHook
                                          (mkClientHelloData (Some "example.com") ["h3"]
                                             false false));
                           Layer.Yield (Log (LogServerFailed "No server QUIC available.")
                                          "info");
                           Layer.Yield (QuicTlsStartClientHook (mkQuicTlsData Client None));
                           Layer.Engine 0 (Layer.New configuration (Some "dcid"));
                           Layer.Yield (Log (LogCreated Client) "debug")])
             /\ Layer.tls s0 = Some no_settings)
    by (eexists _, _; split; [vm_compute; reflexivity|];
        split; [eexists; vm_compute; reflexivity|vm_compute; reflexivity]).
  destruct Hc as (s0 & out0 & Hc & Hout & Htls).
  rewrite Hc in Hrun. injection Hrun as <- <- <-.
  exists s0, out0. split; [exact Hc|]. split; [exact Hout|]. split; [exact Hsni|].
  split; [exact Halpn|]. split; [apply Hquic; reflexivity|exact Htls].
Defined.

(** An engine that has the given datagrams to send. *)
Definition sending_aioquic (datagrams : list (bytes * Address))
  : Layer.Aioquic ScriptedEngine :=
  let aioquic := scripted_aioquic [] in
  Layer.mkAioquic ScriptedEngine
    (Layer.new_connection aioquic) (Layer.receive_datagram aioquic)
    (Layer.next_event aioquic) (Layer.handle_timer aioquic) (Layer.close aioquic)
    (Layer.connect aioquic)
    (fun _ e => (datagrams, e))
    (Layer.get_timer aioquic) (Layer.host_cid aioquic) (Layer.peer_certificates aioquic)
    (Layer.cipher_suite_name aioquic) (Layer.pull_quic_header aioquic)
    (Layer.encode_quic_version_negotiation aioquic) (Layer.QuicProtocolVersion aioquic)
    (Layer.NEGOTIATION aioquic) (Layer.PACKET_TYPE_INITIAL aioquic) (Layer.NO_ERROR aioquic)
    (Layer.H3_NO_ERROR aioquic) (Layer.APPLICATION_ERROR aioquic)
    (Layer.QuicErrorCode_name aioquic) (Layer.H3ErrorCode_name aioquic).

(** Three datagrams of the engine of a client layer: for the client,
    for an address with a route and for an address without one. *)
Lemma transmit_witness :
  let peer : Address := ("192.0.2.1", 50000) in
  let roamed : Address := ("192.0.2.2", 50000) in
  let nowhere : Address := ("192.0.2.3", 50000) in
  let aioquic := sending_aioquic [("a", peer); ("b", roamed); ("c", nowhere)] in
  let env := scripted_env None (Some no_settings) quiet_child in
  let s := Layer.set_routes (<[roamed := Some 7%nat]> ∅)
             (running_layer Layer.QuicLayer_ Client true Layer.CONNECTED []) in
  exists s' out,
    Layer.transmit aioquic env s = Layer.Ok tt s' out
    /\ LayerProps.sent_data out = [(Client, "a")]
    /\ LayerProps.written out = [(7%nat, "b")]
    /\ LayerProps.unrouted out = [nowhere]
    /\ Layer._routes s' = Layer._routes s.
Proof.
  intros peer roamed nowhere aioquic env s.
  assert (Hrun : exists s' out, Layer.transmit aioquic env s = Layer.Ok tt s' out)
    by (eexists _, _; vm_compute; reflexivity).
  destruct Hrun as (s' & out & Hrun). exists s', out. split; [exact Hrun|].
  destruct (LayerProps.transmit_delivers_every_datagram aioquic env s s' _ out eq_refl Hrun)
    as (_ & Hsent & Hwritten & Hunrouted & _ & Hroutes).
  split; [exact Hsent|]. split; [rewrite Hwritten; vm_compute; reflexivity|].
  split; [rewrite Hunrouted; vm_compute; reflexivity|exact Hroutes].
Defined.
